(** * The block path codec and the allocation block of lib/backend/model/block.go

    A shallow embedding of the Go code of [block.go] and of the library
    routines it calls, followed by the properties of the block key codec
    ([defaultPath], [KeyFromDefaultPath], [defaultPathRoot]) and of the
    allocation block. The method [GetValuesFromEctd] of [confd.go] and the
    properties of the variables it stores come with it.

    Conventions of the embedding:
    - a Go [string] is its sequence of bytes, [list ascii];
    - a Go [byte] is an [ascii] (eight bits), read as a number with [N_of_ascii];
    - a Go [int] is a [Z];
    - a Go slice that may be [nil] is an [option (list _)], [None] being [nil];
    - a Go pointer that may be [nil] is an [option];
    - a function that may panic returns an [outcome]. *)

From Stdlib Require Import ZArith NArith Ascii String Lia.
From stdpp Require Import base tactics option list gmap strings.

Set Warnings "-register-all,-clear-no-such-hyp".
Local Open Scope Z_scope.

(** ** Bytes and strings *)

Abbreviation byte := ascii (only parsing).
Abbreviation gostring := (list ascii) (only parsing).

(** A string literal of the source. *)
Definition str (s : string) : gostring := list_ascii_of_string s.
Arguments str : simpl never.

Definition b2n (b : byte) : N := N_of_ascii b.
(** The conversion [byte(n)] of Go: the low eight bits. *)
Definition n2b (n : N) : byte := ascii_of_N (n mod 256).

Definition byte_eqb (a b : byte) : bool := Ascii.eqb a b.

Fixpoint string_eqb (s t : gostring) : bool :=
  match s, t with
  | [], [] => true
  | a :: s', b :: t' => byte_eqb a b && string_eqb s' t'
  | _, _ => false
  end.

(** ** Package unicode/utf8 *)
Module Utf8.

Definition RuneError : N := 0xFFFD%N.

Definition in_range (lo hi : N) (b : byte) : bool :=
  ((lo <=? b2n b) && (b2n b <=? hi))%N.

(** A continuation byte, 10xxxxxx. *)
Definition cont (b : byte) : bool := in_range 0x80 0xBF b.

Definition low6 (b : byte) : N := N.land (b2n b) 0x3F.

(** [utf8.DecodeRuneInString]: the first rune of [s] and its width in
    bytes. The empty string gives [(RuneError, 0)]; an encoding that is
    invalid or cut short gives [(RuneError, 1)]. The accepted ranges of the
    second byte are those of the [acceptRanges] table. *)
Definition DecodeRuneInString (s : gostring) : N * nat :=
  match s with
  | [] => (RuneError, 0%nat)
  | b0 :: s1 =>
    let n0 := b2n b0 in
    if (n0 <? 0x80)%N then (n0, 1%nat)
    else if (n0 <? 0xC2)%N then (RuneError, 1%nat)
    else if (n0 <? 0xE0)%N then
      match s1 with
      | b1 :: _ =>
        if cont b1 then (N.lor (N.shiftl (N.land n0 0x1F) 6) (low6 b1), 2%nat)
        else (RuneError, 1%nat)
      | _ => (RuneError, 1%nat)
      end
    else if (n0 <? 0xF0)%N then
      match s1 with
      | b1 :: b2 :: _ =>
        let lo := if (n0 =? 0xE0)%N then 0xA0%N else 0x80%N in
        let hi := if (n0 =? 0xED)%N then 0x9F%N else 0xBF%N in
        if in_range lo hi b1 && cont b2 then
          (N.lor (N.shiftl (N.land n0 0x0F) 12)
                 (N.lor (N.shiftl (low6 b1) 6) (low6 b2)), 3%nat)
        else (RuneError, 1%nat)
      | _ => (RuneError, 1%nat)
      end
    else if (n0 <? 0xF5)%N then
      match s1 with
      | b1 :: b2 :: b3 :: _ =>
        let lo := if (n0 =? 0xF0)%N then 0x90%N else 0x80%N in
        let hi := if (n0 =? 0xF4)%N then 0x8F%N else 0xBF%N in
        if in_range lo hi b1 && cont b2 && cont b3 then
          (N.lor (N.shiftl (N.land n0 0x07) 18)
                 (N.lor (N.shiftl (low6 b1) 12)
                        (N.lor (N.shiftl (low6 b2) 6) (low6 b3))), 4%nat)
        else (RuneError, 1%nat)
      | _ => (RuneError, 1%nat)
      end
    else (RuneError, 1%nat)
  end.

(** [utf8.RuneCountInString]. *)
Fixpoint rune_count (fuel : nat) (s : gostring) : nat :=
  match fuel, s with
  | S f, _ :: _ => S (rune_count f (drop (snd (DecodeRuneInString s)) s))
  | _, _ => 0%nat
  end.

Definition RuneCountInString (s : gostring) : nat := rune_count (length s) s.

End Utf8.

(** ** Package strings *)
Module Strings.

(** [strings.HasPrefix]. *)
Fixpoint HasPrefix (s prefix : gostring) {struct prefix} : bool :=
  match prefix, s with
  | [], _ => true
  | p :: prefix', a :: s' => byte_eqb a p && HasPrefix s' prefix'
  | _ :: _, [] => false
  end.

(** [strings.Index]: the offset of the first instance of [sep] in [s],
    or [-1]. *)
Fixpoint Index (s sep : gostring) : Z :=
  if HasPrefix s sep then 0
  else match s with
       | [] => -1
       | _ :: s' => let i := Index s' sep in if i <? 0 then -1 else 1 + i
       end.

(** The non-overlapping instances of a non-empty [sep] in [s]. *)
Fixpoint count_from (fuel : nat) (s sep : gostring) : nat :=
  match fuel with
  | O => 0%nat
  | S f =>
    let i := Index s sep in
    if i <? 0 then 0%nat
    else S (count_from f (drop (Z.to_nat i + length sep) s) sep)
  end.

(** [strings.Count]. *)
Definition Count (s sep : gostring) : nat :=
  match sep with
  | [] => S (Utf8.RuneCountInString s)
  | _ => count_from (length s) s sep
  end.

(** The loop of [strings.Replace]: [k] replacements remain, [rest] is
    [s[start:]], and [first] tells the first iteration ([i == 0]). *)
Fixpoint replace_loop (k : nat) (first : bool) (rest old new : gostring)
  : gostring :=
  match k with
  | O => rest
  | S k' =>
    let j :=
      match old with
      | [] => if first then 0%nat else snd (Utf8.DecodeRuneInString rest)
      | _ => Z.to_nat (Index rest old)
      end in
    take j rest ++ new ++
    replace_loop k' false (drop (j + length old) rest) old new
  end.

(** [strings.Replace(s, old, new, n)]: the first [n] non-overlapping
    instances of [old] replaced by [new]; all of them when [n < 0]. *)
Definition Replace (s old new : gostring) (n : Z) : gostring :=
  if string_eqb old new || (n =? 0) then s
  else
    let m := Z.of_nat (Count s old) in
    if m =? 0 then s
    else
      let n := if (n <? 0) || (m <? n) then m else n in
      replace_loop (Z.to_nat n) true s old new.

End Strings.

(** ** Package regexp, for the syntax the source uses

    The pattern of [matchBlock] uses [^], [$], literals, [.], a negated
    one-character class, [?], [+] and one capturing group. [exec] gives the
    threads that match at a position in priority order, so its first thread is
    the leftmost-first match that Go's [regexp] reports. Without flags [^]
    and [$] match only at the beginning and at the end of the text, [.]
    matches any character but a newline, and a negated class matches a
    newline too. Characters are read as Go reads them from a string: one
    UTF-8 rune at a time, a byte outside a valid encoding being [RuneError]
    of width 1. *)
Module Regexp.

Inductive regex : Type :=
| BeginText                         (* ^ *)
| EndText                           (* $ *)
| Literal (s : gostring)            (* ASCII literal *)
| AnyCharNotNL                      (* . *)
| NotChar (c : byte)                (* [^c], c ASCII *)
| Quest (r : regex)                 (* r? *)
| Plus (r : regex)                  (* r+ *)
| Capture (i : nat) (r : regex)     (* (r), group number i *)
| Seq (r1 r2 : regex).              (* r1r2 *)

(** A thread: the offset reached, the text that remains there, and the
    groups recorded so far. *)
Record thread : Type := mkThread {
  pos : nat;
  rest : gostring;
  cap : list (option gostring)
}.

Definition advance (k : nat) (t : thread) : thread :=
  {| pos := pos t + k; rest := drop k (rest t); cap := cap t |}.

Definition set_cap (i : nat) (m : gostring) (t : thread) : thread :=
  {| pos := pos t; rest := rest t; cap := <[i := Some m]> (cap t) |}.

(** One rune, accepted by [ok]. *)
Definition step_rune (ok : N -> bool) (t : thread) : list thread :=
  match rest t with
  | [] => []
  | _ :: _ =>
    let rw := Utf8.DecodeRuneInString (rest t) in
    if ok (fst rw) then [advance (snd rw) t] else []
  end.

(** The iterations of [r+] from thread [t]: a longer match comes before a
    shorter one, and an iteration that reads nothing is not repeated. [n]
    bounds the number of iterations. *)
Fixpoint plus_loop (step : thread -> list thread) (n : nat) (t : thread)
  : list thread :=
  match n with
  | O => []
  | S n' =>
    flat_map (fun t1 =>
                (if (pos t <? pos t1)%nat then plus_loop step n' t1 else [])
                  ++ [t1])
             (step t)
  end.

Fixpoint exec (r : regex) (t : thread) : list thread :=
  match r with
  | BeginText => if (pos t =? 0)%nat then [t] else []
  | EndText => match rest t with [] => [t] | _ :: _ => [] end
  | Literal s =>
    if Strings.HasPrefix (rest t) s then [advance (length s) t] else []
  | AnyCharNotNL => step_rune (fun r => negb (r =? 10)%N) t
  | NotChar c => step_rune (fun r => negb (r =? b2n c)%N) t
  | Quest r1 => exec r1 t ++ [t]
  | Plus r1 => plus_loop (exec r1) (S (length (rest t))) t
  | Capture i r1 =>
    map (fun t1 => set_cap i (take (pos t1 - pos t) (rest t)) t1) (exec r1 t)
  | Seq r1 r2 => flat_map (exec r2) (exec r1 t)
  end.

(** A compiled expression: its syntax and the number of its groups. *)
Record Regexp : Type := mkRegexp { prog : regex; NumSubexp : nat }.

Definition start_thread (re : Regexp) (s : gostring) (p : nat) : thread :=
  {| pos := p; rest := drop p s; cap := replicate (S (NumSubexp re)) None |}.

(** The match that begins at offset [p], if any: its end and the texts of
    the whole match and of the groups (an unmatched group is empty). *)
Definition match_at (re : Regexp) (s : gostring) (p : nat)
  : option (nat * list gostring) :=
  match exec (prog re) (start_thread re s p) with
  | [] => None
  | t :: _ =>
    let whole := take (pos t - p) (drop p s) in
    Some (pos t, map (default []) (<[0%nat := Some whole]> (cap t)))
  end.

(** [doExecute]: the leftmost match that begins at offset [p] or later:
    its bounds and texts. *)
Fixpoint doExecute (fuel : nat) (re : Regexp) (s : gostring) (p : nat)
  : option (nat * nat * list gostring) :=
  match match_at re s p with
  | Some (e, m) => Some (p, e, m)
  | None =>
    match fuel with
    | O => None
    | S f =>
      if (p <? length s)%nat
      then doExecute f re s (p + snd (Utf8.DecodeRuneInString (drop p s)))
      else None
    end
  end.

(** The loop of [allMatches]: at most [n] more matches are delivered, the
    search resumes at [p], and [prevMatchEnd] is the end of the previous
    match ([-1] before the first). *)
Fixpoint allMatches (fuel : nat) (re : Regexp) (s : gostring)
         (n : Z) (p : nat) (prevMatchEnd : Z) : list (list gostring) :=
  match fuel with
  | O => []
  | S f =>
    if (0 <? n) && (p <=? length s)%nat then
      match doExecute (length s) re s p with
      | None => []
      | Some (b, e, m) =>
        let empty := (e =? p)%nat in
        let accept := negb (empty && (Z.of_nat b =? prevMatchEnd)) in
        let p' :=
          if empty then
            let width := snd (Utf8.DecodeRuneInString (drop p s)) in
            if (0 <? width)%nat then (p + width)%nat else S (length s)
          else e in
        if accept
        then m :: allMatches f re s (n - 1) p' (Z.of_nat e)
        else allMatches f re s n p' (Z.of_nat e)
      end
    else []
  end.

(** The method [FindAllStringSubmatch(s, n)]: the successive matches of the
    expression in [s], each with its groups; all of them when [n < 0]. *)
Definition FindAllStringSubmatch (re : Regexp) (s : gostring) (n : Z)
  : list (list gostring) :=
  let n := if n <? 0 then Z.of_nat (length s) + 1 else n in
  allMatches (length s + 2) re s n 0%nat (-1).

End Regexp.

(** ** Package net of the Go library: addresses, masks and their text *)
Module Net.

Definition IPv4len : nat := 4.
Definition IPv6len : nat := 16.

(** [net.IP] and [net.IPMask] are byte slices; [None] is the [nil] slice. *)
Definition IP : Type := option (list byte).
Definition IPMask : Type := option (list byte).

(** [net.IPNet]. *)
Record IPNet : Type := mkIPNet { IPNet_IP : IP; IPNet_Mask : IPMask }.

(** The elements of a slice; [nil] has none. *)
Definition elems (x : option (list byte)) : list byte := default [] x.

Definition x00 : byte := "000"%char.
Definition xff : byte := "255"%char.

Definition at_ (p : list byte) (i : nat) : byte := nth i p x00.

Definition isZeros (p : list byte) : bool := forallb (byte_eqb x00) p.
Definition allFF (p : list byte) : bool := forallb (byte_eqb xff) p.

Definition v4InV6Prefix : list byte := replicate 10 x00 ++ [xff; xff].

(** [net.IPv4(a, b, c, d)]: the 16-byte form of an IPv4 address. *)
Definition IPv4 (a b c d : byte) : list byte := v4InV6Prefix ++ [a; b; c; d].

(** [IP.To4]. *)
Definition To4 (ip : IP) : IP :=
  let p := elems ip in
  if (length p =? IPv4len)%nat then ip
  else if (length p =? IPv6len)%nat && isZeros (take 10 p)
          && byte_eqb (at_ p 10) xff && byte_eqb (at_ p 11) xff
  then Some (take 4 (drop 12 p))
  else None.

Definition digit (n : N) : byte := n2b (48 + n).

(** The loop of [uitoa], filling the buffer from its end. *)
Fixpoint uitoa_loop (fuel : nat) (val : N) (buf : gostring) : gostring :=
  if (val <? 10)%N then digit val :: buf
  else match fuel with
       | O => buf
       | S f => uitoa_loop f (val / 10)%N (digit (val mod 10)%N :: buf)
       end.

(** [uitoa]: an unsigned integer in decimal; the buffer holds 20 digits. *)
Definition uitoa (val : N) : gostring :=
  if (val =? 0)%N then str "0" else uitoa_loop 19 val [].

Definition hexDigit : gostring := str "0123456789abcdef".
Definition hex (v : N) : byte := nth (N.to_nat v) hexDigit x00.

(** [appendHex]: a 32-bit value in hexadecimal without leading zeros. *)
Definition appendHex (dst : gostring) (i : N) : gostring :=
  if (i =? 0)%N then dst ++ str "0"
  else
    fold_left
      (fun dst j =>
         let v := N.shiftr i (j * 4) in
         if (0 <? v)%N then dst ++ [hex (N.land v 0xf)] else dst)
      [7; 6; 5; 4; 3; 2; 1; 0]%N dst.

(** [hexString]: two hexadecimal digits per byte. *)
Definition hexString (b : list byte) : gostring :=
  flat_map (fun tn => [hex (N.shiftr (b2n tn) 4); hex (N.land (b2n tn) 0xf)]) b.

(** The 16-bit group of an IPv6 address that starts at byte [i]. *)
Definition group (p : list byte) (i : nat) : N :=
  N.lor (N.shiftl (b2n (at_ p i)) 8) (b2n (at_ p (i + 1))).

(** The inner loop of the search for zeros in [IP.String]: the end of the
    run of zero groups that begins at [j]. *)
Fixpoint zero_run_end (fuel : nat) (p : list byte) (j : nat) : nat :=
  match fuel with
  | O => j
  | S f =>
    if (j <? IPv6len)%nat && byte_eqb (at_ p j) x00
       && byte_eqb (at_ p (j + 1)) x00
    then zero_run_end f p (j + 2)
    else j
  end.

(** The outer loop: [(e0, e1)] bounds the longest run found so far. *)
Fixpoint longest_zero_run (fuel : nat) (p : list byte) (i : nat) (e0 e1 : Z)
  : Z * Z :=
  match fuel with
  | O => (e0, e1)
  | S f =>
    if (i <? IPv6len)%nat then
      let j := zero_run_end 8 p i in
      if (i <? j)%nat && (e1 - e0 <? Z.of_nat j - Z.of_nat i)
      then longest_zero_run f p (j + 2) (Z.of_nat i) (Z.of_nat j)
      else longest_zero_run f p (i + 2) e0 e1
    else (e0, e1)
  end.

(** The printing loop of [IP.String], with [::] in place of the run. *)
Fixpoint print_groups (fuel : nat) (p : list byte) (e0 e1 : Z) (i : nat)
         (b : gostring) : gostring :=
  match fuel with
  | O => b
  | S f =>
    if (i <? IPv6len)%nat then
      if Z.of_nat i =? e0 then
        let b := b ++ str "::" in
        let i := Z.to_nat e1 in
        if (IPv6len <=? i)%nat then b
        else print_groups f p e0 e1 (i + 2) (appendHex b (group p i))
      else
        let b := if (0 <? i)%nat then b ++ str ":" else b in
        print_groups f p e0 e1 (i + 2) (appendHex b (group p i))
    else b
  end.

(** [IP.String]. *)
Definition IP_String (ip : IP) : gostring :=
  let p := elems ip in
  if (length p =? 0)%nat then str "<nil>"
  else
    match To4 ip with
    | Some [a; b; c; d] =>
      uitoa (b2n a) ++ str "." ++ uitoa (b2n b) ++ str "." ++
      uitoa (b2n c) ++ str "." ++ uitoa (b2n d)
    | _ =>
      if negb (length p =? IPv6len)%nat then str "?" ++ hexString p
      else
        let '(e0, e1) := longest_zero_run 8 p 0 (-1) (-1) in
        (* "::" never shortens a single zero group *)
        let '(e0, e1) := if e1 - e0 <=? 2 then (-1, -1) else (e0, e1) in
        print_groups 8 p e0 e1 0 []
    end.

(** [IPMask.String]. *)
Definition IPMask_String (m : IPMask) : gostring :=
  if (length (elems m) =? 0)%nat then str "<nil>" else hexString (elems m).

(** The leading one bits of a byte that is not [0xff], when the bits after
    them are all zero. *)
Fixpoint leading_ones (fuel : nat) (v : N) (n : Z) : option Z :=
  match fuel with
  | O => None
  | S f =>
    if negb (N.land v 0x80 =? 0)%N
    then leading_ones f (N.shiftl v 1 mod 256)%N (n + 1)
    else if (v =? 0)%N then Some n else None
  end.

(** [simpleMaskLength]: the number of leading ones of a mask made of ones
    followed by zeros, and [-1] for any other mask. *)
Fixpoint simpleMaskLength_from (n : Z) (mask : list byte) : Z :=
  match mask with
  | [] => n
  | v :: mask' =>
    if byte_eqb v xff then simpleMaskLength_from (n + 8) mask'
    else
      match leading_ones 9 (b2n v) n with
      | None => -1
      | Some n => if isZeros mask' then n else -1
      end
  end.

Definition simpleMaskLength (mask : list byte) : Z :=
  simpleMaskLength_from 0 mask.

(** [networkNumberAndMask]: [None] stands for the pair [(nil, nil)]. *)
Definition networkNumberAndMask (n : IPNet)
  : option (list byte * list byte) :=
  let ip :=
    match To4 (IPNet_IP n) with
    | Some p => Some p
    | None =>
      if (length (elems (IPNet_IP n)) =? IPv6len)%nat
      then Some (elems (IPNet_IP n)) else None
    end in
  match ip with
  | None => None
  | Some ip =>
    let m := elems (IPNet_Mask n) in
    if (length m =? IPv4len)%nat then
      if (length ip =? IPv4len)%nat then Some (ip, m) else None
    else if (length m =? IPv6len)%nat then
      if (length ip =? IPv4len)%nat then Some (ip, drop 12 m)
      else Some (ip, m)
    else None
  end.

(** [IPNet.String]: the address, a slash, and the prefix length, or the
    mask in hexadecimal when it is not a run of ones followed by zeros. *)
Definition IPNet_String (n : IPNet) : gostring :=
  match networkNumberAndMask n with
  | None => str "<nil>"
  | Some (nn, m) =>
    let l := simpleMaskLength m in
    if l =? -1 then IP_String (Some nn) ++ str "/" ++ IPMask_String (Some m)
    else IP_String (Some nn) ++ str "/" ++ uitoa (Z.to_N l)
  end.

(** Numbers larger than this do not fit the parsers below. *)
Definition big : N := 0xFFFFFF.

Definition is_digit (c : byte) : bool := Utf8.in_range 48 57 c.   (* '0'..'9' *)
Definition is_lower_hex (c : byte) : bool := Utf8.in_range 97 102 c.  (* 'a'..'f' *)
Definition is_upper_hex (c : byte) : bool := Utf8.in_range 65 70 c.   (* 'A'..'F' *)

(** The loop of [dtoi]: [n] is the value and [i] the number of digits read
    so far. The result is the value, the number of bytes read and whether
    a number was read without overflow. *)
Fixpoint dtoi_from (n : N) (i : nat) (s : gostring) : N * nat * bool :=
  match s with
  | c :: s' =>
    if is_digit c then
      let n := (n * 10 + (b2n c - 48))%N in
      if (big <=? n)%N then (big, i, false) else dtoi_from n (S i) s'
    else (n, i, negb (i =? 0)%nat)
  | [] => (n, i, negb (i =? 0)%nat)
  end.

(** [dtoi]: the decimal number at the beginning of [s]. *)
Definition dtoi (s : gostring) : N * nat * bool := dtoi_from 0 0 s.

(** The loop of [xtoi]. *)
Fixpoint xtoi_from (n : N) (i : nat) (s : gostring) : N * nat * bool :=
  match s with
  | c :: s' =>
    let d :=
      if is_digit c then Some (b2n c - 48)%N
      else if is_lower_hex c then Some (b2n c - 97 + 10)%N
      else if is_upper_hex c then Some (b2n c - 65 + 10)%N
      else None in
    match d with
    | Some d =>
      let n := (n * 16 + d)%N in
      if (big <=? n)%N then (0%N, i, false) else xtoi_from n (S i) s'
    | None => (n, i, negb (i =? 0)%nat)
    end
  | [] => (n, i, negb (i =? 0)%nat)
  end.

(** [xtoi]: the hexadecimal number at the beginning of [s]. *)
Definition xtoi (s : gostring) : N * nat * bool := xtoi_from 0 0 s.

(** The loop of [parseIPv4]: [k] octets remain to be read and [p] holds
    those read so far. *)
Fixpoint parseIPv4_loop (k : nat) (s : gostring) (p : list byte)
  : option (gostring * list byte) :=
  match k with
  | O => Some (s, p)
  | S k' =>
    match s with
    | [] => None                               (* missing octets *)
    | c :: s' =>
      let after_dot :=
        if (0 <? length p)%nat
        then (if byte_eqb c "."%char then Some s' else None)
        else Some s in
      match after_dot with
      | None => None
      | Some s =>
        let '(n, c, ok) := dtoi s in
        if negb ok || (0xFF <? n)%N then None
        else parseIPv4_loop k' (drop c s) (p ++ [n2b n])
      end
    end
  end.

(** [parseIPv4]: a dotted decimal address, in its 16-byte form. *)
Definition parseIPv4 (s : gostring) : option (list byte) :=
  match parseIPv4_loop IPv4len s [] with
  | Some ([], [a; b; c; d]) => Some (IPv4 a b c d)
  | _ => None
  end.

(** The loop of [parseIPv6]: [ip] holds the bytes stored so far (the index
    [i] of the source is their number) and [ellipsis] the position of
    [::], or [-1]. [None] is the [return nil] of the source; otherwise the
    state at the exit of the loop. *)
Fixpoint parseIPv6_loop (fuel : nat) (s : gostring) (ip : list byte)
         (ellipsis : Z) : option (gostring * list byte * Z) :=
  match fuel with
  | O => Some (s, ip, ellipsis)
  | S f =>
    let i := length ip in
    if (IPv6len <=? i)%nat then Some (s, ip, ellipsis)
    else
      let '(n, c, ok) := xtoi s in
      if negb ok || (0xFFFF <? n)%N then None
      else if (c <? length s)%nat && byte_eqb (at_ s c) "."%char then
        (* a trailing IPv4 address *)
        if (ellipsis <? 0) && negb (i =? IPv6len - IPv4len)%nat then None
        else if (IPv6len <? i + IPv4len)%nat then None
        else
          match parseIPv4 s with
          | None => None
          | Some ip4 => Some ([], ip ++ drop 12 ip4, ellipsis)
          end
      else
        let ip := ip ++ [n2b (N.shiftr n 8); n2b n] in
        let i := length ip in
        let s := drop c s in
        match s with
        | [] => Some (s, ip, ellipsis)
        | c0 :: s' =>
          if negb (byte_eqb c0 ":"%char) || (length s =? 1)%nat then None
          else
            match s' with
            | c1 :: s'' =>
              if byte_eqb c1 ":"%char then
                if 0 <=? ellipsis then None
                else
                  match s'' with
                  | [] => Some (s'', ip, Z.of_nat i)
                  | _ :: _ => parseIPv6_loop f s'' ip (Z.of_nat i)
                  end
              else parseIPv6_loop f s' ip ellipsis
            | [] => None
            end
        end
  end.

(** [parseIPv6] without a zone. *)
Definition parseIPv6 (s : gostring) : option (list byte) :=
  let leading :=
    match s with
    | c0 :: c1 :: s' => byte_eqb c0 ":"%char && byte_eqb c1 ":"%char
    | _ => false
    end in
  let s := if leading then drop 2 s else s in
  let ellipsis := if leading then 0 else -1 in
  if leading && (length s =? 0)%nat then Some (replicate IPv6len x00)
  else
    match parseIPv6_loop 9 s [] ellipsis with
    | None => None
    | Some (s, ip, ellipsis) =>
      let i := length ip in
      if negb (length s =? 0)%nat then None     (* must use the whole string *)
      else if (i <? IPv6len)%nat then
        if ellipsis <? 0 then None
        else
          let e := Z.to_nat ellipsis in
          Some (take e ip ++ replicate (IPv6len - i) x00 ++ drop e ip)
      else if 0 <=? ellipsis then None
      else Some ip
    end.

(** [net.CIDRMask(ones, bits)]; [None] is the [nil] mask. *)
Fixpoint cidr_mask_bytes (l : nat) (n : N) : list byte :=
  match l with
  | O => []
  | S l' =>
    if (8 <=? n)%N then xff :: cidr_mask_bytes l' (n - 8)%N
    else n2b (N.lxor 0xff (N.shiftr 0xff n)) :: cidr_mask_bytes l' 0%N
  end.

Definition CIDRMask (ones bits : Z) : IPMask :=
  if negb (bits =? 8 * Z.of_nat IPv4len) && negb (bits =? 8 * Z.of_nat IPv6len)
  then None
  else if (ones <? 0) || (bits <? ones) then None
  else Some (cidr_mask_bytes (Z.to_nat (bits / 8)) (Z.to_N ones)).

Definition byte_and (a b : byte) : byte := n2b (N.land (b2n a) (b2n b)).

(** [IP.Mask]. *)
Definition IP_Mask (ip : IP) (mask : IPMask) : IP :=
  let ip := elems ip in
  let mask := elems mask in
  let mask :=
    if (length mask =? IPv6len)%nat && (length ip =? IPv4len)%nat
       && allFF (take 12 mask)
    then drop 12 mask else mask in
  let ip :=
    if (length mask =? IPv4len)%nat && (length ip =? IPv6len)%nat
       && string_eqb (take 12 ip) v4InV6Prefix
    then drop 12 ip else ip in
  if negb (length ip =? length mask)%nat then None
  else Some (zip_with byte_and ip mask).

(** [net.ParseCIDR]: the address and the network of a text such as
    [192.0.2.0/24]; [None] is the error result [(nil, nil, err)]. *)
Definition ParseCIDR (s : gostring) : option (IP * IPNet) :=
  let i := Strings.Index s (str "/") in
  if i <? 0 then None
  else
    let addr := take (Z.to_nat i) s in
    let mask := drop (Z.to_nat i + 1) s in
    let '(iplen, ip) :=
      match parseIPv4 addr with
      | Some ip => (IPv4len, Some ip)
      | None => (IPv6len, parseIPv6 addr)
      end in
    let '(n, j, ok) := dtoi mask in
    match ip with
    | None => None
    | Some ip =>
      if negb ok || negb (j =? length mask)%nat
         || (8 * N.of_nat iplen <? n)%N
      then None
      else
        let m := CIDRMask (Z.of_N n) (8 * Z.of_nat iplen) in
        Some (Some ip, {| IPNet_IP := IP_Mask (Some ip) m; IPNet_Mask := m |})
    end.

End Net.

(** ** Results of Go functions *)

(** A call either returns or panics (a nil dereference, an index out of
    range). *)
Inductive outcome (A : Type) : Type :=
| Returned (a : A)
| Panicked.
Arguments Returned {A} a.
Arguments Panicked {A}.

(** The error values the code of the block key builds or receives. *)
Inductive error : Type :=
| ErrorInsufficientIdentifiers     (* lib/errors *)
| ParseError.                      (* net.ParseError *)

(** [%d] of [fmt.Sprintf] for an [int]. *)
Definition fmt_d (n : Z) : gostring :=
  if n <? 0 then str "-" ++ Net.uitoa (Z.to_N (- n)) else Net.uitoa (Z.to_N n).

(** ** Package lib/net of the repository *)
Module LibNet.

(** [IPNet] embeds [net.IPNet]: its fields and its [String] method are
    those of the Go library. *)
Definition IPNet : Type := Net.IPNet.

Definition String (n : IPNet) : gostring := Net.IPNet_String n.

(** Modelled from the spec: [IPNet.Version] of lib/net is not among the
    sources. The spec has the path segment [ipv4] or [ipv6] by the address
    family of the CIDR, so the version is 4 for an address with a 4-byte
    form and 6 for any other. *)
Definition Version (n : IPNet) : Z :=
  match Net.To4 (Net.IPNet_IP n) with
  | Some _ => 4
  | None => 6
  end.

(** Modelled from the spec: [ParseCIDR] of lib/net is not among the
    sources. The spec has it parse the text back into a CIDR, which is
    [net.ParseCIDR] of the Go library with its results wrapped in the types
    of this package: on failure the pointers are [nil] and the error is
    set. *)
Definition ParseCIDR (c : gostring)
  : option Net.IP * option IPNet * option error :=
  match Net.ParseCIDR c with
  | Some (ip, ipnet) => (Some ip, Some ipnet, None)
  | None => (None, None, Some ParseError)
  end.

End LibNet.

(** ** Package lib/backend/model: block.go *)
Module Model.

(** [matchBlock]:
    [^/?/calico/ipam/v2/assignment/ipv./block/([^/]+)$]. *)
Definition matchBlock : Regexp.Regexp :=
  let seq := Regexp.Seq in
  {| Regexp.prog :=
       seq Regexp.BeginText
      (seq (Regexp.Quest (Regexp.Literal (str "/")))
      (seq (Regexp.Literal (str "/calico/ipam/v2/assignment/ipv"))
      (seq Regexp.AnyCharNotNL
      (seq (Regexp.Literal (str "/block/"))
      (seq (Regexp.Capture 1
              (Regexp.Plus (Regexp.NotChar "/"%char)))
           Regexp.EndText)))));
     Regexp.NumSubexp := 1 |}.

Record BlockKey : Type := mkBlockKey { CIDR : LibNet.IPNet }.

(** The interface [Key]: [None] is the [nil] interface value. Block keys
    are the only keys of this file. *)
Definition Key : Type := option BlockKey.

Definition defaultPath (key : BlockKey) : gostring * option error :=
  match Net.IPNet_IP (CIDR key) with
  | None => ([], Some ErrorInsufficientIdentifiers)
  | Some _ =>
    let c := Strings.Replace (LibNet.String (CIDR key)) (str "/") (str "-") 1 in
    let e := str "/calico/ipam/v2/assignment/ipv"
             ++ fmt_d (LibNet.Version (CIDR key)) ++ str "/block/" ++ c in
    (e, None)
  end.

Definition defaultDeletePath (key : BlockKey) : gostring * option error :=
  defaultPath key.

Record BlockListOptions : Type := mkBlockListOptions { IPVersion : Z }.

Definition defaultPathRoot (options : BlockListOptions) : gostring :=
  let k := str "/calico/ipam/v2/assignment/" in
  if negb (IPVersion options =? 0)
  then k ++ (str "ipv" ++ fmt_d (IPVersion options) ++ str "/")
  else k.

(** The logging calls of the source have no effect on the result and are
    left out. Indexing [r[0][1]] panics out of range, and so does the
    dereference [*cidr] of a [nil] pointer. *)
Definition KeyFromDefaultPath (options : BlockListOptions) (path : gostring)
  : outcome Key :=
  let r := Regexp.FindAllStringSubmatch matchBlock path (-1) in
  if negb (length r =? 1)%nat then Returned None
  else
    match r !! 0%nat ≫= (.!! 1%nat) with
    | None => Panicked
    | Some r01 =>
      let cidrStr := Strings.Replace r01 (str "-") (str "/") 1 in
      let '(_, cidr, _) := LibNet.ParseCIDR cidrStr in
      match cidr with
      | None => Panicked
      | Some cidr => Returned (Some {| CIDR := cidr |})
      end
    end.

Record AllocationAttribute : Type := mkAllocationAttribute {
  AttrPrimary : option gostring;                      (* json:"handle_id" *)
  AttrSecondary : option (gmap gostring gostring)     (* json:"secondary" *)
}.

(** [AllocationBlock]; its field [CIDR] is [Block_CIDR] here, the name
    [CIDR] being the field of [BlockKey]. *)
Record AllocationBlock : Type := mkAllocationBlock {
  Block_CIDR : LibNet.IPNet;                          (* json:"cidr" *)
  HostAffinity : option gostring;                     (* json:"hostAffinity" *)
  StrictAffinity : bool;                              (* json:"strictAffinity" *)
  Allocations : option (list (option Z));             (* json:"allocations" *)
  Unallocated : option (list Z);                      (* json:"unallocated" *)
  Attributes : option (list AllocationAttribute)      (* json:"attributes" *)
}.

End Model.

(** ** Package encoding/json, for the types of the allocation block

    A block is persisted as the JSON text of its value. [Marshal] gives the
    JSON value that the Go library encodes: a struct is an object with one
    member per field, named by the field's [json] tag, in the order of the
    declaration; a [nil] pointer, slice or map is [null]; a slice is an
    array; a map with string keys is an object with its keys sorted. *)
Module Json.

Inductive value : Type :=
| Null
| Bool (b : bool)
| Number (n : Z)
| String (s : gostring)
| Array (elements : list value)
| Object (members : list (gostring * value)).

Definition nullable {A : Type} (enc : A -> value) (p : option A) : value :=
  match p with
  | None => Null
  | Some a => enc a
  end.

Definition slice {A : Type} (enc : A -> value) (s : option (list A)) : value :=
  nullable (fun l => Array (map enc l)) s.

(** The byte order of Go strings. *)
Fixpoint string_leb (s t : gostring) : bool :=
  match s, t with
  | [], _ => true
  | _ :: _, [] => false
  | a :: s', b :: t' =>
    if (b2n a <? b2n b)%N then true
    else if (b2n b <? b2n a)%N then false
    else string_leb s' t'
  end.

Fixpoint insert_sorted (e : gostring * value) (l : list (gostring * value))
  : list (gostring * value) :=
  match l with
  | [] => [e]
  | e' :: l' =>
    if string_leb (fst e) (fst e') then e :: l else e' :: insert_sorted e l'
  end.

Definition string_map (m : gmap gostring gostring) : value :=
  Object (foldr insert_sorted []
                (map (fun kv => (fst kv, String (snd kv))) (map_to_list m))).

Section Marshal.
(** [MarshalJSON] of [IPNet] belongs to lib/net, which is not among the
    sources: the encoding of a CIDR is a parameter. *)
Variable MarshalIPNet : LibNet.IPNet -> value.

Definition MarshalAllocationAttribute (a : Model.AllocationAttribute)
  : value :=
  Object
    [ (str "handle_id", nullable String (Model.AttrPrimary a));
      (str "secondary", nullable string_map (Model.AttrSecondary a)) ].

Definition MarshalAllocationBlock (b : Model.AllocationBlock) : value :=
  Object
    [ (str "cidr", MarshalIPNet (Model.Block_CIDR b));
      (str "hostAffinity", nullable String (Model.HostAffinity b));
      (str "strictAffinity", Bool (Model.StrictAffinity b));
      (str "allocations", slice (nullable Number) (Model.Allocations b));
      (str "unallocated", slice Number (Model.Unallocated b));
      (str "attributes",
       slice MarshalAllocationAttribute (Model.Attributes b)) ].
End Marshal.

(** Shapes of values. *)
Definition is_integer (v : value) : Prop := exists n, v = Number n.
Definition is_nullable_integer (v : value) : Prop :=
  v = Null \/ is_integer v.
Definition is_array_of (P : value -> Prop) (v : value) : Prop :=
  exists l, v = Array l /\ Forall P l.
Definition member_names (v : value) : option (list gostring) :=
  match v with
  | Object members => Some (map fst members)
  | _ => None
  end.
Definition is_attribute_record (v : value) : Prop :=
  member_names v = Some [str "handle_id"; str "secondary"].

(** The member [name] of an object. *)
Fixpoint lookup_member (name : gostring) (members : list (gostring * value))
  : option value :=
  match members with
  | [] => None
  | (k, v) :: members' =>
    if string_eqb k name then Some v else lookup_member name members'
  end.

Definition member (name : gostring) (v : value) : option value :=
  match v with
  | Object members => lookup_member name members
  | _ => None
  end.

End Json.

(** ** The operations of the ledger

    The functions that create and change an allocation block (the IPAM code
    of the repository) are not among the sources; block.go only declares the
    type. They are modelled from the spec, sections 3 and 4.3. *)
Module Ledger.
Import Model.

Inductive ledger_error : Type :=
| AffinityViolation
| AlreadyUnallocated (ordinal : Z).

Definition allocations (b : AllocationBlock) : list (option Z) :=
  default [] (Allocations b).
Definition unallocated (b : AllocationBlock) : list Z :=
  default [] (Unallocated b).
Definition attributes (b : AllocationBlock) : list AllocationAttribute :=
  default [] (Attributes b).

(** Modelled from the spec: the number of ordinals of a CIDR, one per
    address of its range ([10.0.0.0/30] has four); a CIDR without a prefix
    length has none. *)
Definition ordinals (cidr : LibNet.IPNet) : nat :=
  match Net.networkNumberAndMask cidr with
  | None => 0%nat
  | Some (_, m) =>
    let l := Net.simpleMaskLength m in
    if l <? 0 then 0%nat else (2 ^ (8 * length m - Z.to_nat l))%nat
  end.

(** Modelled from the spec: the creation of a ledger, "empty Allocations /
    full Unallocated, empty Attributes", unaffiliated. *)
Definition create (cidr : LibNet.IPNet) : AllocationBlock :=
  {| Block_CIDR := cidr;
     HostAffinity := None;
     StrictAffinity := false;
     Allocations := Some (replicate (ordinals cidr) None);
     Unallocated := Some (Z.of_nat <$> seq 0 (ordinals cidr));
     Attributes := Some [] |}.

#[global] Instance AllocationAttribute_eq_dec : EqDecision AllocationAttribute.
Proof. solve_decision. Defined.

(** The index of the first record equal to [a], if there is one. *)
Fixpoint find_attribute (a : AllocationAttribute)
         (l : list AllocationAttribute) : option nat :=
  match l with
  | [] => None
  | a' :: l' =>
    if decide (a' = a) then Some 0%nat else S <$> find_attribute a l'
  end.

(** Modelled from the spec: "looks up or creates a single Attributes record
    ...; if an existing record has identical content it is reused". *)
Definition intern_attribute (a : AllocationAttribute)
           (l : list AllocationAttribute) : nat * list AllocationAttribute :=
  match find_attribute a l with
  | Some i => (i, l)
  | None => (length l, l ++ [a])
  end.

(** [Allocations[ordinal] = index] for each ordinal of [os]. *)
Definition assign (index : Z) (os : list Z) (al : list (option Z))
  : list (option Z) :=
  foldl (fun al o => if 0 <=? o then <[Z.to_nat o := Some index]> al else al)
        al os.

(** Modelled from the spec: [Allocate(count, handleID, secondaryAttrs,
    hostID)]. The affinity is checked before any change; the ordinals are
    taken from the front of [Unallocated] (with [Unallocated = [0,1,2,3]],
    allocating two yields [[0,1]]), as many as there are up to [count];
    the result is the new ledger, the ordinals claimed and the shortfall. *)
Definition Allocate (b : AllocationBlock) (count : nat)
           (handleID : option gostring)
           (secondaryAttrs : gmap gostring gostring) (hostID : gostring)
  : AllocationBlock * list Z * nat + ledger_error :=
  let forbidden :=
    StrictAffinity b &&
    match HostAffinity b with
    | Some h => negb (string_eqb h hostID)
    | None => false
    end in
  if forbidden then inr AffinityViolation
  else
    let claimed := take count (unallocated b) in
    let '(index, attrs) :=
      intern_attribute
        {| AttrPrimary := handleID; AttrSecondary := Some secondaryAttrs |}
        (attributes b) in
    inl ({| Block_CIDR := Block_CIDR b;
            HostAffinity := HostAffinity b;
            StrictAffinity := StrictAffinity b;
            Allocations := Some (assign (Z.of_nat index) claimed (allocations b));
            Unallocated := Some (drop count (unallocated b));
            Attributes := Some attrs |},
         claimed, (count - length claimed)%nat).

Definition is_allocated (b : AllocationBlock) (ordinal : Z) : bool :=
  (0 <=? ordinal) &&
  match allocations b !! Z.to_nat ordinal with
  | Some (Some _) => true
  | _ => false
  end.

(** Modelled from the spec: the release of one ordinal. An ordinal that is
    free fails with [AlreadyUnallocated] and changes nothing; the spec is
    silent on an ordinal outside the table, which is treated the same
    way. *)
Definition release_one (b : AllocationBlock) (ordinal : Z)
  : AllocationBlock * option ledger_error :=
  if is_allocated b ordinal then
    ({| Block_CIDR := Block_CIDR b;
        HostAffinity := HostAffinity b;
        StrictAffinity := StrictAffinity b;
        Allocations := Some (<[Z.to_nat ordinal := None]> (allocations b));
        Unallocated := Some (unallocated b ++ [ordinal]);
        Attributes := Attributes b |}, None)
  else (b, Some (AlreadyUnallocated ordinal)).

(** Modelled from the spec: [Release(ordinals)], best effort over the
    batch, with the errors collected per ordinal. *)
Fixpoint Release (b : AllocationBlock) (os : list Z)
  : AllocationBlock * list ledger_error :=
  match os with
  | [] => (b, [])
  | o :: os' =>
    let '(b1, e) := release_one b o in
    let '(b2, es) := Release b1 os' in
    (b2, match e with Some e => e :: es | None => es end)
  end.



(** Whether some ordinal refers to the attribute record [index]. *)
Definition referenced (al : list (option Z)) (index : nat) : bool :=
  existsb (fun entry =>
             match entry with
             | Some i => i =? Z.of_nat index
             | None => false
             end) al.

(** The index of record [index] once the records without a reference are
    removed: the number of referenced records before it. *)
Definition renumber (al : list (option Z)) (index : Z) : Z :=
  Z.of_nat (length (filter (fun i => referenced al i = true)
                           (seq 0 (Z.to_nat index)))).

(** Modelled from the spec: [Compact()], which "removes Attributes records
    with no referencing ordinal and renumbers remaining indices". *)
Definition Compact (b : AllocationBlock) : AllocationBlock :=
  let al := allocations b in
  {| Block_CIDR := Block_CIDR b;
     HostAffinity := HostAffinity b;
     StrictAffinity := StrictAffinity b;
     Allocations :=
     Some ((fun entry : option Z => renumber al <$> entry) <$> al);
     Unallocated := Unallocated b;
     Attributes :=
       Some (omap (fun '(i, a) => if referenced al i then Some a else None)
                  (imap (fun i a => (i, a)) (attributes b))) |}.




End Ledger.

(** ** Command confd: confd.go

    [GetValuesFromEctd] fills the variables of a template from etcd. The
    client of etcd and [filepath.Join] belong to other packages: the answers
    of etcd and the joined path are parameters. *)
Module Confd.

(** [Settings], the type of the variable [settings]. *)
Record Settings : Type := mkSettings {
  ConfigDir : gostring;
  EtcdURL : gostring;
  EtcdPrefix : gostring;
  Interval : gostring;
  TemplateDir : gostring
}.

(** [Template]. A value of [Vars] has the type [interface{}]; the strings
    of etcd are [Json.String] values there, and [None] is the [nil] map. *)
Record Template : Type := mkTemplate {
  Dest : gostring;
  Gid : Z;
  Keys : list gostring;
  Mode : gostring;
  Uid : Z;
  Service : gostring;
  Src : gostring;
  Vars : option (gmap gostring Json.value)
}.

(** The fields of a response of etcd that the code reads. *)
Record Response : Type := mkResponse {
  Key : gostring;
  Value : gostring
}.

(** [strings.TrimPrefix]. *)
Definition TrimPrefix (s prefix : gostring) : gostring :=
  if Strings.HasPrefix s prefix then drop (length prefix) s else s.

(** [strings.NewReplacer("/", "_").Replace]: a replacer of one byte by one
    byte maps every byte of the text. *)
Definition slash_to_underscore (s : gostring) : gostring :=
  map (fun c => if byte_eqb c "/"%char then "_"%char else c) s.

Section Etcd.
(** The errors of the client of etcd. *)
Variable etcd_error : Type.
(** [c.Get(key)]: the answer of etcd to the request number [i] of a call,
    its values or an error. *)
Variable etcd_Get : nat -> gostring -> list Response + etcd_error.
(** [filepath.Join] of two elements. *)
Variable filepath_Join : gostring -> gostring -> gostring.
(** The variable [settings] of the package. *)
Variable settings : Settings.

(** The inner loop: [for _, v := range values]. *)
Fixpoint store_values (values : list Response)
         (vars : gmap gostring Json.value) : gmap gostring Json.value :=
  match values with
  | [] => vars
  | v :: values' =>
    let key := TrimPrefix (Key v) (EtcdPrefix settings) in
    let new_key := slash_to_underscore key in
    store_values values' (<[new_key := Json.String (Value v)]> vars)
  end.

(** The outer loop: [for _, key := range t.Keys], from the request number
    [i] on. It ends at the first error. *)
Fixpoint get_keys (i : nat) (keys : list gostring)
         (vars : gmap gostring Json.value)
  : gmap gostring Json.value * option etcd_error :=
  match keys with
  | [] => (vars, None)
  | key :: keys' =>
    match etcd_Get i (filepath_Join (EtcdPrefix settings) key) with
    | inr err => (vars, Some err)
    | inl values => get_keys (S i) keys' (store_values values vars)
    end
  end.

(** The method [GetValuesFromEctd] of a template: the template after the call and the
    error returned. *)
Definition GetValuesFromEctd (t : Template) : Template * option etcd_error :=
  let '(vars, err) := get_keys 0 (Keys t) ∅ in
  ({| Dest := Dest t; Gid := Gid t; Keys := Keys t; Mode := Mode t;
      Uid := Uid t; Service := Service t; Src := Src t;
      Vars := Some vars |}, err).

End Etcd.

End Confd.

(** * The vocabulary of the properties *)

(** The text of the spec for the substitution: the first [c] of [s] becomes
    [d], and nothing else changes. *)
Fixpoint replace_first (c d : byte) (s : gostring) : gostring :=
  match s with
  | [] => []
  | a :: s' => if byte_eqb a c then d :: s' else a :: replace_first c d s'
  end.

(** The value of a decimal numeral, digit by digit from the left; [None]
    when the text is empty or has a byte that is not a digit. *)
Definition digit_value (c : byte) : N := (b2n c - 48)%N.

Definition digits_value (s : gostring) : N :=
  foldl (fun n c => n * 10 + digit_value c)%N 0%N s.

Definition decimal_value (s : gostring) : option N :=
  if forallb Net.is_digit s && negb (length s =? 0)%nat
  then Some (digits_value s)
  else None.

(** The integer a decimal numeral with an optional minus sign denotes. *)
Definition read_decimal (s : gostring) : option Z :=
  match s with
  | c :: s' =>
    if byte_eqb c "-"%char then Z.opp <$> (Z.of_N <$> decimal_value s')
    else Z.of_N <$> decimal_value s
  | [] => None
  end.

(** An IPv4 network given by the bytes of its address and of its mask. *)
Definition ipv4_net (a b c d m1 m2 m3 m4 : N) : LibNet.IPNet :=
  {| Net.IPNet_IP := Some [n2b a; n2b b; n2b c; n2b d];
     Net.IPNet_Mask := Some [n2b m1; n2b m2; n2b m3; n2b m4] |}.

(** The block key of [10.0.0.0/30]. *)
Definition key_10_0_0_0_30 : Model.BlockKey :=
  {| Model.CIDR := ipv4_net 10 0 0 0 255 255 255 252 |}.

(** The texts of the pattern of [matchBlock]. *)
Definition block_prefix : gostring := str "/calico/ipam/v2/assignment/ipv".
Definition block_infix : gostring := str "/block/".

(** [v] is one character, other than a newline, of a text that goes on
    with [tail]: the bytes Go reads as one rune there. *)
Definition one_char_not_newline (v tail : gostring) : Prop :=
  v <> []
  /\ snd (Utf8.DecodeRuneInString (v ++ tail)) = length v
  /\ fst (Utf8.DecodeRuneInString (v ++ tail)) <> 10%N.

(** The paths the pattern of [matchBlock] describes, with the segment its
    group holds: an optional [/], the prefix, any one character but a
    newline, [/block/], and a non-empty segment without [/] up to the end. *)
Definition block_path (path seg : gostring) : Prop :=
  exists lead v,
    path = lead ++ block_prefix ++ v ++ block_infix ++ seg
    /\ (lead = [] \/ lead = str "/")
    /\ one_char_not_newline v (block_infix ++ seg)
    /\ seg <> []
    /\ "/"%char ∉ seg.

(** The path has the syntax of a block key. *)
Definition is_block_path (path : gostring) : Prop :=
  exists seg, block_path path seg.

(** An executable reading of [block_path]: the segment of a text that
    begins with the prefix of the pattern, and the segment of a path. *)
Definition block_tail (s : gostring) : option gostring :=
  if Strings.HasPrefix s block_prefix then
    let s1 := drop (length block_prefix) s in
    match s1 with
    | [] => None
    | _ :: _ =>
      let rw := Utf8.DecodeRuneInString s1 in
      if negb (fst rw =? 10)%N then
        let s2 := drop (snd rw) s1 in
        if Strings.HasPrefix s2 block_infix then
          let s3 := drop (length block_infix) s2 in
          if bool_decide (s3 <> [] /\ "/"%char ∉ s3) then Some s3 else None
        else None
      else None
    end
  else None.

Definition block_segment (path : gostring) : option gostring :=
  match path with
  | c :: path' =>
    if byte_eqb c "/"%char then
      match block_tail path' with
      | Some seg => Some seg
      | None => block_tail path
      end
    else block_tail path
  | [] => None
  end.

(** A CIDR in the form in which [ParseCIDR] gives it back: the text of the
    CIDR parses to the CIDR itself. *)
Definition canonical (c : LibNet.IPNet) : Prop :=
  exists ip, Net.ParseCIDR (LibNet.String c) = Some (ip, c).

(** A byte that is neither the slash nor the dash of the codec. *)
Definition plain (c : byte) : Prop := c <> "/"%char /\ c <> "-"%char.

(** The block key of [10.0.0.1/24], an address inside its network, and the
    key of the network [10.0.0.0/24]. *)
Definition key_10_0_0_1_24 : Model.BlockKey :=
  {| Model.CIDR := ipv4_net 10 0 0 1 255 255 255 0 |}.
Definition key_10_0_0_0_24 : Model.BlockKey :=
  {| Model.CIDR := ipv4_net 10 0 0 0 255 255 255 0 |}.

(** Options of a listing; the decoder does not read them. *)
Definition any_version : Model.BlockListOptions := {| Model.IPVersion := 0 |}.




(** The ledger of [10.0.0.0/30] after its creation. *)
Definition ledger_10_0_0_0_30 : Model.AllocationBlock :=
  Ledger.create (Model.CIDR key_10_0_0_0_30).

(** The zero value [AllocationBlock{}] of Go: every slice and pointer is
    [nil]. *)
Definition zero_block : Model.AllocationBlock :=
  {| Model.Block_CIDR := {| Net.IPNet_IP := None; Net.IPNet_Mask := None |};
     Model.HostAffinity := None;
     Model.StrictAffinity := false;
     Model.Allocations := None;
     Model.Unallocated := None;
     Model.Attributes := None |}.

(** A CIDR written as the JSON string of its text. *)
Definition cidr_as_text (c : LibNet.IPNet) : Json.value :=
  Json.String (LibNet.String c).

(** The text [rest] does not go on with a decimal digit. *)
Definition next_not_digit (rest : gostring) : Prop :=
  match rest with
  | [] => True
  | c :: _ => Net.is_digit c = false
  end.

(** A canonical IPv4 network: a 4-byte address, the 4-byte mask of a prefix
    length up to 32, and no bit of the address outside the mask. *)
Definition network_v4 (c : LibNet.IPNet) : Prop :=
  exists (a b c0 d : byte) (n : N),
    (n <= 32)%N
    /\ Net.IPNet_IP c = Some [a; b; c0; d]
    /\ Net.IPNet_Mask c = Some (Net.cidr_mask_bytes 4 n)
    /\ zip_with Net.byte_and [a; b; c0; d] (Net.cidr_mask_bytes 4 n)
       = [a; b; c0; d].

(** An IPv6 network given by the bytes of its address and by its prefix
    length. *)
Definition ipv6_net (p : list N) (n : N) : LibNet.IPNet :=
  {| Net.IPNet_IP := Some (n2b <$> p);
     Net.IPNet_Mask := Some (Net.cidr_mask_bytes 16 n) |}.

(** The block keys of [fe80::/64] and of [2001:db8:0:0:1::/96]. *)
Definition key_fe80_64 : Model.BlockKey :=
  {| Model.CIDR :=
       ipv6_net [0xfe; 0x80; 0; 0; 0; 0; 0; 0; 0; 0; 0; 0; 0; 0; 0; 0]%N 64 |}.
Definition key_2001_db8_96 : Model.BlockKey :=
  {| Model.CIDR :=
       ipv6_net [0x20; 0x01; 0x0d; 0xb8; 0; 0; 0; 0; 0; 1; 0; 0; 0; 0; 0; 0]%N
                96 |}.

(** The text of one group of an IPv6 address: its hexadecimal numeral
    without leading zeros. *)
Definition hex_text (g : N) : gostring := Net.appendHex [] g.

(** A byte that [xtoi] reads as a hexadecimal digit. *)
Definition is_hex_digit (c : byte) : bool :=
  Net.is_digit c || Net.is_lower_hex c || Net.is_upper_hex c.

(** The text [rest] does not go on with a hexadecimal digit. *)
Definition next_not_hex (rest : gostring) : Prop :=
  match rest with
  | [] => True
  | c :: _ => is_hex_digit c = false
  end.

(** The bytes of [p] from index [i] up to [j] are zero. *)
Definition zeros_between (p : list byte) (i j : nat) : Prop :=
  forall k, (i <= k < j)%nat -> Net.at_ p k = Net.x00.

(** What the search for the longest run of zero groups may answer: no run,
    or the byte indices of a run of zero groups of [p]. *)
Definition run_ok (p : list byte) (e : Z * Z) : Prop :=
  e = (-1, -1)
  \/ exists a b : nat,
      e = (Z.of_nat (2 * a), Z.of_nat (2 * b))
      /\ (a < b <= 8)%nat
      /\ zeros_between p (2 * a) (2 * b).

(** Groups written one after the other, each after a colon. *)
Fixpoint tail_groups (gs : list N) : gostring :=
  match gs with
  | [] => []
  | g :: gs' => ":"%char :: hex_text g ++ tail_groups gs'
  end.

(** Groups written with a colon between them. *)
Definition join_groups (gs : list N) : gostring :=
  match gs with
  | [] => []
  | g :: gs' => hex_text g ++ tail_groups gs'
  end.

(** The [n] groups of the address [p] from the group [a] on. *)
Definition groups_from (p : list byte) (a n : nat) : list N :=
  (fun k => Net.group p (2 * k)) <$> seq a n.

(** The bytes [parseIPv6] stores for a list of groups. *)
Definition group_bytes (gs : list N) : list byte :=
  flat_map (fun g => [n2b (N.shiftr g 8); n2b g]) gs.

(** What [parseIPv6] does after it has stored a group: [rest] is the text
    after the group, [ip] the bytes stored, [f] the iterations left. *)
Definition after_group (f : nat) (rest : gostring) (ip : list byte) (e : Z)
  : option (gostring * list byte * Z) :=
  match rest with
  | [] => Some ([], ip, e)
  | c0 :: s' =>
    if negb (byte_eqb c0 ":"%char) || (length rest =? 1)%nat then None
    else
      match s' with
      | c1 :: s'' =>
        if byte_eqb c1 ":"%char then
          if 0 <=? e then None
          else
            match s'' with
            | [] => Some (s'', ip, Z.of_nat (length ip))
            | _ :: _ => Net.parseIPv6_loop f s'' ip (Z.of_nat (length ip))
            end
        else Net.parseIPv6_loop f s' ip e
      | [] => None
      end
  end.

(** A canonical IPv6 network: a 16-byte address that is not an IPv4
    address, the 16-byte mask of a prefix length up to 128, and no bit of
    the address outside the mask. *)
Definition network_v6 (c : LibNet.IPNet) : Prop :=
  exists (p : list byte) (n : N),
    length p = 16%nat
    /\ Net.To4 (Some p) = None
    /\ (n <= 128)%N
    /\ Net.IPNet_IP c = Some p
    /\ Net.IPNet_Mask c = Some (Net.cidr_mask_bytes 16 n)
    /\ zip_with Net.byte_and p (Net.cidr_mask_bytes 16 n) = p.

(** A network as [ParseCIDR] builds it: an address of 4 or 16 bytes, the
    prefix mask of the same length, and no bit of the address outside the
    mask. *)
Definition masked_network (c : LibNet.IPNet) : Prop :=
  exists (p : list byte) (n : N),
    Net.IPNet_IP c = Some p
    /\ Net.IPNet_Mask c = Some (Net.cidr_mask_bytes (length p) n)
    /\ (length p = 4%nat /\ (n <= 32)%N \/ length p = 16%nat /\ (n <= 128)%N)
    /\ zip_with Net.byte_and p (Net.cidr_mask_bytes (length p) n) = p.

(** The key of a network with its address masked. *)
Definition masked_key (p : list byte) (n : N) : Model.BlockKey :=
  {| Model.CIDR :=
       {| Net.IPNet_IP :=
            Some (zip_with Net.byte_and p (Net.cidr_mask_bytes (length p) n));
          Net.IPNet_Mask := Some (Net.cidr_mask_bytes (length p) n) |} |}.

(** The name of the variable of a template for a key of etcd: the key
    without the prefix, if it has it, and with [_] for every [/]. *)
Definition var_name (prefix key : gostring) : gostring :=
  Confd.slash_to_underscore (Confd.TrimPrefix key prefix).

(** The responses a call of [GetValuesFromEctd] reads, in the order in
    which it reads them: those of the requests before the first error. *)
Fixpoint responses_read {E : Type}
         (Get : nat -> gostring -> list Confd.Response + E)
         (Join : gostring -> gostring -> gostring) (prefix : gostring)
         (i : nat) (keys : list gostring) : list Confd.Response :=
  match keys with
  | [] => []
  | key :: keys' =>
    match Get i (Join prefix key) with
    | inr _ => []
    | inl values => values ++ responses_read Get Join prefix (S i) keys'
    end
  end.

(** The variables of a template; a [nil] map has none. *)
Definition vars_of (t : Confd.Template) : gmap gostring Json.value :=
  default ∅ (Confd.Vars t).

(** A template with two keys, and an etcd with a value under each. *)
Definition template_two_keys : Confd.Template :=
  {| Confd.Dest := str "/etc/app.conf"; Confd.Gid := 0;
     Confd.Keys := [str "app/db"; str "app/cache"];
     Confd.Mode := str "0644"; Confd.Uid := 0;
     Confd.Service := str "app"; Confd.Src := str "app.tmpl";
     Confd.Vars := None |}.

Definition etcd_two_keys (i : nat) (request : gostring)
  : list Confd.Response + unit :=
  match i with
  | O => inl [ {| Confd.Key := str "/app/db/host"; Confd.Value := str "db1" |};
               {| Confd.Key := str "/app/db/port"; Confd.Value := str "5432" |} ]
  | 1%nat => inl [ {| Confd.Key := str "/app/cache/host";
                      Confd.Value := str "c1" |} ]
  | _ => inr tt
  end.

Definition join_with_slash (a b : gostring) : gostring := a ++ "/"%char :: b.

Definition settings_default : Confd.Settings :=
  {| Confd.ConfigDir := str "/etc/confd/conf.d";
     Confd.EtcdURL := str "http://0.0.0.0:4001";
     Confd.EtcdPrefix := str "/";
     Confd.Interval := str "600";
     Confd.TemplateDir := str "/etc/confd/conf.d/templates" |}.

(** The CIDR is an IPv4 network in any of the forms Go has for it: the
    address [a.b.c.d] in 4 bytes or in 16, and the mask of the prefix
    length [n] in 4 bytes or, with 96 leading ones more, in 16. *)
Definition ipv4_in_any_form (c : LibNet.IPNet) (a b c0 d : byte) (n : N)
  : Prop :=
  (n <= 32)%N
  /\ (Net.IPNet_IP c = Some [a; b; c0; d]
      \/ Net.IPNet_IP c = Some (Net.IPv4 a b c0 d))
  /\ (Net.IPNet_Mask c = Some (Net.cidr_mask_bytes 4 n)
      \/ Net.IPNet_Mask c = Some (Net.cidr_mask_bytes 16 (96 + n))).

(** The key of [10.0.0.1/24] with its address and its mask in 16 bytes. *)
Definition key_10_0_0_1_24_long : Model.BlockKey :=
  {| Model.CIDR :=
       {| Net.IPNet_IP := Some (Net.IPv4 (n2b 10) (n2b 0) (n2b 0) (n2b 1));
          Net.IPNet_Mask := Some (Net.cidr_mask_bytes 16 120) |} |}.

(** A key whose address has three bytes. *)
Definition key_three_bytes : Model.BlockKey :=
  {| Model.CIDR :=
       {| Net.IPNet_IP := Some [n2b 10; n2b 0; n2b 0];
          Net.IPNet_Mask := Some (Net.cidr_mask_bytes 4 24) |} |}.

(** Whether the bytes of an address are an IPv4 address: four bytes, or
    sixteen that begin with the ten zero bytes and the two bytes [0xff] of
    an IPv4 address written inside IPv6. *)
Definition is_ipv4 (p : list byte) : bool :=
  (length p =? 4)%nat
  || ((length p =? 16)%nat
      && string_eqb (take 12 p) (replicate 10 Net.x00 ++ [Net.xff; Net.xff])).

(** The digit of the path for an address: [4] for an IPv4 address and [6]
    for any other. *)
Definition version_digit (p : list byte) : gostring :=
  if is_ipv4 p then str "4" else str "6".



(** The ledger after an allocation of [count] ordinals for a handle. *)
Definition allocated (b : Model.AllocationBlock) (count : nat)
           (handleID : gostring) : Model.AllocationBlock :=
  match Ledger.Allocate b count (Some handleID) ∅ (str "node") with
  | inl (b', _, _) => b'
  | inr _ => b
  end.

(** The ledger of [10.0.0.0/30] in use: two ordinals allocated for [h1],
    one for [h2], the ordinals 0 and 1 released (1 twice), and the
    attributes compacted. *)
Definition ledger_in_use : Model.AllocationBlock :=
  Ledger.Compact
    (fst (Ledger.Release
            (allocated (allocated ledger_10_0_0_0_30 2 (str "h1")) 1 (str "h2"))
            [0; 1; 1])).

(** * Properties *)

(** Linear arithmetic with division and remainder by constants. *)
Ltac mlia := zify; Z.to_euclidean_division_equations; lia.

(** ** Bytes and strings *)

Lemma byte_eqb_true (a b : byte) : byte_eqb a b = true <-> a = b.
Proof. apply Ascii.eqb_eq. Qed.

Lemma byte_eqb_false (a b : byte) : byte_eqb a b = false <-> a <> b.
Proof. apply Ascii.eqb_neq. Qed.

Lemma byte_eqb_refl (a : byte) : byte_eqb a a = true.
Proof. by apply byte_eqb_true. Qed.

Lemma string_eqb_true (s t : gostring) : string_eqb s t = true <-> s = t.
Proof.
  revert t; induction s as [|a s IH]; intros [|b t]; simpl.
  - done.
  - split; discriminate.
  - split; discriminate.
  - rewrite andb_true_iff, byte_eqb_true, IH. split; [intros [-> ->]|intros [= -> ->]]; done.
Qed.

Lemma HasPrefix_app (p r : gostring) : Strings.HasPrefix (p ++ r) p = true.
Proof. induction p as [|a p IH]; simpl; [done|]. by rewrite byte_eqb_refl. Qed.

Lemma HasPrefix_inv (s p : gostring) :
  Strings.HasPrefix s p = true -> s = p ++ drop (length p) s.
Proof.
  revert s; induction p as [|a p IH]; intros s; simpl.
  - by rewrite drop_0.
  - destruct s as [|b s]; [done|]. rewrite andb_true_iff, byte_eqb_true.
    intros [-> H]. simpl. f_equal. by apply IH.
Qed.

Lemma replace_first_notin (c d : byte) (s : gostring) :
  c ∉ s -> replace_first c d s = s.
Proof.
  induction s as [|a s IH]; simpl; [done|].
  rewrite not_elem_of_cons. intros [Hne Hs].
  destruct (byte_eqb a c) eqn:E.
  - apply byte_eqb_true in E. congruence.
  - by rewrite IH.
Qed.

Lemma replace_first_split (c d : byte) (a b : gostring) :
  c ∉ a -> replace_first c d (a ++ c :: b) = a ++ d :: b.
Proof.
  induction a as [|x a IH]; simpl.
  - by rewrite byte_eqb_refl.
  - rewrite not_elem_of_cons. intros [Hne Ha].
    destruct (byte_eqb x c) eqn:E.
    + apply byte_eqb_true in E. congruence.
    + by rewrite IH.
Qed.

Lemma Index_byte_notin (c : byte) (s : gostring) :
  c ∉ s -> Strings.Index s [c] = -1.
Proof.
  induction s as [|a s IH]; simpl; [done|].
  rewrite not_elem_of_cons. intros [Hne Hs].
  rewrite andb_true_r. destruct (byte_eqb a c) eqn:E.
  - apply byte_eqb_true in E. congruence.
  - by rewrite IH.
Qed.

Lemma Index_byte_first (c : byte) (a b : gostring) :
  c ∉ a -> Strings.Index (a ++ c :: b) [c] = Z.of_nat (length a).
Proof.
  induction a as [|x a IH].
  - intros _. cbn [app Strings.Index Strings.HasPrefix]. by rewrite byte_eqb_refl.
  - rewrite not_elem_of_cons. intros [Hne Ha].
    cbn [app Strings.Index Strings.HasPrefix length].
    rewrite andb_true_r. destruct (byte_eqb x c) eqn:E.
    + apply byte_eqb_true in E. congruence.
    + rewrite IH by done.
      destruct (Z.ltb_spec (Z.of_nat (length a)) 0); lia.
Qed.

Lemma Count_byte_notin (c : byte) (s : gostring) :
  c ∉ s -> Strings.Count s [c] = 0%nat.
Proof.
  intros H. unfold Strings.Count. destruct s as [|a s]; [done|].
  cbn [length Strings.count_from]. by rewrite (Index_byte_notin _ _ H).
Qed.

Lemma Count_byte_first (c : byte) (a b : gostring) :
  c ∉ a -> exists n, Strings.Count (a ++ c :: b) [c] = S n.
Proof.
  intros H. unfold Strings.Count.
  destruct (length (a ++ c :: b)) as [|n] eqn:E.
  - rewrite length_app in E. simpl in E. lia.
  - cbn [Strings.count_from]. rewrite (Index_byte_first _ _ _ H).
    destruct (Z.ltb_spec (Z.of_nat (length a)) 0); [lia|]. eauto.
Qed.

(** [strings.Replace] with a count of one and distinct single bytes is the
    substitution of the first instance. *)
Lemma Replace_first_byte (c d : byte) (s : gostring) :
  c <> d -> Strings.Replace s [c] [d] 1 = replace_first c d s.
Proof.
  intros Hcd. unfold Strings.Replace.
  assert (string_eqb [c] [d] = false) as ->.
  { simpl. apply byte_eqb_false in Hcd. by rewrite Hcd. }
  cbn [orb Z.eqb].
  destruct (decide (c ∈ s)) as [Hin|Hnot].
  - apply list_elem_of_split_l in Hin as (a & b & -> & Ha).
    destruct (Count_byte_first c a b Ha) as [n ->].
    rewrite replace_first_split by done.
    replace (Z.of_nat (S n) =? 0) with false by (symmetry; apply Z.eqb_neq; lia).
    replace ((1 <? 0) || (Z.of_nat (S n) <? 1)) with false.
    2:{ symmetry. apply orb_false_iff. split; [done|]. apply Z.ltb_ge. lia. }
    change (Z.to_nat 1) with 1%nat.
    cbn [Strings.replace_loop]. rewrite (Index_byte_first _ _ _ Ha).
    rewrite Nat2Z.id, take_app_length.
    f_equal. simpl. f_equal.
    replace (a ++ c :: b) with ((a ++ [c]) ++ b) by by rewrite <- app_assoc.
    rewrite drop_app_length'; [done|]. rewrite length_app. simpl. lia.
  - rewrite (Count_byte_notin _ _ Hnot). cbn. by rewrite replace_first_notin.
Qed.

(** ** Decimal numerals *)

(** A decidable property of the numbers below a bound, by enumeration. *)
Lemma forall_below (k : nat) (P : N -> bool) :
  forallb P (N.of_nat <$> seq 0 k) = true ->
  forall n, (n < N.of_nat k)%N -> P n = true.
Proof.
  rewrite forallb_forall. intros H n Hn. apply H.
  apply list_elem_of_In, list_elem_of_fmap. exists (N.to_nat n).
  split; [lia|]. apply elem_of_seq. lia.
Qed.

Lemma digit_is_digit (n : N) : (n < 10)%N -> Net.is_digit (Net.digit n) = true.
Proof. by apply (forall_below 10 (fun n => Net.is_digit (Net.digit n))). Qed.

Lemma digit_value_digit (n : N) : (n < 10)%N -> digit_value (Net.digit n) = n.
Proof.
  intros H. apply N.eqb_eq.
  by apply (forall_below 10 (fun n => digit_value (Net.digit n) =? n)%N).
Qed.

Lemma digits_value_snoc (s : gostring) (c : byte) :
  digits_value (s ++ [c]) = (digits_value s * 10 + digit_value c)%N.
Proof. unfold digits_value. by rewrite foldl_app. Qed.

(** The loop of [uitoa] puts before the buffer the digits of the value. *)
Lemma uitoa_loop_digits (fuel : nat) :
  forall (val : N) (buf : gostring),
    (val < 10 ^ N.of_nat (S fuel))%N ->
    exists ds,
      Net.uitoa_loop fuel val buf = ds ++ buf
      /\ digits_value ds = val
      /\ forallb Net.is_digit ds = true
      /\ ds <> [].
Proof.
  induction fuel as [|fuel IH]; intros val buf Hval.
  - change (10 ^ N.of_nat 1)%N with 10%N in Hval.
    cbn [Net.uitoa_loop]. destruct (N.ltb_spec val 10) as [_|]; [|lia].
    exists [Net.digit val]. repeat split; [| |done].
    + unfold digits_value. simpl. by rewrite digit_value_digit.
    + simpl. by rewrite digit_is_digit.
  - cbn [Net.uitoa_loop]. destruct (N.ltb_spec val 10) as [Hlt|Hge].
    + exists [Net.digit val]. repeat split; [| |done].
      * unfold digits_value. simpl. by rewrite digit_value_digit.
      * simpl. by rewrite digit_is_digit.
    + assert (val mod 10 < 10)%N as Hmod by (apply N.mod_lt; lia).
      destruct (IH (val / 10)%N (Net.digit (val mod 10) :: buf)) as (ds & E & V & D & _).
      { apply N.Div0.div_lt_upper_bound.
        rewrite <- N.pow_succ_r'. by rewrite <- Nat2N.inj_succ. }
      exists (ds ++ [Net.digit (val mod 10)]). repeat split.
      * rewrite E. by rewrite <- app_assoc.
      * rewrite digits_value_snoc, V, digit_value_digit by done.
        pose proof (N.div_mod val 10). lia.
      * rewrite forallb_app, D. simpl. by rewrite digit_is_digit.
      * by destruct ds.
Qed.

(** [uitoa] writes the decimal numeral of every value below [10^20], which
    covers the 64-bit unsigned integers. *)
Lemma uitoa_decimal (val : N) :
  (val < 10 ^ 20)%N -> decimal_value (Net.uitoa val) = Some val.
Proof.
  intros H. unfold Net.uitoa. destruct (N.eqb_spec val 0) as [->|Hne]; [done|].
  destruct (uitoa_loop_digits 19 val [] H) as (ds & E & V & D & Hds).
  rewrite E, app_nil_r. unfold decimal_value. rewrite D.
  destruct ds; [done|]. simpl. by rewrite <- V.
Qed.

(** [%d] writes the decimal numeral of every 64-bit integer. *)
Lemma fmt_d_decimal (n : Z) :
  - 2 ^ 63 <= n < 2 ^ 63 -> read_decimal (fmt_d n) = Some n.
Proof.
  intros H. unfold fmt_d. destruct (Z.ltb_spec n 0) as [Hneg|Hpos].
  - change (str "-") with ["-"%char]. cbn [app read_decimal].
    rewrite byte_eqb_refl, uitoa_decimal by lia. simpl. f_equal. lia.
  - assert (decimal_value (Net.uitoa (Z.to_N n)) = Some (Z.to_N n)) as Hd
      by (apply uitoa_decimal; lia).
    unfold read_decimal.
    destruct (Net.uitoa (Z.to_N n)) as [|c s] eqn:E; [done|].
    destruct (byte_eqb c "-"%char) eqn:Ec.
    + apply byte_eqb_true in Ec. by subst c.
    + rewrite Hd. simpl. f_equal. lia.
Qed.

(** ** The encoder [defaultPath] *)

Lemma Version_4_or_6 (c : LibNet.IPNet) :
  fmt_d (LibNet.Version c) = str "4" \/ fmt_d (LibNet.Version c) = str "6".
Proof. unfold LibNet.Version. destruct (Net.To4 _); [by left|by right]. Qed.

Lemma defaultPath_set (key : Model.BlockKey) (ip : list byte) :
  Net.IPNet_IP (Model.CIDR key) = Some ip ->
  Model.defaultPath key =
  (str "/calico/ipam/v2/assignment/ipv" ++ fmt_d (LibNet.Version (Model.CIDR key))
       ++ str "/block/"
       ++ replace_first "/"%char "-"%char (LibNet.String (Model.CIDR key)), None).
Proof.
  intros H. unfold Model.defaultPath. rewrite H.
  change (str "/") with ["/"%char]. change (str "-") with ["-"%char].
  by rewrite Replace_first_byte.
Qed.

Lemma byte_eqb_sym (a b : byte) : byte_eqb a b = byte_eqb b a.
Proof.
  destruct (byte_eqb b a) eqn:E.
  - apply byte_eqb_true in E. by apply byte_eqb_true.
  - apply byte_eqb_false in E. apply byte_eqb_false. congruence.
Qed.

(** [To4] gives a 4-byte form exactly for the IPv4 addresses. *)
Lemma To4_is_ipv4 (p : list byte) :
  is_Some (Net.To4 (Some p)) <-> is_ipv4 p = true.
Proof.
  unfold Net.To4, is_ipv4. cbn [Net.elems default from_option id].
  change Net.IPv4len with 4%nat. change Net.IPv6len with 16%nat.
  destruct (length p =? 4)%nat; [by split; [|eexists]|]. cbn [orb].
  destruct (length p =? 16)%nat eqn:El;
    [|cbn [andb]; split; [by intros [? ?]|done]].
  apply Nat.eqb_eq in El.
  do 16 (destruct p as [|? p]; [done|]). destruct p; [|done]. clear El.
  cbn [andb take replicate app string_eqb Net.isZeros forallb Net.at_ nth].
  rewrite !(byte_eqb_sym Net.x00), !andb_true_r, <- !andb_assoc.
  match goal with |- context [if ?c then _ else _] => destruct c end;
    [by split; [|eexists]|split; [by intros [? ?]|done]].
Qed.

(** The version written in the path is the digit of the address family. *)
Lemma Version_digit (c : LibNet.IPNet) (ip : list byte) :
  Net.IPNet_IP c = Some ip ->
  fmt_d (LibNet.Version c) = version_digit ip.
Proof.
  intros Hip. unfold LibNet.Version, version_digit. rewrite Hip.
  pose proof (To4_is_ipv4 ip) as H.
  destruct (Net.To4 (Some ip)) as [x|]; destruct (is_ipv4 ip); try done.
  - assert (false = true) by (apply H; by eexists). done.
  - by destruct (proj2 H eq_refl).
Qed.

(** C2: for every block key whose CIDR is set, [defaultPath] returns, with no
    error, exactly the text [/calico/ipam/v2/assignment/ipv] followed by the
    digit of the address family of the CIDR ([4] for an IPv4 address, in 4
    bytes or in its 16-byte form, [6] for any other), by [/block/] and by
    the text of the CIDR in which the first [/], and nothing else, has
    become [-]; the key of [10.0.0.0/30] has the path
    [/calico/ipam/v2/assignment/ipv4/block/10.0.0.0-30] and the key of
    [fe80::/64] the path [/calico/ipam/v2/assignment/ipv6/block/fe80::-64]. *)
Theorem defaultPath_format :
  (forall (key : Model.BlockKey) (ip : list byte),
      Net.IPNet_IP (Model.CIDR key) = Some ip ->
      Model.defaultPath key =
      (str "/calico/ipam/v2/assignment/ipv" ++ version_digit ip
           ++ str "/block/"
           ++ replace_first "/"%char "-"%char (LibNet.String (Model.CIDR key)),
       None))
  /\ LibNet.String (Model.CIDR key_10_0_0_0_30) = str "10.0.0.0/30"
  /\ Model.defaultPath key_10_0_0_0_30 =
     (str "/calico/ipam/v2/assignment/ipv4/block/10.0.0.0-30", None)
  /\ Model.defaultPath key_fe80_64 =
     (str "/calico/ipam/v2/assignment/ipv6/block/fe80::-64", None).
Proof.
  split; [|split; [reflexivity|split; vm_compute; reflexivity]].
  intros key ip H. rewrite (defaultPath_set key ip H).
  by rewrite (Version_digit _ ip H).
Qed.

Lemma defaultPath_format_witness :
  Model.defaultPath key_fe80_64 =
  (str "/calico/ipam/v2/assignment/ipv"
       ++ version_digit
            (n2b <$> [0xfe; 0x80; 0; 0; 0; 0; 0; 0; 0; 0; 0; 0; 0; 0; 0; 0]%N)
       ++ str "/block/"
       ++ replace_first "/"%char "-"%char
                        (LibNet.String (Model.CIDR key_fe80_64)),
   None).
Proof.
  apply (proj1 defaultPath_format key_fe80_64). reflexivity.
Defined.

(** C6: [defaultPath] fails with [ErrorInsufficientIdentifiers] exactly when
    the CIDR of the key is unset (its [IP] is [nil]); it then returns the
    empty string for a path, and otherwise it returns no error. *)
Theorem defaultPath_fails_iff_unset (key : Model.BlockKey) :
  (snd (Model.defaultPath key) = Some ErrorInsufficientIdentifiers
   <-> Net.IPNet_IP (Model.CIDR key) = None)
  /\ (snd (Model.defaultPath key) = None
      <-> Net.IPNet_IP (Model.CIDR key) <> None)
  /\ (snd (Model.defaultPath key) <> None -> fst (Model.defaultPath key) = []).
Proof.
  unfold Model.defaultPath.
  destruct (Net.IPNet_IP (Model.CIDR key)) as [ip|]; simpl.
  - repeat split; done.
  - repeat split; done.
Qed.

(** C10: for every block key, [defaultDeletePath] returns the same path and
    the same error as [defaultPath]; with the CIDR unset both return
    [ErrorInsufficientIdentifiers] and the empty path. *)
Theorem defaultDeletePath_is_defaultPath (key : Model.BlockKey) :
  Model.defaultDeletePath key = Model.defaultPath key
  /\ (Net.IPNet_IP (Model.CIDR key) = None ->
      Model.defaultDeletePath key = ([], Some ErrorInsufficientIdentifiers)
      /\ Model.defaultPath key = ([], Some ErrorInsufficientIdentifiers)).
Proof.
  split.
  - reflexivity.
  - intros H. unfold Model.defaultDeletePath, Model.defaultPath.
    rewrite H. by split.
Qed.

(** ** The list scope [defaultPathRoot] *)

(** C7: [defaultPathRoot] is a total function of the options: it returns
    [/calico/ipam/v2/assignment/] when [IPVersion] is 0 and
    [/calico/ipam/v2/assignment/ipvN/] for any other [IPVersion] N, where N
    is written in decimal (for a 64-bit integer the numeral reads back as
    N); for the versions 4 and 6 these are [.../ipv4/] and [.../ipv6/]. *)
Theorem defaultPathRoot_format (options : Model.BlockListOptions) :
  let N := Model.IPVersion options in
  (N = 0 -> Model.defaultPathRoot options = str "/calico/ipam/v2/assignment/")
  /\ (N <> 0 ->
      Model.defaultPathRoot options =
      str "/calico/ipam/v2/assignment/ipv" ++ fmt_d N ++ str "/")
  /\ (- 2 ^ 63 <= N < 2 ^ 63 -> read_decimal (fmt_d N) = Some N)
  /\ Model.defaultPathRoot {| Model.IPVersion := 4 |} =
     str "/calico/ipam/v2/assignment/ipv4/"
  /\ Model.defaultPathRoot {| Model.IPVersion := 6 |} =
     str "/calico/ipam/v2/assignment/ipv6/".
Proof.
  intros N. unfold Model.defaultPathRoot. fold N.
  repeat split.
  - intros ->. reflexivity.
  - intros HN. destruct (Z.eqb_spec N 0) as [|_]; [done|]. reflexivity.
  - apply fmt_d_decimal.
Qed.

(** ** Runes *)

Lemma b2n_inj (a b : byte) : b2n a = b2n b -> a = b.
Proof.
  unfold b2n. intros H.
  rewrite <- (ascii_N_embedding a), <- (ascii_N_embedding b). by rewrite H.
Qed.

Lemma b2n_bound (a : byte) : (b2n a < 256)%N.
Proof. apply N_ascii_bounded. Qed.

Lemma lor_ge_pow2 (k a b : N) : (2 ^ k <= a)%N -> (2 ^ k <= N.lor a b)%N.
Proof.
  intros H.
  assert (0 < a)%N as Ha.
  { pose proof (N.pow_nonzero 2 k). lia. }
  assert (0 < N.lor a b)%N as Hab.
  { destruct (N.eq_dec (N.lor a b) 0%N) as [E|]; [|lia].
    apply N.lor_eq_0_l in E. lia. }
  apply N.log2_le_pow2; [done|]. apply N.log2_le_pow2 in H; [|done].
  rewrite N.log2_lor. lia.
Qed.

Lemma in_range_spec (lo hi : N) (b : byte) :
  Utf8.in_range lo hi b = true <-> (lo <= b2n b <= hi)%N.
Proof.
  unfold Utf8.in_range. rewrite andb_true_iff, !N.leb_le. done.
Qed.

Lemma land_low (k a : N) : N.land a (N.ones k) = (a mod 2 ^ k)%N.
Proof. apply N.land_ones. Qed.

Lemma low6_mod (b : byte) : Utf8.low6 b = (b2n b mod 64)%N.
Proof. apply (land_low 6). Qed.

(** The first rune of a non-empty text: it takes between one byte and the
    whole text; it is either an ASCII byte read as itself or a rune from
    [0x80] up whose bytes are all from [0x80] up. *)
Lemma DecodeRune_cases (b0 : byte) (s1 : gostring) :
  exists r w,
    Utf8.DecodeRuneInString (b0 :: s1) = (r, w)
    /\ (1 <= w <= S (length s1))%nat
    /\ ((r = b2n b0 /\ (r < 0x80)%N /\ w = 1%nat)
        \/ ((0x80 <= r)%N
            /\ Forall (fun b => (0x80 <= b2n b)%N) (take w (b0 :: s1)))).
Proof.
  unfold Utf8.DecodeRuneInString.
  assert (forall P : Prop, P -> (0x80 <= b2n b0)%N ->
            (1 <= 1 <= S (length s1))%nat
            /\ (P \/ ((0x80 <= Utf8.RuneError)%N
                /\ Forall (fun b => (0x80 <= b2n b)%N) (take 1 (b0 :: s1)))))
    as Hbad.
  { intros P _ Hb. split; [lia|]. right. split; [done|].
    simpl. rewrite take_0. by constructor. }
  destruct (N.ltb_spec (b2n b0) 0x80) as [H1|H1].
  { eexists _, _. split; [done|]. split; [lia|]. by left. }
  assert (forall P : Prop,
            (1 <= 1 <= S (length s1))%nat
            /\ (P \/ ((0x80 <= Utf8.RuneError)%N
                /\ Forall (fun b => (0x80 <= b2n b)%N) (take 1 (b0 :: s1)))))
    as Herr.
  { intros P. split; [lia|]. right. split; [done|].
    simpl. rewrite take_0. by constructor. }
  clear Hbad.
  destruct (N.ltb_spec (b2n b0) 0xC2) as [H2|H2].
  { eexists _, _. split; [done|]. apply Herr. }
  destruct (N.ltb_spec (b2n b0) 0xE0) as [H3|H3].
  { destruct s1 as [|b1 s2]; [eexists _, _; split; [done|apply Herr]|].
    destruct (Utf8.cont b1) eqn:C1; [|eexists _, _; split; [done|apply Herr]].
    apply in_range_spec in C1.
    eexists _, _. split; [done|]. split; [simpl; lia|]. right. split.
    - apply (lor_ge_pow2 7). rewrite N.shiftl_mul_pow2.
      rewrite (land_low 5). change (2 ^ 7)%N with 128%N.
      change (2 ^ 6)%N with 64%N. change (2 ^ 5)%N with 32%N. mlia.
    - simpl. rewrite take_0. repeat constructor; lia. }
  destruct (N.ltb_spec (b2n b0) 0xF0) as [H4|H4].
  { destruct s1 as [|b1 [|b2 s3]]; try (eexists _, _; split; [done|apply Herr]).
    match goal with |- context [if ?c then _ else _] => destruct c eqn:C end;
      [|eexists _, _; split; [done|apply Herr]].
    apply andb_true_iff in C as [C1 C2].
    apply in_range_spec in C1. apply in_range_spec in C2.
    eexists _, _. split; [done|]. split; [simpl; lia|]. right. split.
    - rewrite N.lor_assoc. apply (lor_ge_pow2 7). rewrite !N.shiftl_mul_pow2, low6_mod.
      rewrite (land_low 4).
      change (2 ^ 7)%N with 128%N. change (2 ^ 12)%N with 4096%N.
      change (2 ^ 6)%N with 64%N. change (2 ^ 4)%N with 16%N.
      destruct (N.eqb_spec (b2n b0) 0xE0) as [E|E].
      + rewrite E. change (224 mod 16 * 4096)%N with 0%N. rewrite N.lor_0_l.
        destruct (N.eqb_spec (b2n b0) 0xED); mlia.
      + apply (lor_ge_pow2 7). change (2 ^ 7)%N with 128%N. mlia.
    - simpl. rewrite take_0.
      destruct (N.eqb_spec (b2n b0) 0xE0), (N.eqb_spec (b2n b0) 0xED);
        repeat constructor; lia. }
  destruct (N.ltb_spec (b2n b0) 0xF5) as [H5|H5].
  { destruct s1 as [|b1 [|b2 [|b3 s4]]];
      try (eexists _, _; split; [done|apply Herr]).
    match goal with |- context [if ?c then _ else _] => destruct c eqn:C end;
      [|eexists _, _; split; [done|apply Herr]].
    apply andb_true_iff in C as [C C3]. apply andb_true_iff in C as [C1 C2].
    apply in_range_spec in C1. apply in_range_spec in C2.
    apply in_range_spec in C3.
    eexists _, _. split; [done|]. split; [simpl; lia|]. right. split.
    - rewrite N.lor_assoc. apply (lor_ge_pow2 7). rewrite !N.shiftl_mul_pow2, low6_mod.
      rewrite (land_low 3).
      change (2 ^ 7)%N with 128%N. change (2 ^ 18)%N with 262144%N.
      change (2 ^ 12)%N with 4096%N. change (2 ^ 3)%N with 8%N.
      destruct (N.eqb_spec (b2n b0) 0xF0) as [E|E].
      + rewrite E. change (240 mod 8 * 262144)%N with 0%N. rewrite N.lor_0_l.
        destruct (N.eqb_spec (b2n b0) 0xF4); mlia.
      + apply (lor_ge_pow2 7). change (2 ^ 7)%N with 128%N. mlia.
    - simpl. rewrite take_0.
      destruct (N.eqb_spec (b2n b0) 0xF0), (N.eqb_spec (b2n b0) 0xF4);
        repeat constructor; lia. }
  eexists _, _. split; [done|]. apply Herr.
Qed.

(** ** The pattern of [matchBlock] *)

Lemma advance_advance (a b : nat) (t : Regexp.thread) :
  Regexp.advance a (Regexp.advance b t) = Regexp.advance (b + a) t.
Proof.
  unfold Regexp.advance. simpl. f_equal; [lia|]. by rewrite drop_drop.
Qed.

Lemma exec_EndText (t : Regexp.thread) :
  Regexp.exec Regexp.EndText t = if decide (Regexp.rest t = []) then [t] else [].
Proof. simpl. by destruct (Regexp.rest t). Qed.

(** [[^c]+] followed by the end of the text: the match is the whole of the
    remaining text, when it is not empty and has no [c]. *)
Lemma plus_notchar_to_end (c : byte) (f : Regexp.thread -> Regexp.thread) :
  (b2n c < 0x80)%N ->
  (forall x, Regexp.rest (f x) = Regexp.rest x) ->
  forall (n : nat) (t : Regexp.thread),
    (length (Regexp.rest t) < n)%nat ->
    flat_map (Regexp.exec Regexp.EndText)
             (map f (Regexp.plus_loop (Regexp.exec (Regexp.NotChar c)) n t)) =
    if decide (Regexp.rest t <> [] /\ c ∉ Regexp.rest t)
    then [f {| Regexp.pos := Regexp.pos t + length (Regexp.rest t);
               Regexp.rest := [];
               Regexp.cap := Regexp.cap t |}]
    else [].
Proof.
  intros Hc Hf. induction n as [|n IH]; intros t Hn; [lia|].
  cbn [Regexp.plus_loop Regexp.exec]. unfold Regexp.step_rune.
  destruct t as [p s cp]. cbn [Regexp.rest Regexp.pos Regexp.cap] in *.
  destruct s as [|b0 s1].
  { cbn [flat_map map]. rewrite decide_False; [done|]. naive_solver. }
  destruct (DecodeRune_cases b0 s1) as (r & w & E & Hw & Hr). rewrite E.
  cbn [fst snd].
  destruct (N.eqb_spec r (b2n c)) as [->|Hne]; cbn [negb].
  { cbn [flat_map map]. rewrite decide_False; [done|]. intros [_ Hnot].
    destruct Hr as [(Hr & _ & _)|(Hge & _)]; [|lia].
    apply b2n_inj in Hr. subst. apply Hnot. by left. }
  assert (c ∉ take w (b0 :: s1)) as Htake.
  { destruct Hr as [(-> & _ & ->)|(_ & Hall)].
    - simpl. rewrite take_0. intros [->|H]%elem_of_cons; [done|].
      by apply elem_of_nil in H.
    - intros Hin. rewrite Forall_forall in Hall. apply Hall in Hin. lia. }
  cbn [flat_map]. rewrite app_nil_r. unfold Regexp.advance at 1.
  cbn [Regexp.rest Regexp.pos Regexp.cap].
  replace (p <? p + w)%nat with true by (symmetry; apply Nat.ltb_lt; lia).
  rewrite map_app, flat_map_app. rewrite IH.
  2:{ unfold Regexp.advance. cbn [Regexp.rest]. rewrite length_drop.
      simpl in *. lia. }
  unfold Regexp.advance. cbn [Regexp.rest Regexp.pos Regexp.cap map flat_map].
  rewrite Hf. cbn [Regexp.rest].
  assert (c ∉ b0 :: s1 <-> c ∉ drop w (b0 :: s1)) as Hiff.
  { rewrite <- (take_drop w (b0 :: s1)) at 1. rewrite not_elem_of_app.
    naive_solver. }
  assert (length (drop w (b0 :: s1)) = (S (length s1) - w)%nat) as Hlen
    by by rewrite length_drop.
  destruct (drop w (b0 :: s1)) as [|x xs] eqn:Hd.
  - rewrite decide_False by naive_solver.
    rewrite decide_True.
    2:{ split; [done|]. apply Hiff. apply not_elem_of_nil. }
    cbn [app]. do 3 f_equal. simpl in *. lia.
  - rewrite app_nil_r.
    destruct (decide (c ∉ b0 :: s1)) as [Hno|Hyes].
    + rewrite decide_True by (split; [done|by apply Hiff]).
      rewrite decide_True by done. do 3 f_equal. simpl in *. lia.
    + rewrite decide_False by (intros [_ H]; apply Hyes, Hiff, H).
      rewrite decide_False by (intros [_ H]; by apply Hyes). done.
Qed.

(** The executable reading agrees with [block_path]. *)
Lemma block_tail_spec (s seg : gostring) :
  block_tail s = Some seg <->
  exists v,
    s = block_prefix ++ v ++ block_infix ++ seg
    /\ one_char_not_newline v (block_infix ++ seg)
    /\ seg <> [] /\ "/"%char ∉ seg.
Proof.
  unfold block_tail, one_char_not_newline. split.
  - destruct (Strings.HasPrefix s block_prefix) eqn:Hp; [|done].
    apply HasPrefix_inv in Hp.
    destruct (drop (length block_prefix) s) as [|b0 s1] eqn:Hd; [done|].
    destruct (DecodeRune_cases b0 s1) as (r & w & E & Hw & _). rewrite E.
    cbn [fst snd].
    destruct (N.eqb_spec r 10) as [|Hr]; [done|]. cbn [negb].
    destruct (Strings.HasPrefix (drop w (b0 :: s1)) block_infix) eqn:Hi; [|done].
    apply HasPrefix_inv in Hi.
    remember (drop (length block_infix) (drop w (b0 :: s1))) as s3 eqn:Es3.
    case_bool_decide as Hseg; [|done]. intros [= <-]. clear Es3.
    exists (take w (b0 :: s1)).
    assert (take w (b0 :: s1) ++ block_infix ++ s3 = b0 :: s1) as Es.
    { rewrite <- Hi. apply take_drop. }
    rewrite Es, E. cbn [fst snd]. rewrite length_take. simpl in Hw |- *.
    repeat split; try tauto; try lia; try congruence.
    destruct w; [lia|done].
  - intros (v & -> & (Hv & Hw & Hr) & Hne & Hno).
    rewrite HasPrefix_app, drop_app_length.
    destruct (v ++ block_infix ++ seg) as [|b0 s1] eqn:Ev.
    { by destruct v. }
    destruct (Utf8.DecodeRuneInString (b0 :: s1)) as [r w].
    cbn [fst snd] in *. subst w.
    destruct (N.eqb_spec r 10) as [|_]; [done|]. cbn [negb].
    rewrite <- Ev, drop_app_length, HasPrefix_app, drop_app_length.
    by rewrite bool_decide_eq_true_2.
Qed.

Lemma block_tail_slash (s seg : gostring) :
  block_tail s = Some seg -> block_tail ("/"%char :: s) = None.
Proof.
  unfold block_tail at 1. destruct (Strings.HasPrefix s block_prefix) eqn:Hp; [|done].
  apply HasPrefix_inv in Hp. intros _. rewrite Hp. reflexivity.
Qed.

Lemma block_segment_spec (path seg : gostring) :
  block_segment path = Some seg <-> block_path path seg.
Proof.
  unfold block_segment, block_path. split.
  - destruct path as [|c path']; [done|].
    destruct (byte_eqb c "/"%char) eqn:Hc.
    + apply byte_eqb_true in Hc. subst c.
      destruct (block_tail path') as [seg'|] eqn:Ht.
      * intros [= ->]. apply block_tail_spec in Ht as (v & -> & H).
        exists (str "/"), v. split; [done|]. split; [by right|done].
      * intros (v & E & H)%block_tail_spec. exists [], v.
        split; [done|]. split; [by left|done].
    + intros (v & E & H)%block_tail_spec. exists [], v.
      split; [done|]. split; [by left|done].
  - intros (lead & v & -> & [->| ->] & H).
    + assert (block_tail (block_prefix ++ v ++ block_infix ++ seg) = Some seg)
        as Ht by (apply block_tail_spec; eauto).
      cbn [app]. change block_prefix with ("/"%char :: str "calico/ipam/v2/assignment/ipv") in *.
      cbn [app]. rewrite byte_eqb_refl.
      destruct (block_tail (str "calico/ipam/v2/assignment/ipv" ++ _)) eqn:Ht'; [|done].
      unfold block_tail in Ht'. by cbn in Ht'.
    + assert (block_tail (block_prefix ++ v ++ block_infix ++ seg) = Some seg)
        as Ht by (apply block_tail_spec; eauto).
      change (str "/") with ["/"%char]. cbn [app]. by rewrite byte_eqb_refl, Ht.
Qed.

Lemma exec_Seq (r1 r2 : Regexp.regex) (t : Regexp.thread) :
  Regexp.exec (Regexp.Seq r1 r2) t
  = flat_map (Regexp.exec r2) (Regexp.exec r1 t).
Proof. reflexivity. Qed.

Lemma exec_Literal (s : gostring) (t : Regexp.thread) :
  Regexp.exec (Regexp.Literal s) t
  = if Strings.HasPrefix (Regexp.rest t) s
    then [Regexp.advance (length s) t] else [].
Proof. reflexivity. Qed.

Lemma exec_AnyCharNotNL (b0 : byte) (s1 : gostring) (p : nat)
      (cp : list (option gostring)) :
  Regexp.exec Regexp.AnyCharNotNL (Regexp.mkThread p (b0 :: s1) cp)
  = let rw := Utf8.DecodeRuneInString (b0 :: s1) in
    if negb (fst rw =? 10)%N
    then [Regexp.mkThread (p + snd rw) (drop (snd rw) (b0 :: s1)) cp] else [].
Proof. reflexivity. Qed.

Lemma exec_Capture_Plus (i : nat) (r : Regexp.regex) (t : Regexp.thread) :
  Regexp.exec (Regexp.Capture i (Regexp.Plus r)) t
  = map (fun t1 =>
           Regexp.set_cap i
             (take (Regexp.pos t1 - Regexp.pos t) (Regexp.rest t)) t1)
        (Regexp.plus_loop (Regexp.exec r) (S (length (Regexp.rest t))) t).
Proof. reflexivity. Qed.

Lemma flat_map_singleton {A B : Type} (f : A -> list B) (x : A) :
  flat_map f [x] = f x.
Proof. simpl. apply app_nil_r. Qed.

(** The threads of the pattern after its optional leading slash. *)
Lemma exec_block_body (t : Regexp.thread) :
  Regexp.exec
    (Regexp.Seq (Regexp.Literal (str "/calico/ipam/v2/assignment/ipv"))
    (Regexp.Seq Regexp.AnyCharNotNL
    (Regexp.Seq (Regexp.Literal (str "/block/"))
    (Regexp.Seq (Regexp.Capture 1 (Regexp.Plus (Regexp.NotChar "/"%char)))
                Regexp.EndText)))) t =
  match block_tail (Regexp.rest t) with
  | Some seg =>
    [ {| Regexp.pos := Regexp.pos t + length (Regexp.rest t);
         Regexp.rest := [];
         Regexp.cap := <[1%nat := Some seg]> (Regexp.cap t) |} ]
  | None => []
  end.
Proof.
  destruct t as [p s cp]. unfold block_tail. cbn [Regexp.rest Regexp.pos Regexp.cap].
  fold block_prefix block_infix.
  rewrite exec_Seq, exec_Literal. cbn [Regexp.rest].
  destruct (Strings.HasPrefix s block_prefix) eqn:Hp; [|done].
  apply HasPrefix_inv in Hp.
  rewrite flat_map_singleton. unfold Regexp.advance.
  cbn [Regexp.rest Regexp.pos Regexp.cap].
  destruct (drop (length block_prefix) s) as [|b0 s1] eqn:Hd; [done|].
  rewrite exec_Seq, exec_AnyCharNotNL.
  destruct (DecodeRune_cases b0 s1) as (r & w & E & Hw & _). rewrite E.
  cbn [fst snd].
  destruct (N.eqb_spec r 10) as [|Hr]; [done|]. cbn [negb].
  rewrite flat_map_singleton, exec_Seq, exec_Literal. cbn [Regexp.rest].
  destruct (Strings.HasPrefix (drop w (b0 :: s1)) block_infix) eqn:Hi; [|done].
  apply HasPrefix_inv in Hi.
  rewrite flat_map_singleton. unfold Regexp.advance.
  cbn [Regexp.rest Regexp.pos Regexp.cap].
  remember (drop (length block_infix) (drop w (b0 :: s1))) as s3 eqn:Es3.
  rewrite exec_Seq, exec_Capture_Plus.
  rewrite (plus_notchar_to_end "/"%char); [|done|done|cbn [Regexp.rest]; lia].
  cbn [Regexp.rest Regexp.pos Regexp.cap].
  assert (length s = (length block_prefix + w + length block_infix + length s3)%nat)
    as Hlen.
  { rewrite Hp, length_app. rewrite <- (take_drop w (b0 :: s1)) at 1.
    rewrite Hi, !length_app, length_take. simpl in Hw |- *. lia. }
  case_bool_decide as Hseg.
  - rewrite decide_True by done. unfold Regexp.set_cap.
    cbn [Regexp.rest Regexp.pos Regexp.cap]. do 2 f_equal; [lia|].
    do 2 f_equal. rewrite take_ge; [done|lia].
  - by rewrite decide_False.
Qed.

(** The threads of the whole pattern at the beginning of a path. *)
Lemma exec_matchBlock (path : gostring) (cp : list (option gostring)) :
  Regexp.exec (Regexp.prog Model.matchBlock)
              {| Regexp.pos := 0; Regexp.rest := path; Regexp.cap := cp |} =
  match block_segment path with
  | Some seg =>
    [ {| Regexp.pos := length path;
         Regexp.rest := [];
         Regexp.cap := <[1%nat := Some seg]> cp |} ]
  | None => []
  end.
Proof.
  unfold Model.matchBlock. cbn [Regexp.prog].
  rewrite exec_Seq. change (Regexp.exec Regexp.BeginText _) with
    [ {| Regexp.pos := 0; Regexp.rest := path; Regexp.cap := cp |} ].
  rewrite flat_map_singleton, exec_Seq.
  change (Regexp.exec (Regexp.Quest ?r) ?t) with (Regexp.exec r t ++ [t]).
  rewrite flat_map_app, flat_map_singleton, exec_Literal, !exec_block_body.
  cbn [Regexp.rest Regexp.pos Regexp.cap].
  unfold block_segment. destruct path as [|c path'].
  { done. }
  change (str "/") with ["/"%char].
  cbn [Strings.HasPrefix]. rewrite andb_true_r.
  destruct (byte_eqb c "/"%char) eqn:Hc.
  - apply byte_eqb_true in Hc. subst c.
    rewrite flat_map_singleton, exec_block_body.
    unfold Regexp.advance. cbn [Regexp.rest Regexp.pos Regexp.cap length drop].
    rewrite drop_0.
    destruct (block_tail path') as [seg|] eqn:Ht.
    + rewrite (block_tail_slash _ _ Ht). cbn [app length]. do 2 f_equal.
    + done.
  - done.
Qed.

(** ** [FindAllStringSubmatch] on the pattern of [matchBlock] *)

Lemma match_at_matchBlock_start (path : gostring) :
  Regexp.match_at Model.matchBlock path 0 =
  match block_segment path with
  | Some seg => Some (length path, [path; seg])
  | None => None
  end.
Proof.
  unfold Regexp.match_at, Regexp.start_thread.
  rewrite drop_0, exec_matchBlock.
  destruct (block_segment path) as [seg|]; [|done].
  cbn [Regexp.pos Regexp.cap Model.matchBlock Regexp.NumSubexp replicate].
  rewrite Nat.sub_0_r, take_ge by lia. reflexivity.
Qed.

(** The pattern begins with [^]: no match begins after the first byte. *)
Lemma match_at_matchBlock_later (path : gostring) (p : nat) :
  (0 < p)%nat -> Regexp.match_at Model.matchBlock path p = None.
Proof.
  intros Hp. unfold Regexp.match_at, Regexp.start_thread, Model.matchBlock.
  cbn [Regexp.prog]. rewrite exec_Seq.
  cbn [Regexp.exec Regexp.pos]. destruct p; [lia|]. reflexivity.
Qed.

Lemma doExecute_matchBlock_later (path : gostring) (fuel p : nat) :
  (0 < p)%nat -> Regexp.doExecute fuel Model.matchBlock path p = None.
Proof.
  revert p. induction fuel as [|fuel IH]; intros p Hp; cbn [Regexp.doExecute];
    rewrite match_at_matchBlock_later by done; [done|].
  destruct (p <? length path)%nat; [|done]. apply IH. lia.
Qed.

Lemma doExecute_matchBlock_start (path : gostring) (fuel : nat) :
  Regexp.doExecute fuel Model.matchBlock path 0 =
  match block_segment path with
  | Some seg => Some (0%nat, length path, [path; seg])
  | None => None
  end.
Proof.
  destruct fuel as [|fuel]; cbn [Regexp.doExecute];
    rewrite match_at_matchBlock_start;
    destruct (block_segment path) as [seg|] eqn:Hs; try done.
  destruct (0 <? length path)%nat eqn:Hl; [|done].
  apply doExecute_matchBlock_later.
  destruct path as [|b0 s1]; [done|].
  destruct (DecodeRune_cases b0 s1) as (r & w & E & Hw & _).
  rewrite drop_0, E. simpl. lia.
Qed.

Lemma block_segment_nonempty (path seg : gostring) :
  block_segment path = Some seg -> (0 < length path)%nat.
Proof. destruct path; [done|simpl; lia]. Qed.

(** The matches of the pattern in a path: one, the whole path with its
    segment, for a block path, and none for any other. *)
Lemma FindAllStringSubmatch_matchBlock (path : gostring) :
  Regexp.FindAllStringSubmatch Model.matchBlock path (-1) =
  match block_segment path with
  | Some seg => [[path; seg]]
  | None => []
  end.
Proof.
  unfold Regexp.FindAllStringSubmatch. cbn [Z.ltb Z.compare].
  replace (length path + 2)%nat with (S (S (length path))) by lia.
  cbn [Regexp.allMatches].
  replace (0 <? Z.of_nat (length path) + 1) with true
    by (symmetry; apply Z.ltb_lt; lia).
  cbn [andb Nat.leb]. rewrite doExecute_matchBlock_start.
  destruct (block_segment path) as [seg|] eqn:Hs; [|done].
  apply block_segment_nonempty in Hs.
  replace (length path =? 0)%nat with false by (symmetry; apply Nat.eqb_neq; lia).
  cbn [andb negb]. f_equal.
  replace (0 <? Z.of_nat (length path) + 1 - 1) with true
    by (symmetry; apply Z.ltb_lt; lia).
  rewrite Nat.leb_refl. cbn [andb].
  by rewrite doExecute_matchBlock_later.
Qed.

(** ** The decoder [KeyFromDefaultPath] *)

(** The decoder, case by case: a path that is not a block path gives [nil];
    for a block path the first [-] of the segment becomes [/] and the text
    is parsed, a failure ending in the dereference of a [nil] pointer. *)
Lemma KeyFromDefaultPath_cases (options : Model.BlockListOptions)
      (path : gostring) :
  Model.KeyFromDefaultPath options path =
  match block_segment path with
  | None => Returned None
  | Some seg =>
    match Net.ParseCIDR (replace_first "-"%char "/"%char seg) with
    | None => Panicked
    | Some (_, cidr) => Returned (Some {| Model.CIDR := cidr |})
    end
  end.
Proof.
  unfold Model.KeyFromDefaultPath. rewrite FindAllStringSubmatch_matchBlock.
  destruct (block_segment path) as [seg|]; [|done].
  cbn [length Nat.eqb negb lookup list_lookup mbind option_bind].
  change (str "-") with ["-"%char]. change (str "/") with ["/"%char].
  rewrite Replace_first_byte by done.
  unfold LibNet.ParseCIDR.
  by destruct (Net.ParseCIDR _) as [[ip cidr]|].
Qed.

(** C3: for every path that does not match the pattern of block keys,
    [KeyFromDefaultPath] returns the [nil] key: it returns, and it does not
    panic. *)
Theorem KeyFromDefaultPath_not_block_path
        (options : Model.BlockListOptions) (path : gostring) :
  ~ is_block_path path ->
  Model.KeyFromDefaultPath options path = Returned None.
Proof.
  intros Hno. rewrite KeyFromDefaultPath_cases.
  destruct (block_segment path) as [seg|] eqn:Hs; [|done].
  destruct Hno. exists seg. by apply block_segment_spec.
Qed.

Lemma KeyFromDefaultPath_not_block_path_witness :
  Model.KeyFromDefaultPath any_version
    (str "/calico/ipam/v2/assignment/ipv4/block/10.0.0.0-30/extra")
  = Returned None.
Proof.
  apply KeyFromDefaultPath_not_block_path.
  intros [seg H]. apply block_segment_spec in H.
  vm_compute in H. discriminate H.
Defined.

(** C4, as the code has it: for every path that matches the pattern and
    whose segment, with its first dash turned back into a slash, does not
    parse as a CIDR, [KeyFromDefaultPath] panics: the error of [ParseCIDR] is
    dropped and the [nil] pointer it returned is dereferenced. No decode
    failure is reported. *)
Theorem KeyFromDefaultPath_parse_failure_panics
        (options : Model.BlockListOptions) (path seg : gostring) :
  block_path path seg ->
  Net.ParseCIDR (replace_first "-"%char "/"%char seg) = None ->
  Model.KeyFromDefaultPath options path = Panicked.
Proof.
  intros Hp Hparse. rewrite KeyFromDefaultPath_cases.
  apply block_segment_spec in Hp. by rewrite Hp, Hparse.
Qed.

Lemma KeyFromDefaultPath_parse_failure_panics_witness :
  Model.KeyFromDefaultPath any_version
    (str "/calico/ipam/v2/assignment/ipv4/block/foo") = Panicked.
Proof.
  apply (KeyFromDefaultPath_parse_failure_panics any_version _ (str "foo")).
  - apply block_segment_spec. vm_compute. reflexivity.
  - vm_compute. reflexivity.
Defined.

(** A rune is read from the first four bytes of a text. *)
Lemma DecodeRune_app (a b : gostring) :
  (4 <= length a)%nat ->
  Utf8.DecodeRuneInString (a ++ b) = Utf8.DecodeRuneInString a.
Proof.
  destruct a as [|b0 [|b1 [|b2 [|b3 a]]]]; simpl; try lia. reflexivity.
Qed.

(** Nothing may follow the segment of a block path. *)
Lemma block_path_no_trailing (path seg extra : gostring) :
  block_path path seg -> ~ is_block_path (path ++ "/"%char :: extra).
Proof.
  intros (lead & v & -> & Hlead & (Hv & Hw & _) & Hne & Hno)
         [seg' (lead' & v' & E & Hlead' & (Hv' & Hw' & _) & Hne' & Hno')].
  apply Hno'. clear Hno'.
  assert (v ++ block_infix ++ seg ++ "/"%char :: extra
          = v' ++ block_infix ++ seg') as E'.
  { rewrite <- !app_assoc in E. change (str "/") with ["/"%char] in *.
    destruct Hlead as [->| ->], Hlead' as [->| ->]; cbn [app] in E.
    - by apply app_inv_head in E.
    - change block_prefix
        with ("/"%char :: "c"%char :: str "alico/ipam/v2/assignment/ipv") in E.
      cbn [app] in E. by injection E.
    - change block_prefix
        with ("/"%char :: "c"%char :: str "alico/ipam/v2/assignment/ipv") in E.
      cbn [app] in E. by injection E.
    - injection E as E. exact E. }
  assert (length v = length v') as Hlen.
  { rewrite <- Hw, <- Hw', <- E'.
    replace (v ++ block_infix ++ seg ++ "/"%char :: extra)
      with ((v ++ block_infix ++ seg) ++ "/"%char :: extra)
      by by rewrite <- !app_assoc.
    rewrite (DecodeRune_app (v ++ block_infix ++ seg)); [done|].
    rewrite !length_app. change (length block_infix) with 7%nat. lia. }
  apply app_inj_1 in E' as [_ E']; [|done].
  apply app_inv_head in E'. rewrite <- E'.
  apply elem_of_app. right. by left.
Qed.

(** C5, amended: [KeyFromDefaultPath] returns the [nil] key exactly for the
    paths that are not of the form: an optional extra [/], the text
    [/calico/ipam/v2/assignment/ipv], any one character other than a
    newline, the text [/block/], and a non-empty segment without [/] that
    ends the path. Nothing may follow the segment, and the paths with [ipv4]
    or [ipv6] and a dash-joined CIDR are of this form. *)
Theorem KeyFromDefaultPath_nil_iff
        (options : Model.BlockListOptions) (path : gostring) :
  (Model.KeyFromDefaultPath options path = Returned None
   <-> ~ is_block_path path)
  /\ (forall seg extra,
         block_path path seg -> ~ is_block_path (path ++ "/"%char :: extra))
  /\ block_path (str "/calico/ipam/v2/assignment/ipv4/block/10.0.0.0-30")
                (str "10.0.0.0-30")
  /\ block_path (str "/calico/ipam/v2/assignment/ipv6/block/fe80::-64")
                (str "fe80::-64").
Proof.
  split; [|split; [|split]].
  - split.
    + intros H [seg Hseg]. rewrite KeyFromDefaultPath_cases in H.
      apply block_segment_spec in Hseg. rewrite Hseg in H.
      by destruct (Net.ParseCIDR _) as [[? ?]|].
    + intros Hno. rewrite KeyFromDefaultPath_cases.
      destruct (block_segment path) as [seg|] eqn:Hs; [|done].
      destruct Hno. exists seg. by apply block_segment_spec.
  - intros seg extra. apply block_path_no_trailing.
  - apply block_segment_spec. vm_compute. reflexivity.
  - apply block_segment_spec. vm_compute. reflexivity.
Qed.

(** The claim C5 as the spec has it fails: a path with an extra leading
    slash and a version segment [ipvX] is decoded as a block key. *)
Lemma KeyFromDefaultPath_accepts_loose_syntax :
  Model.KeyFromDefaultPath any_version
    (str "//calico/ipam/v2/assignment/ipvX/block/10.0.0.0-30")
  = Returned (Some key_10_0_0_0_30).
Proof. vm_compute. reflexivity. Qed.

(** ** The text of a CIDR has one slash and no dash *)

Lemma plain_digit (n : N) : (n < 10)%N -> plain (Net.digit n).
Proof.
  intros H.
  pose proof (forall_below 10
    (fun n => negb (byte_eqb (Net.digit n) "/"%char)
              && negb (byte_eqb (Net.digit n) "-"%char)) eq_refl n H) as Hn.
  apply andb_true_iff in Hn as [H1 H2].
  apply negb_true_iff, byte_eqb_false in H1, H2. by split.
Qed.

Lemma plain_uitoa_loop (fuel : nat) :
  forall (val : N) (buf : gostring),
    Forall plain buf -> Forall plain (Net.uitoa_loop fuel val buf).
Proof.
  induction fuel as [|fuel IH]; intros val buf Hbuf; cbn [Net.uitoa_loop];
    destruct (N.ltb_spec val 10) as [Hlt|Hge].
  - constructor; [by apply plain_digit|done].
  - done.
  - constructor; [by apply plain_digit|done].
  - apply IH. constructor; [|done]. apply plain_digit. by apply N.mod_lt.
Qed.

Lemma plain_uitoa (val : N) : Forall plain (Net.uitoa val).
Proof.
  unfold Net.uitoa. destruct (val =? 0)%N.
  - repeat constructor; done.
  - by apply plain_uitoa_loop.
Qed.

Lemma plain_str_literal (s : gostring) :
  forallb (fun c => negb (byte_eqb c "/"%char) && negb (byte_eqb c "-"%char)) s
  = true -> Forall plain s.
Proof.
  rewrite forallb_forall, Forall_forall. intros H c Hc.
  apply list_elem_of_In, H in Hc.
  apply andb_true_iff in Hc as [H1 H2].
  apply negb_true_iff, byte_eqb_false in H1, H2. by split.
Qed.

Lemma plain_hex (v : N) : plain (Net.hex v).
Proof.
  unfold Net.hex.
  destruct (nth_in_or_default (N.to_nat v) Net.hexDigit Net.x00) as [Hin| ->];
    [|by split].
  assert (Forall plain Net.hexDigit) as Hall by by apply plain_str_literal.
  rewrite Forall_forall in Hall. by apply Hall, list_elem_of_In.
Qed.

Lemma plain_hexString (b : list byte) : Forall plain (Net.hexString b).
Proof.
  unfold Net.hexString. induction b as [|x b IH]; cbn [flat_map]; [done|].
  apply Forall_app. split; [|done].
  constructor; [apply plain_hex|]. constructor; [apply plain_hex|constructor].
Qed.

Lemma plain_appendHex (dst : gostring) (i : N) :
  Forall plain dst -> Forall plain (Net.appendHex dst i).
Proof.
  intros Hdst. unfold Net.appendHex. destruct (i =? 0)%N.
  - apply Forall_app. split; [done|]. by apply plain_str_literal.
  - generalize [7; 6; 5; 4; 3; 2; 1; 0]%N. intros js. revert dst Hdst.
    induction js as [|j js IH]; intros dst Hdst; cbn [fold_left]; [done|].
    apply IH. destruct (0 <? _)%N; [|done].
    apply Forall_app. split; [done|]. constructor; [apply plain_hex|constructor].
Qed.

Lemma plain_print_groups (fuel : nat) (p : list byte) (e0 e1 : Z) :
  forall (i : nat) (b : gostring),
    Forall plain b -> Forall plain (Net.print_groups fuel p e0 e1 i b).
Proof.
  induction fuel as [|fuel IH]; intros i b Hb; cbn [Net.print_groups]; [done|].
  assert (Forall plain (str "::")) as H2 by by apply plain_str_literal.
  assert (Forall plain (str ":")) as H1 by by apply plain_str_literal.
  destruct (i <? Net.IPv6len)%nat; [|done].
  destruct (Z.of_nat i =? e0).
  - destruct (Net.IPv6len <=? Z.to_nat e1)%nat.
    + by apply Forall_app.
    + apply IH, plain_appendHex. by apply Forall_app.
  - apply IH, plain_appendHex. destruct (0 <? i)%nat; [|done].
    by apply Forall_app.
Qed.

Lemma plain_IP_String (ip : Net.IP) : Forall plain (Net.IP_String ip).
Proof.
  unfold Net.IP_String.
  destruct (length (Net.elems ip) =? 0)%nat; [by apply plain_str_literal|].
  assert (Forall plain (str ".")) as Hdot by by apply plain_str_literal.
  assert (Forall plain
            (if negb (length (Net.elems ip) =? Net.IPv6len)%nat
             then str "?" ++ Net.hexString (Net.elems ip)
             else
               let '(e0, e1) := Net.longest_zero_run 8 (Net.elems ip) 0 (-1) (-1) in
               let '(e2, e3) := if e1 - e0 <=? 2 then (-1, -1) else (e0, e1) in
               Net.print_groups 8 (Net.elems ip) e2 e3 0 [])) as Hv6.
  { destruct (negb _).
    - apply Forall_app. split; [by apply plain_str_literal|apply plain_hexString].
    - destruct (Net.longest_zero_run _ _ _ _ _) as [e0 e1].
      destruct (e1 - e0 <=? 2); by apply plain_print_groups. }
  destruct (Net.To4 ip) as [[|a [|b [|c [|d [|? ?]]]]]|]; try exact Hv6.
  repeat (apply Forall_app; split); try done; apply plain_uitoa.
Qed.

(** The text of a network is [<nil>], or an address and a mask or prefix
    length around the only slash, with no dash. *)
Lemma IPNet_String_shape (c : LibNet.IPNet) :
  LibNet.String c = str "<nil>"
  \/ exists a m,
      LibNet.String c = a ++ "/"%char :: m /\ Forall plain a /\ Forall plain m.
Proof.
  unfold LibNet.String, Net.IPNet_String.
  destruct (Net.networkNumberAndMask c) as [[nn m]|]; [right|by left].
  change (str "/") with ["/"%char]. cbn [app].
  destruct (Net.simpleMaskLength m =? -1).
  - eexists _, _. split; [done|]. split; [apply plain_IP_String|].
    unfold Net.IPMask_String. destruct (_ =? _)%nat.
    + by apply plain_str_literal.
    + apply plain_hexString.
  - eexists _, _. split; [done|]. split; [apply plain_IP_String|].
    apply plain_uitoa.
Qed.

(** ** Canonical IPv4 networks *)

Lemma digits_fold_le (ds : gostring) :
  forall m : N, (m <= foldl (fun n c => n * 10 + digit_value c) m ds)%N.
Proof.
  induction ds as [|c ds IH]; intros m; cbn [foldl]; [lia|].
  etransitivity; [|apply IH]. lia.
Qed.

Lemma dtoi_from_digits (ds rest : gostring) :
  forallb Net.is_digit ds = true ->
  next_not_digit rest ->
  forall (m : N) (i : nat),
    (foldl (fun n c => n * 10 + digit_value c) m ds < Net.big)%N ->
    Net.dtoi_from m i (ds ++ rest)
    = (foldl (fun n c => n * 10 + digit_value c)%N m ds,
       (i + length ds)%nat, negb (i + length ds =? 0)%nat).
Proof.
  intros Hds Hrest. induction ds as [|c ds IH]; intros m i Hm.
  - cbn [app foldl length]. rewrite Nat.add_0_r.
    destruct rest as [|c rest]; [done|]. cbn [Net.dtoi_from].
    cbn in Hrest. by rewrite Hrest.
  - cbn [forallb] in Hds. apply andb_true_iff in Hds as [Hc Hds].
    cbn [app foldl length Net.dtoi_from] in *. rewrite Hc.
    fold (digit_value c).
    pose proof (digits_fold_le ds (m * 10 + digit_value c)) as Hle.
    destruct (N.leb_spec Net.big (m * 10 + digit_value c)) as [Hb|_]; [lia|].
    rewrite IH by done.
    by replace (S i + length ds)%nat with (i + S (length ds))%nat by lia.
Qed.

Lemma uitoa_digits (n : N) :
  (n < 10 ^ 20)%N ->
  forallb Net.is_digit (Net.uitoa n) = true
  /\ digits_value (Net.uitoa n) = n
  /\ Net.uitoa n <> [].
Proof.
  intros H. pose proof (uitoa_decimal n H) as Hd. unfold decimal_value in Hd.
  destruct (forallb Net.is_digit (Net.uitoa n)); [|done].
  destruct (Net.uitoa n) as [|c s]; [done|].
  cbn in Hd. injection Hd as Hd. done.
Qed.

(** [dtoi] reads back the numeral that [uitoa] writes. *)
Lemma dtoi_uitoa (n : N) (rest : gostring) :
  (n < Net.big)%N -> next_not_digit rest ->
  Net.dtoi (Net.uitoa n ++ rest) = (n, length (Net.uitoa n), true).
Proof.
  intros Hn Hrest. assert (n < 10 ^ 20)%N as Hn'.
  { unfold Net.big in Hn. change (10 ^ 20)%N with 100000000000000000000%N. lia. }
  destruct (uitoa_digits n Hn') as (Hd & Hv & Hne).
  unfold Net.dtoi. rewrite dtoi_from_digits; [|done|done|].
  - fold (digits_value (Net.uitoa n)). rewrite Hv. cbn [Nat.add].
    do 2 f_equal. destruct (Net.uitoa n); done.
  - fold (digits_value (Net.uitoa n)). by rewrite Hv.
Qed.

Lemma n2b_b2n (b : byte) : n2b (b2n b) = b.
Proof.
  unfold n2b, b2n. rewrite N.mod_small by apply N_ascii_bounded.
  apply ascii_N_embedding.
Qed.

Lemma parseIPv4_first (n : N) (rest : gostring) (k : nat) :
  (n < 256)%N -> next_not_digit rest ->
  Net.parseIPv4_loop (S k) (Net.uitoa n ++ rest) []
  = Net.parseIPv4_loop k rest [n2b n].
Proof.
  intros Hn Hrest. cbn [Net.parseIPv4_loop].
  assert (n < 10 ^ 20)%N as Hn'
    by (change (10 ^ 20)%N with 100000000000000000000%N; lia).
  destruct (uitoa_digits n Hn') as (_ & _ & Hne).
  destruct (Net.uitoa n ++ rest) as [|c s'] eqn:E; [by destruct (Net.uitoa n)|].
  cbn [length Nat.ltb Nat.leb]. rewrite <- E.
  rewrite dtoi_uitoa by (done || unfold Net.big; lia).
  destruct (N.ltb_spec 255 n); [lia|]. cbn [negb orb].
  by rewrite drop_app_length.
Qed.

Lemma parseIPv4_next (n : N) (rest : gostring) (k : nat) (b : byte)
      (p : list byte) :
  (n < 256)%N -> next_not_digit rest ->
  Net.parseIPv4_loop (S k) ("."%char :: Net.uitoa n ++ rest) (b :: p)
  = Net.parseIPv4_loop k rest ((b :: p) ++ [n2b n]).
Proof.
  intros Hn Hrest. cbn [Net.parseIPv4_loop length Nat.ltb Nat.leb].
  rewrite byte_eqb_refl.
  rewrite dtoi_uitoa by (done || unfold Net.big; lia).
  destruct (N.ltb_spec 255 n); [lia|]. cbn [negb orb].
  by rewrite drop_app_length.
Qed.

(** [parseIPv4] reads back the dotted decimal text of four bytes. *)
Lemma parseIPv4_dotted (a b c d : byte) :
  Net.parseIPv4
    (Net.uitoa (b2n a) ++ str "." ++ Net.uitoa (b2n b) ++ str "." ++
     Net.uitoa (b2n c) ++ str "." ++ Net.uitoa (b2n d))
  = Some (Net.IPv4 a b c d).
Proof.
  unfold Net.parseIPv4. change (str ".") with ["."%char]. cbn [app].
  change Net.IPv4len with 4%nat.
  rewrite parseIPv4_first by first [apply b2n_bound | exact eq_refl | exact I].
  rewrite parseIPv4_next by first [apply b2n_bound | exact eq_refl | exact I].
  cbn [app].
  rewrite parseIPv4_next by first [apply b2n_bound | exact eq_refl | exact I].
  cbn [app]. rewrite <- (app_nil_r (Net.uitoa (b2n d))).
  rewrite parseIPv4_next by first [apply b2n_bound | exact eq_refl | exact I].
  cbn [Net.parseIPv4_loop app]. by rewrite !n2b_b2n.
Qed.

(** The bytes of a prefix mask. *)
Lemma cidr_mask_bytes_length (l : nat) :
  forall n, length (Net.cidr_mask_bytes l n) = l.
Proof.
  induction l as [|l IH]; intros n; cbn [Net.cidr_mask_bytes]; [done|].
  destruct (8 <=? n)%N; cbn [length]; by rewrite IH.
Qed.

Lemma cidr_mask_bytes_zero (l : nat) :
  Net.isZeros (Net.cidr_mask_bytes l 0) = true.
Proof. induction l as [|l IH]; [done|]. cbn. exact IH. Qed.

Lemma leading_ones_from (fuel : nat) :
  forall (v : N) (n : Z),
    Net.leading_ones fuel v n = Z.add n <$> Net.leading_ones fuel v 0.
Proof.
  induction fuel as [|fuel IH]; intros v n; cbn [Net.leading_ones]; [done|].
  destruct (negb _).
  - rewrite (IH _ (n + 1)), (IH _ (0 + 1)).
    destruct (Net.leading_ones fuel _ 0); cbn; [f_equal; lia|done].
  - destruct (v =? 0)%N; cbn; [f_equal; lia|done].
Qed.

(** [simpleMaskLength] gives back the prefix length of a prefix mask. *)
Lemma simpleMaskLength_cidr_mask (l : nat) :
  forall (n : N) (acc : Z),
    (n <= 8 * N.of_nat l)%N ->
    Net.simpleMaskLength_from acc (Net.cidr_mask_bytes l n) = acc + Z.of_N n.
Proof.
  induction l as [|l IH]; intros n acc Hn.
  - cbn. lia.
  - cbn [Net.cidr_mask_bytes]. destruct (N.leb_spec 8 n) as [H8|H8].
    + cbn [Net.simpleMaskLength_from]. rewrite byte_eqb_refl, IH by lia. lia.
    + cbn [Net.simpleMaskLength_from].
      pose proof (forall_below 8
        (fun n => negb (byte_eqb (n2b (N.lxor 255 (N.shiftr 255 n))) Net.xff)
                  && bool_decide
                       (Net.leading_ones 9
                          (b2n (n2b (N.lxor 255 (N.shiftr 255 n)))) 0
                        = Some (Z.of_N n))) eq_refl n H8) as Hb.
      apply andb_true_iff in Hb as [Hb1 Hb2].
      apply negb_true_iff in Hb1. apply bool_decide_eq_true in Hb2.
      rewrite Hb1, leading_ones_from, Hb2. cbn [fmap option_fmap option_map].
      by rewrite cidr_mask_bytes_zero.
Qed.

Lemma CIDRMask_bytes (l : nat) (n : N) :
  l = 4%nat \/ l = 16%nat ->
  (n <= 8 * N.of_nat l)%N ->
  Net.CIDRMask (Z.of_N n) (8 * Z.of_nat l) = Some (Net.cidr_mask_bytes l n).
Proof.
  intros Hl Hn. unfold Net.CIDRMask.
  replace (negb (8 * Z.of_nat l =? 8 * Z.of_nat Net.IPv4len)
           && negb (8 * Z.of_nat l =? 8 * Z.of_nat Net.IPv6len)) with false.
  2:{ by destruct Hl as [-> | ->]. }
  destruct (Z.ltb_spec (Z.of_N n) 0); [lia|].
  destruct (Z.ltb_spec (8 * Z.of_nat l) (Z.of_N n)); [lia|]. cbn [orb].
  rewrite N2Z.id. do 2 f_equal.
  rewrite Z.mul_comm, Z.div_mul by done. apply Nat2Z.id.
Qed.

Lemma IP_Mask_v4 (a b c d : byte) (m : list byte) :
  length m = 4%nat ->
  Net.IP_Mask (Some (Net.IPv4 a b c d)) (Some m)
  = Some (zip_with Net.byte_and [a; b; c; d] m).
Proof.
  intros Hm. unfold Net.IP_Mask.
  cbn [Net.elems default from_option id]. rewrite Hm.
  cbn [length Nat.eqb andb Net.IPv4len Net.IPv6len Net.IPv4].
  rewrite Hm. reflexivity.
Qed.

Lemma network_v4_String (a b c d : byte) (n : N) :
  (n <= 32)%N ->
  LibNet.String {| Net.IPNet_IP := Some [a; b; c; d];
                   Net.IPNet_Mask := Some (Net.cidr_mask_bytes 4 n) |}
  = (Net.uitoa (b2n a) ++ str "." ++ Net.uitoa (b2n b) ++ str "." ++
     Net.uitoa (b2n c) ++ str "." ++ Net.uitoa (b2n d))
    ++ "/"%char :: Net.uitoa n.
Proof.
  intros Hn. unfold LibNet.String, Net.IPNet_String, Net.networkNumberAndMask.
  cbn [Net.IPNet_IP Net.IPNet_Mask Net.elems default from_option id].
  change (Net.To4 (Some [a; b; c; d])) with (Some [a; b; c; d]).
  rewrite cidr_mask_bytes_length. cbn [length Nat.eqb Net.IPv4len].
  unfold Net.simpleMaskLength. rewrite simpleMaskLength_cidr_mask by (simpl; lia).
  destruct (Z.eqb_spec (0 + Z.of_N n) (-1)) as [|_]; [lia|].
  rewrite Z.add_0_l, N2Z.id. reflexivity.
Qed.

(** A canonical IPv4 network is canonical: its text parses to itself. *)
Lemma network_v4_canonical (c : LibNet.IPNet) : network_v4 c -> canonical c.
Proof.
  intros (a & b & c0 & d & n & Hn & Hip & Hmask & Hand).
  destruct c as [ip mask]. cbn [Net.IPNet_IP Net.IPNet_Mask] in *. subst.
  exists (Some (Net.IPv4 a b c0 d)). rewrite network_v4_String by done.
  unfold Net.ParseCIDR.
  set (addr := Net.uitoa (b2n a) ++ _).
  assert ("/"%char ∉ addr) as Hno.
  { pose proof (plain_IP_String (Some [a; b; c0; d])) as Hp.
    change (Net.IP_String (Some [a; b; c0; d])) with addr in Hp.
    rewrite Forall_forall in Hp. intros Hin. by destruct (Hp _ Hin). }
  change (str "/") with ["/"%char]. rewrite (Index_byte_first _ _ _ Hno).
  destruct (Z.ltb_spec (Z.of_nat (length addr)) 0); [lia|].
  rewrite Nat2Z.id, take_app_length.
  replace (drop (length addr + 1) (addr ++ "/"%char :: Net.uitoa n))
    with (Net.uitoa n).
  2:{ replace (addr ++ "/"%char :: Net.uitoa n)
        with ((addr ++ ["/"%char]) ++ Net.uitoa n) by by rewrite <- app_assoc.
      rewrite drop_app_length'; [done|]. rewrite length_app. simpl. lia. }
  unfold addr. rewrite parseIPv4_dotted.
  rewrite <- (app_nil_r (Net.uitoa n)) at 1.
  rewrite dtoi_uitoa by (done || unfold Net.big; lia).
  cbv beta iota zeta. rewrite Nat.eqb_refl. cbn [negb orb].
  change (8 * N.of_nat Net.IPv4len)%N with 32%N.
  destruct (N.ltb_spec 32 n) as [|_]; [lia|].
  change (8 * Z.of_nat Net.IPv4len) with (8 * Z.of_nat 4).
  rewrite (CIDRMask_bytes 4) by (by left || simpl; lia).
  rewrite IP_Mask_v4 by apply cidr_mask_bytes_length.
  by rewrite Hand.
Qed.

(** ** Hexadecimal groups *)

Lemma lor_shiftl_add (hi lo k : N) :
  (lo < 2 ^ k)%N -> N.lor (N.shiftl hi k) lo = (hi * 2 ^ k + lo)%N.
Proof.
  intros Hlo. rewrite <- N.shiftl_mul_pow2.
  rewrite <- N.lxor_lor, <- N.add_nocarry_lxor; [done| |].
  - apply N.bits_inj_0. intros n. rewrite N.land_spec.
    destruct (N.lt_ge_cases n k) as [H|H].
    + by rewrite N.shiftl_spec_low.
    + destruct (N.eq_dec lo 0%N) as [->|Hne]; [by rewrite N.bits_0, andb_false_r|].
      rewrite (N.bits_above_log2 lo n), andb_false_r; [done|].
      apply N.log2_lt_pow2 in Hlo; lia.
  - apply N.bits_inj_0. intros n. rewrite N.land_spec.
    destruct (N.lt_ge_cases n k) as [H|H].
    + by rewrite N.shiftl_spec_low.
    + destruct (N.eq_dec lo 0%N) as [->|Hne]; [by rewrite N.bits_0, andb_false_r|].
      rewrite (N.bits_above_log2 lo n), andb_false_r; [done|].
      apply N.log2_lt_pow2 in Hlo; lia.
Qed.

(** The group of two bytes, as a number. *)
Lemma group_value (hi lo : byte) :
  N.lor (N.shiftl (b2n hi) 8) (b2n lo) = (b2n hi * 256 + b2n lo)%N.
Proof. apply (lor_shiftl_add _ _ 8), b2n_bound. Qed.

Lemma group_split (hi lo : byte) :
  let g := N.lor (N.shiftl (b2n hi) 8) (b2n lo) in
  (g < 65536)%N /\ n2b (N.shiftr g 8) = hi /\ n2b g = lo.
Proof.
  cbv zeta. rewrite group_value.
  pose proof (b2n_bound hi). pose proof (b2n_bound lo).
  split; [lia|]. split.
  - rewrite N.shiftr_div_pow2. change (2 ^ 8)%N with 256%N.
    replace ((b2n hi * 256 + b2n lo) / 256)%N with (b2n hi) by mlia.
    apply n2b_b2n.
  - unfold n2b.
    replace ((b2n hi * 256 + b2n lo) mod 256)%N with (b2n lo) by mlia.
    apply ascii_N_embedding.
Qed.

Lemma hex_digit_value (v : N) :
  (v < 16)%N ->
  is_hex_digit (Net.hex v) = true
  /\ (if Net.is_digit (Net.hex v) then Some (b2n (Net.hex v) - 48)%N
      else if Net.is_lower_hex (Net.hex v)
           then Some (b2n (Net.hex v) - 97 + 10)%N
           else if Net.is_upper_hex (Net.hex v)
                then Some (b2n (Net.hex v) - 65 + 10)%N
                else None) = Some v.
Proof.
  intros Hv.
  pose proof (forall_below 16
    (fun v =>
       is_hex_digit (Net.hex v)
       && bool_decide
            ((if Net.is_digit (Net.hex v) then Some (b2n (Net.hex v) - 48)%N
              else if Net.is_lower_hex (Net.hex v)
                   then Some (b2n (Net.hex v) - 97 + 10)%N
                   else if Net.is_upper_hex (Net.hex v)
                        then Some (b2n (Net.hex v) - 65 + 10)%N
                        else None) = Some v)) eq_refl v Hv) as H.
  apply andb_true_iff in H as [H1 H2]. by apply bool_decide_eq_true in H2.
Qed.

Lemma xtoi_from_hex (v n : N) (i : nat) (s : gostring) :
  (v < 16)%N -> (n * 16 + v < Net.big)%N ->
  Net.xtoi_from n i (Net.hex v :: s) = Net.xtoi_from (n * 16 + v) (S i) s.
Proof.
  intros Hv Hn. cbn [Net.xtoi_from].
  destruct (hex_digit_value v Hv) as [_ ->].
  by destruct (N.leb_spec Net.big (n * 16 + v)); [lia|].
Qed.

Lemma xtoi_from_end (n : N) (i : nat) (rest : gostring) :
  next_not_hex rest ->
  Net.xtoi_from n (S i) rest = (n, S i, true).
Proof.
  intros H. destruct rest as [|c rest]; [done|]. cbn [Net.xtoi_from].
  cbn in H. unfold is_hex_digit in H.
  apply orb_false_iff in H as [H H3]. apply orb_false_iff in H as [H1 H2].
  by rewrite H1, H2, H3.
Qed.

(** The text of a group: at most four hexadecimal digits, which [xtoi]
    reads back. *)
Lemma hex_text_cases (g : N) :
  (g < 65536)%N ->
  let d k := Net.hex ((g / 16 ^ k) mod 16)%N in
  (g < 16 /\ hex_text g = [d 0])%N
  \/ (16 <= g < 256 /\ hex_text g = [d 1; d 0])%N
  \/ (256 <= g < 4096 /\ hex_text g = [d 2; d 1; d 0])%N
  \/ (4096 <= g /\ hex_text g = [d 3; d 2; d 1; d 0])%N.
Proof.
  intros Hg d. unfold hex_text, Net.appendHex.
  destruct (N.eqb_spec g 0) as [->|Hne]; [left; by split|].
  cbn [fold_left app].
  rewrite !N.shiftr_div_pow2, !(land_low 4 _ : N.land _ 15 = _).
  change (2 ^ (7 * 4))%N with 268435456%N.
  change (2 ^ (6 * 4))%N with 16777216%N.
  change (2 ^ (5 * 4))%N with 1048576%N.
  change (2 ^ (4 * 4))%N with 65536%N.
  change (2 ^ (3 * 4))%N with 4096%N.
  change (2 ^ (2 * 4))%N with 256%N.
  change (2 ^ (1 * 4))%N with 16%N.
  change (2 ^ (0 * 4))%N with 1%N. change (2 ^ 4)%N with 16%N.
  subst d. cbv beta.
  change (16 ^ 0)%N with 1%N. change (16 ^ 1)%N with 16%N.
  change (16 ^ 2)%N with 256%N. change (16 ^ 3)%N with 4096%N.
  destruct (N.ltb_spec 0 (g / 268435456)); [mlia|].
  destruct (N.ltb_spec 0 (g / 16777216)); [mlia|].
  destruct (N.ltb_spec 0 (g / 1048576)); [mlia|].
  destruct (N.ltb_spec 0 (g / 65536)); [mlia|].
  destruct (N.ltb_spec 0 (g / 4096)), (N.ltb_spec 0 (g / 256)),
    (N.ltb_spec 0 (g / 16)), (N.ltb_spec 0 (g / 1)); cbn [app];
    first [ left; split; [mlia|reflexivity]
          | right; left; split; [mlia|reflexivity]
          | right; right; left; split; [mlia|reflexivity]
          | right; right; right; split; [mlia|reflexivity]
          | exfalso; mlia ].
Qed.

Lemma xtoi_hex_text (g : N) (rest : gostring) :
  (g < 65536)%N -> next_not_hex rest ->
  Net.xtoi (hex_text g ++ rest) = (g, length (hex_text g), true).
Proof.
  intros Hg Hrest. unfold Net.xtoi.
  assert (forall k, (g / 16 ^ k) mod 16 < 16)%N as Hd
    by (intros k; apply N.mod_lt; lia).
  pose proof (Hd 0%N) as H0. pose proof (Hd 1%N) as H1.
  pose proof (Hd 2%N) as H2. pose proof (Hd 3%N) as H3.
  change (16 ^ 0)%N with 1%N in *. change (16 ^ 1)%N with 16%N in *.
  change (16 ^ 2)%N with 256%N in *. change (16 ^ 3)%N with 4096%N in *.
  unfold Net.big in *.
  destruct (hex_text_cases g Hg) as [[Hr ->]|[[Hr ->]|[[Hr ->]|[Hr ->]]]];
    cbn [app length];
    change (16 ^ 0)%N with 1%N in *; change (16 ^ 1)%N with 16%N in *;
    change (16 ^ 2)%N with 256%N in *; change (16 ^ 3)%N with 4096%N in *;
    repeat (rewrite xtoi_from_hex by (done || unfold Net.big; mlia));
    rewrite xtoi_from_end by done; do 2 f_equal; mlia.
Qed.

(** ** The run of zeros of an IPv6 address *)

Lemma zero_run_end_spec (p : list byte) (fuel : nat) :
  forall a : nat,
    exists b : nat,
      Net.zero_run_end fuel p (2 * a) = (2 * b)%nat
      /\ (a <= b)%nat
      /\ (b <= 8 \/ b = a)%nat
      /\ zeros_between p (2 * a) (2 * b).
Proof.
  induction fuel as [|fuel IH]; intros a; cbn [Net.zero_run_end].
  { exists a. repeat split; [lia|by right|]. intros k Hk. lia. }
  destruct ((2 * a <? Net.IPv6len)%nat && byte_eqb (Net.at_ p (2 * a)) Net.x00
            && byte_eqb (Net.at_ p (2 * a + 1)) Net.x00) eqn:E.
  - apply andb_true_iff in E as [E E2]. apply andb_true_iff in E as [E0 E1].
    apply Nat.ltb_lt in E0. apply byte_eqb_true in E1, E2.
    unfold Net.IPv6len in E0.
    replace (2 * a + 2)%nat with (2 * (a + 1))%nat by lia.
    destruct (IH (a + 1)%nat) as (b & -> & Hab & Hb & Hz).
    exists b. repeat split; [lia|left; lia|].
    intros k Hk.
    destruct (decide (k = 2 * a)%nat) as [->|]; [done|].
    destruct (decide (k = 2 * a + 1)%nat) as [->|]; [done|].
    apply Hz. lia.
  - exists a. repeat split; [lia|by right|]. intros k Hk. lia.
Qed.

Lemma longest_zero_run_ok (p : list byte) (fuel : nat) :
  forall (a : nat) (e0 e1 : Z),
    run_ok p (e0, e1) ->
    run_ok p (Net.longest_zero_run fuel p (2 * a) e0 e1).
Proof.
  induction fuel as [|fuel IH]; intros a e0 e1 Hok; cbn [Net.longest_zero_run];
    [done|].
  destruct (2 * a <? Net.IPv6len)%nat; [|done].
  destruct (zero_run_end_spec p 8 a) as (b & -> & Hab & Hb & Hz).
  destruct ((2 * a <? 2 * b)%nat
            && (e1 - e0 <? Z.of_nat (2 * b) - Z.of_nat (2 * a))) eqn:E.
  - apply andb_true_iff in E as [E _]. apply Nat.ltb_lt in E.
    replace (2 * b + 2)%nat with (2 * (b + 1))%nat by lia.
    apply IH. right. exists a, b. repeat split; [lia|lia|done].
  - replace (2 * a + 2)%nat with (2 * (a + 1))%nat by lia. by apply IH.
Qed.

(** The bounds [IP.String] keeps for [::]: none, or a run of zero groups. *)
Lemma zero_run_ok (p : list byte) :
  run_ok p
    (let '(e0, e1) := Net.longest_zero_run 8 p 0 (-1) (-1) in
     if e1 - e0 <=? 2 then (-1, -1) else (e0, e1)).
Proof.
  pose proof (longest_zero_run_ok p 8 0 (-1) (-1)) as H.
  change (2 * 0)%nat with 0%nat in H.
  destruct (Net.longest_zero_run 8 p 0 (-1) (-1)) as [e0 e1].
  destruct (e1 - e0 <=? 2); [by left|]. apply H. by left.
Qed.

(** ** The text of an IPv6 address *)

Lemma appendHex_app (dst : gostring) (g : N) :
  Net.appendHex dst g = dst ++ hex_text g.
Proof.
  unfold hex_text, Net.appendHex. destruct (g =? 0)%N; [done|].
  generalize [7; 6; 5; 4; 3; 2; 1; 0]%N. intros js. revert dst.
  induction js as [|j js IH]; intros dst; cbn [fold_left].
  - by rewrite app_nil_r.
  - destruct (0 <? N.shiftr g (j * 4))%N; [|apply IH].
    rewrite IH, (IH ([] ++ _)). by rewrite <- !app_assoc.
Qed.

Lemma groups_from_S (p : list byte) (a n : nat) :
  groups_from p a (S n) = Net.group p (2 * a) :: groups_from p (S a) n.
Proof. reflexivity. Qed.

Lemma print_groups_tail (p : list byte) (e1 : Z) (fuel : nat) :
  forall (a : nat) (buf : gostring) (e0 : Z),
    (1 <= a)%nat -> e0 < Z.of_nat (2 * a) -> (8 - a <= fuel)%nat ->
    Net.print_groups fuel p e0 e1 (2 * a) buf
    = buf ++ tail_groups (groups_from p a (8 - a)).
Proof.
  induction fuel as [|fuel IH]; intros a buf e0 Ha He Hf;
    cbn [Net.print_groups].
  { replace (8 - a)%nat with 0%nat by lia. by rewrite app_nil_r. }
  unfold Net.IPv6len. destruct (Nat.ltb_spec (2 * a) 16) as [Hlt|Hge].
  - destruct (Z.eqb_spec (Z.of_nat (2 * a)) e0) as [|_]; [lia|].
    destruct (Nat.ltb_spec 0 (2 * a)) as [_|]; [|lia].
    rewrite appendHex_app.
    replace (2 * a + 2)%nat with (2 * S a)%nat by lia.
    rewrite IH by lia.
    replace (8 - a)%nat with (S (8 - S a)) by lia.
    rewrite groups_from_S. cbn [tail_groups].
    change (str ":") with [":"%char]. by rewrite <- !app_assoc.
  - replace (8 - a)%nat with 0%nat by lia. by rewrite app_nil_r.
Qed.

Lemma print_groups_to_run (p : list byte) (x y : nat) (fuel : nat) :
  (x < y <= 8)%nat ->
  forall (a : nat) (buf : gostring),
    (1 <= a <= x)%nat -> (x - a + 1 + (8 - y) <= fuel)%nat ->
    Net.print_groups fuel p (Z.of_nat (2 * x)) (Z.of_nat (2 * y)) (2 * a) buf
    = buf ++ tail_groups (groups_from p a (x - a)) ++ str "::"
          ++ join_groups (groups_from p y (8 - y)).
Proof.
  intros Hxy. induction fuel as [|fuel IH]; intros a buf Ha Hf; [lia|].
  cbn [Net.print_groups]. unfold Net.IPv6len.
  destruct (Nat.ltb_spec (2 * a) 16) as [_|]; [|lia].
  destruct (Z.eqb_spec (Z.of_nat (2 * a)) (Z.of_nat (2 * x))) as [E|E].
  - assert (a = x) as -> by lia. rewrite Nat2Z.id.
    replace (x - x)%nat with 0%nat by lia. cbn [groups_from seq fmap list_fmap tail_groups app].
    destruct (Nat.leb_spec 16 (2 * y)) as [Hy|Hy].
    + replace (8 - y)%nat with 0%nat by lia. done.
    + rewrite appendHex_app.
      replace (2 * y + 2)%nat with (2 * S y)%nat by lia.
      rewrite print_groups_tail by lia.
      replace (8 - y)%nat with (S (8 - S y)) by lia.
      rewrite groups_from_S. cbn [join_groups]. by rewrite <- !app_assoc.
  - destruct (Nat.ltb_spec 0 (2 * a)) as [_|]; [|lia].
    rewrite appendHex_app.
    replace (2 * a + 2)%nat with (2 * S a)%nat by lia.
    rewrite IH by lia.
    replace (x - a)%nat with (S (x - S a)) by lia.
    rewrite groups_from_S. cbn [tail_groups].
    change (str ":") with [":"%char]. rewrite <- !app_assoc. cbn [app].
    by rewrite <- !app_assoc.
Qed.

Lemma print_groups_first (p : list byte) (e0 e1 : Z) (fuel : nat) :
  Net.print_groups (S fuel) p e0 e1 0 []
  = if 0 =? e0 then
      if (Net.IPv6len <=? Z.to_nat e1)%nat then str "::"
      else Net.print_groups fuel p e0 e1 (Z.to_nat e1 + 2)
             (Net.appendHex (str "::") (Net.group p (Z.to_nat e1)))
    else Net.print_groups fuel p e0 e1 2 (Net.appendHex [] (Net.group p 0)).
Proof. reflexivity. Qed.

(** The text [IP.String] prints for the groups of a 16-byte address. *)
Lemma print_groups_plain (p : list byte) :
  Net.print_groups 8 p (-1) (-1) 0 [] = join_groups (groups_from p 0 8).
Proof.
  rewrite print_groups_first. change (0 =? -1) with false. cbv iota.
  rewrite appendHex_app. change (@nil ascii ++ ?x) with x.
  rewrite (print_groups_tail p (-1) 7 1 _ (-1)) by lia. reflexivity.
Qed.

Lemma print_groups_run (p : list byte) (x y : nat) :
  (x < y <= 8)%nat ->
  Net.print_groups 8 p (Z.of_nat (2 * x)) (Z.of_nat (2 * y)) 0 []
  = join_groups (groups_from p 0 x) ++ str "::"
      ++ join_groups (groups_from p y (8 - y)).
Proof.
  intros Hxy. rewrite print_groups_first, Nat2Z.id. unfold Net.IPv6len.
  destruct (Z.eqb_spec 0 (Z.of_nat (2 * x))) as [E|E].
  - assert (x = 0%nat) as -> by lia. change (groups_from p 0 0) with (@nil N).
    cbn [join_groups app].
    destruct (Nat.leb_spec 16 (2 * y)) as [Hy|Hy].
    + replace (8 - y)%nat with 0%nat by lia. done.
    + rewrite appendHex_app.
      replace (2 * y + 2)%nat with (2 * S y)%nat by lia.
      rewrite print_groups_tail by lia.
      replace (8 - y)%nat with (S (8 - S y)) by lia.
      rewrite groups_from_S. cbn [join_groups]. by rewrite <- !app_assoc.
  - rewrite appendHex_app. change (@nil ascii ++ ?x) with x.
    destruct x as [|x]; [lia|].
    rewrite (print_groups_to_run p (S x) y 7 Hxy 1) by lia.
    rewrite groups_from_S. cbn [join_groups].
    replace (S x - 1)%nat with x by lia. by rewrite <- !app_assoc.
Qed.

(** ** Parsing the text of an IPv6 address *)

Lemma hex_text_head (g : N) :
  (g < 65536)%N ->
  exists c s, hex_text g = c :: s /\ is_hex_digit c = true.
Proof.
  intros Hg.
  assert (forall k, is_hex_digit (Net.hex ((g / 16 ^ k) mod 16)%N) = true) as Hd.
  { intros k. apply hex_digit_value, N.mod_lt. lia. }
  destruct (hex_text_cases g Hg) as [[_ ->]|[[_ ->]|[[_ ->]|[_ ->]]]];
    eexists _, _; split; try reflexivity; apply Hd.
Qed.

Lemma not_dot_after_group (g : N) (rest : gostring) :
  match rest with [] => True | c :: _ => c <> "."%char end ->
  (length (hex_text g) <? length (hex_text g ++ rest))%nat
  && byte_eqb (Net.at_ (hex_text g ++ rest) (length (hex_text g))) "."%char
  = false.
Proof.
  intros H. destruct rest as [|c rest].
  - rewrite app_nil_r, Nat.ltb_irrefl. done.
  - unfold Net.at_. rewrite app_nth2 by lia. rewrite Nat.sub_diag. cbn [nth].
    apply byte_eqb_false in H. rewrite H. apply andb_false_r.
Qed.

Lemma not_dot_colon (s : gostring) :
  match ":"%char :: s with [] => True | c :: _ => c <> "."%char end.
Proof. discriminate. Qed.

(** One iteration of the loop of [parseIPv6] on a group. *)
Lemma parseIPv6_loop_group (g : N) (rest : gostring) (f : nat)
      (ip : list byte) (e : Z) :
  (g < 65536)%N -> (length ip < 16)%nat ->
  next_not_hex rest ->
  match rest with [] => True | c :: _ => c <> "."%char end ->
  Net.parseIPv6_loop (S f) (hex_text g ++ rest) ip e
  = after_group f rest (ip ++ [n2b (N.shiftr g 8); n2b g]) e.
Proof.
  intros Hg Hip Hrest Hdot. cbn [Net.parseIPv6_loop]. unfold Net.IPv6len.
  destruct (Nat.leb_spec 16 (length ip)) as [|_]; [lia|].
  rewrite xtoi_hex_text by done.
  destruct (N.ltb_spec 65535 g) as [|_]; [lia|]. cbn [negb orb].
  rewrite not_dot_after_group by done.
  rewrite drop_app_length. unfold after_group.
  destruct rest as [|c0 [|c1 [|c2 s]]]; try reflexivity.
Qed.

Lemma next_not_hex_colon (s : gostring) : next_not_hex (":"%char :: s).
Proof. reflexivity. Qed.

Lemma hex_digit_not_colon (c : byte) :
  is_hex_digit c = true -> byte_eqb c ":"%char = false.
Proof.
  intros H. apply byte_eqb_false. intros ->. discriminate H.
Qed.

(** The loop of [parseIPv6] on groups joined by colons up to the end of the
    text. *)
Lemma parseIPv6_loop_join (gs : list N) :
  forall (g : N) (f : nat) (ip : list byte) (e : Z),
    Forall (fun g => (g < 65536)%N) (g :: gs) ->
    (length ip + 2 * S (length gs) <= 16)%nat ->
    Net.parseIPv6_loop (S (length gs) + f) (hex_text g ++ tail_groups gs) ip e
    = Some ([], ip ++ group_bytes (g :: gs), e).
Proof.
  induction gs as [|g' gs IH]; intros g f ip e Hall Hlen.
  - cbn [tail_groups length Nat.add].
    apply Forall_cons in Hall as [Hg _].
    rewrite parseIPv6_loop_group by first [done | exact I | exact eq_refl | cbn [length] in *; lia | discriminate].
    cbn [after_group group_bytes flat_map]. by rewrite app_nil_r.
  - apply Forall_cons in Hall as [Hg Hall].
    pose proof Hall as Hall'. apply Forall_cons in Hall' as [Hg' _].
    destruct (hex_text_head g' Hg') as (c & s & Ec & Hc).
    cbn [tail_groups length Nat.add].
    rewrite parseIPv6_loop_group by first [done | exact I | exact eq_refl | cbn [length] in *; lia | discriminate].
    unfold after_group. rewrite Ec. cbn [app length Nat.eqb byte_eqb].
    rewrite byte_eqb_refl. cbn [negb orb].
    rewrite (hex_digit_not_colon c Hc).
    change (c :: s ++ ?x) with ((c :: s) ++ x). rewrite <- Ec.
    change (S (length gs + f)) with (S (length gs) + f)%nat.
    rewrite IH; [|done|rewrite length_app; simpl in *; lia].
    cbn [group_bytes flat_map]. by rewrite <- !app_assoc.
Qed.

(** The same up to a [::] that follows the groups: the position of the
    ellipsis is recorded and the loop goes on after it. *)
Lemma parseIPv6_loop_join_ellipsis (gs : list N) :
  forall (g : N) (f : nat) (ip : list byte) (R : gostring),
    Forall (fun g => (g < 65536)%N) (g :: gs) ->
    (length ip + 2 * S (length gs) <= 16)%nat ->
    Net.parseIPv6_loop (S (length gs) + f)
                       (hex_text g ++ tail_groups gs ++ str "::" ++ R) ip (-1)
    = let ip' := ip ++ group_bytes (g :: gs) in
      match R with
      | [] => Some ([], ip', Z.of_nat (length ip'))
      | _ :: _ => Net.parseIPv6_loop f R ip' (Z.of_nat (length ip'))
      end.
Proof.
  induction gs as [|g' gs IH]; intros g f ip R Hall Hlen.
  - cbn [tail_groups length Nat.add app].
    apply Forall_cons in Hall as [Hg _].
    rewrite parseIPv6_loop_group by first [done | exact I | exact eq_refl | cbn [length] in *; lia | discriminate].
    cbn [group_bytes flat_map]. rewrite app_nil_r.
    change (str "::") with [":"%char; ":"%char]. cbn [app after_group].
    by destruct R.
  - apply Forall_cons in Hall as [Hg Hall].
    pose proof Hall as Hall'. apply Forall_cons in Hall' as [Hg' _].
    destruct (hex_text_head g' Hg') as (c & s & Ec & Hc).
    cbn [tail_groups length Nat.add].
    rewrite <- app_comm_cons.
    rewrite parseIPv6_loop_group by first [done | exact I | exact eq_refl | cbn [length] in *; lia | discriminate].
    unfold after_group. rewrite <- app_assoc, Ec.
    cbn [app length Nat.eqb byte_eqb].
    rewrite byte_eqb_refl. cbn [negb orb].
    rewrite (hex_digit_not_colon c Hc).
    change (c :: s ++ ?x) with ((c :: s) ++ x). rewrite <- Ec.
    change (S (length gs + f)) with (S (length gs) + f)%nat.
    rewrite IH; [|done|rewrite length_app; simpl in *; lia].
    cbn [group_bytes flat_map]. by rewrite <- !app_assoc.
Qed.

(** ** The text of an IPv6 address parses to the address *)

Lemma at_lookup (p : list byte) (k : nat) :
  (k < length p)%nat -> p !! k = Some (Net.at_ p k).
Proof.
  intros H. unfold Net.at_. rewrite nth_lookup.
  destruct (lookup_lt_is_Some_2 p k H) as [x ->]. done.
Qed.

Lemma groups_from_lt (p : list byte) (n : nat) :
  forall a, Forall (fun g => (g < 65536)%N) (groups_from p a n).
Proof.
  induction n as [|n IH]; intros a; [constructor|].
  rewrite groups_from_S. constructor; [|apply IH].
  apply (group_split (Net.at_ p (2 * a)) (Net.at_ p (2 * a + 1))).
Qed.

(** The bytes of the groups of an address are the bytes of the address. *)
Lemma group_bytes_groups (p : list byte) (n : nat) :
  forall a,
    (2 * a + 2 * n <= length p)%nat ->
    group_bytes (groups_from p a n) = take (2 * n) (drop (2 * a) p).
Proof.
  induction n as [|n IH]; intros a Hlen; [done|].
  rewrite groups_from_S. cbn [group_bytes flat_map].
  fold (group_bytes (groups_from p (S a) n)). rewrite IH by lia.
  destruct (group_split (Net.at_ p (2 * a)) (Net.at_ p (2 * a + 1)))
    as (_ & Hhi & Hlo).
  unfold Net.group. rewrite Hhi, Hlo.
  rewrite (drop_S p (Net.at_ p (2 * a)) (2 * a)) by (apply at_lookup; lia).
  rewrite (drop_S p (Net.at_ p (2 * a + 1)) (S (2 * a)))
    by (replace (S (2 * a)) with (2 * a + 1)%nat by lia; apply at_lookup; lia).
  replace (2 * S n)%nat with (S (S (2 * n))) by lia.
  replace (2 * S a)%nat with (S (S (2 * a))) by lia. reflexivity.
Qed.

Lemma zeros_take (p : list byte) (n : nat) :
  forall i,
    zeros_between p i (i + n) -> (i + n <= length p)%nat ->
    take n (drop i p) = replicate n Net.x00.
Proof.
  induction n as [|n IH]; intros i Hz Hlen; [done|].
  rewrite (drop_S p (Net.at_ p i) i) by (apply at_lookup; lia).
  cbn [take replicate]. rewrite Hz by lia. f_equal.
  apply IH; [|lia]. intros k Hk. apply Hz. lia.
Qed.

Lemma join_groups_head (p : list byte) (a n : nat) :
  exists c s,
    join_groups (groups_from p a (S n)) = c :: s /\ is_hex_digit c = true.
Proof.
  rewrite groups_from_S. cbn [join_groups].
  destruct (hex_text_head (Net.group p (2 * a))) as (c & s & -> & Hc).
  { apply (group_split (Net.at_ p (2 * a)) (Net.at_ p (2 * a + 1))). }
  by eexists _, _.
Qed.

Lemma parseIPv6_not_leading (c : byte) (s : gostring) :
  is_hex_digit c = true ->
  Net.parseIPv6 (c :: s)
  = match Net.parseIPv6_loop 9 (c :: s) [] (-1) with
    | None => None
    | Some (s, ip, ellipsis) =>
      let i := length ip in
      if negb (length s =? 0)%nat then None
      else if (i <? Net.IPv6len)%nat then
        if ellipsis <? 0 then None
        else
          let e := Z.to_nat ellipsis in
          Some (take e ip ++ replicate (Net.IPv6len - i) Net.x00 ++ drop e ip)
      else if 0 <=? ellipsis then None
      else Some ip
    end.
Proof.
  intros Hc. unfold Net.parseIPv6.
  destruct s as [|c1 s]; [done|].
  by rewrite (hex_digit_not_colon c Hc).
Qed.

Lemma parseIPv6_join_plain (p : list byte) :
  length p = 16%nat ->
  Net.parseIPv6 (join_groups (groups_from p 0 8)) = Some p.
Proof.
  intros Hp. destruct (join_groups_head p 0 7) as (c & s & E & Hc).
  rewrite E, (parseIPv6_not_leading c s Hc), <- E.
  rewrite groups_from_S. cbn [join_groups].
  pose proof (groups_from_lt p 8 0) as Hall. rewrite groups_from_S in Hall.
  pose proof (parseIPv6_loop_join (groups_from p 1 7) (Net.group p (2 * 0))
                1 [] (-1) Hall) as Hrun.
  assert (length (groups_from p 1 7) = 7%nat) as Hlen
    by (unfold groups_from; by rewrite length_fmap, length_seq).
  rewrite Hlen in Hrun. change (S 7 + 1)%nat with 9%nat in Hrun.
  rewrite Hrun by (cbn; lia).
  rewrite <- groups_from_S, group_bytes_groups by (rewrite Hp; lia).
  cbn [app length Nat.eqb negb]. rewrite drop_0, take_ge by lia.
  rewrite Hp. reflexivity.
Qed.

Lemma parseIPv6_finish (p ip : list byte) (x y : nat) :
  length p = 16%nat -> (x < y <= 8)%nat ->
  take (2 * (y - x)) (drop (2 * x) p) = replicate (2 * (y - x)) Net.x00 ->
  ip = take (2 * x) p ++ drop (2 * y) p ->
  (let i := length ip in
   if negb (length (@nil ascii) =? 0)%nat then None
   else if (i <? Net.IPv6len)%nat then
     if Z.of_nat (2 * x) <? 0 then None
     else
       let e := Z.to_nat (Z.of_nat (2 * x)) in
       Some (take e ip ++ replicate (Net.IPv6len - i) Net.x00 ++ drop e ip)
   else if 0 <=? Z.of_nat (2 * x) then None
   else Some ip) = Some p.
Proof.
  intros Hp Hxy Hzeros ->. cbv zeta. cbn [length Nat.eqb negb].
  rewrite length_app, length_take, length_drop, Hp.
  change Net.IPv6len with 16%nat. rewrite (Nat.min_l (2 * x) 16) by lia.
  destruct (Nat.ltb_spec (2 * x + (16 - 2 * y)) 16) as [_|?]; [|lia].
  destruct (Z.ltb_spec (Z.of_nat (2 * x)) 0) as [?|_]; [lia|].
  rewrite Nat2Z.id. f_equal.
  rewrite take_app_le, drop_app_ge by (rewrite length_take; lia).
  rewrite take_take, length_take, Hp, Nat.min_id.
  rewrite (Nat.min_l (2 * x) 16) by lia. rewrite Nat.sub_diag, drop_0.
  replace (16 - (2 * x + (16 - 2 * y)))%nat with (2 * (y - x))%nat by lia.
  rewrite <- Hzeros. rewrite <- (take_drop (2 * x) p) at 4. f_equal.
  rewrite <- (take_drop (2 * (y - x)) (drop (2 * x) p)) at 2. f_equal.
  rewrite drop_drop. f_equal. lia.
Qed.

Lemma parseIPv6_join_run (p : list byte) (x y : nat) :
  length p = 16%nat -> (x < y <= 8)%nat ->
  zeros_between p (2 * x) (2 * y) ->
  Net.parseIPv6 (join_groups (groups_from p 0 x) ++ str "::"
                   ++ join_groups (groups_from p y (8 - y)))
  = Some p.
Proof.
  intros Hp Hxy Hz.
  assert (forall a n, length (groups_from p a n) = n) as Hgl
    by (intros; unfold groups_from; by rewrite length_fmap, length_seq).
  assert (take (2 * (y - x)) (drop (2 * x) p)
          = replicate (2 * (y - x)) Net.x00) as Hzeros.
  { apply zeros_take; [|lia].
    by replace (2 * x + 2 * (y - x))%nat with (2 * y)%nat by lia. }
  assert (forall f ip e,
            (length ip + 2 * (8 - y) <= 16)%nat -> (0 < 8 - y)%nat ->
            Net.parseIPv6_loop (S (8 - y) + f)
                               (join_groups (groups_from p y (8 - y))) ip e
            = Some ([], ip ++ drop (2 * y) p, e)) as Hsecond.
  { intros f ip e Hlen Hy.
    replace (8 - y)%nat with (S (7 - y)) by lia.
    rewrite groups_from_S. cbn [join_groups].
    pose proof (groups_from_lt p (S (7 - y)) y) as Hall.
    rewrite groups_from_S in Hall.
    pose proof (parseIPv6_loop_join (groups_from p (S y) (7 - y))
                  (Net.group p (2 * y)) (S f) ip e Hall) as Hrun.
    rewrite Hgl in Hrun.
    replace (S (S (7 - y)) + f)%nat with (S (7 - y) + S f)%nat by lia.
    rewrite Hrun by lia.
    rewrite <- groups_from_S, group_bytes_groups by (rewrite Hp; lia).
    rewrite take_ge; [done|]. rewrite length_drop, Hp. lia. }
  destruct x as [|x].
  - (* the text begins with the ellipsis *)
    change (groups_from p 0 0) with (@nil N). cbn [join_groups app].
    change (str "::") with [":"%char; ":"%char]. cbn [app].
    unfold Net.parseIPv6. cbn [byte_eqb]. rewrite !byte_eqb_refl.
    cbn [andb drop]. rewrite drop_0.
    destruct (decide (y = 8%nat)) as [->|Hy].
    + cbn [Nat.sub groups_from seq fmap list_fmap join_groups length Nat.eqb].
      f_equal. change Net.IPv6len with (2 * (8 - 0))%nat.
      rewrite <- Hzeros. cbn [Nat.sub Nat.mul Nat.add].
      rewrite drop_0, take_ge; [done|lia].
    + destruct (join_groups_head p y (7 - y)) as (c & s & E & Hc).
      replace (S (7 - y)) with (8 - y)%nat in E by lia.
      rewrite E. cbn [length Nat.eqb andb]. rewrite <- E.
      replace 9%nat with (S (8 - y) + y)%nat by lia.
      rewrite Hsecond by (cbn [length]; lia).
      apply (parseIPv6_finish p _ 0 y Hp Hxy Hzeros). reflexivity.
  - destruct (join_groups_head p 0 x) as (c & s & E & Hc).
    rewrite E. cbn [app]. rewrite (parseIPv6_not_leading c _ Hc).
    change (c :: s ++ ?r) with ((c :: s) ++ r). rewrite <- E.
    rewrite groups_from_S. cbn [join_groups]. rewrite <- app_assoc.
    pose proof (groups_from_lt p (S x) 0) as Hall.
    rewrite groups_from_S in Hall.
    pose proof (parseIPv6_loop_join_ellipsis (groups_from p 1 x)
                  (Net.group p (2 * 0)) (8 - x) []
                  (join_groups (groups_from p y (8 - y))) Hall) as Hrun.
    rewrite Hgl in Hrun.
    replace (S x + (8 - x))%nat with 9%nat in Hrun by lia.
    rewrite Hrun by (cbn [length]; lia). clear Hrun. cbv zeta.
    rewrite <- groups_from_S, group_bytes_groups by (rewrite Hp; lia).
    cbn [app]. rewrite drop_0.
    assert (length (take (2 * S x) p) = (2 * S x)%nat) as Hl
      by (rewrite length_take; lia).
    rewrite Hl.
    destruct (decide (y = 8%nat)) as [->|Hy].
    + cbn [Nat.sub groups_from seq fmap list_fmap join_groups].
      apply (parseIPv6_finish p _ (S x) 8 Hp Hxy Hzeros).
      rewrite drop_ge by lia. by rewrite app_nil_r.
    + destruct (join_groups_head p y (7 - y)) as (c' & s' & E' & Hc').
      replace (S (7 - y)) with (8 - y)%nat in E' by lia.
      rewrite E'. rewrite <- E'.
      replace (8 - x)%nat with (S (8 - y) + (y - S x))%nat by lia.
      rewrite Hsecond by lia.
      apply (parseIPv6_finish p _ (S x) y Hp Hxy Hzeros). reflexivity.
Qed.

(** The text of an address that is not an IPv4 address: its eight groups,
    or the groups around the longest run of zero groups. *)
Lemma IP_String_v6 (p : list byte) :
  length p = 16%nat -> Net.To4 (Some p) = None ->
  Net.IP_String (Some p) = join_groups (groups_from p 0 8)
  \/ exists x y : nat,
      (x < y <= 8)%nat /\ zeros_between p (2 * x) (2 * y)
      /\ Net.IP_String (Some p)
         = join_groups (groups_from p 0 x) ++ str "::"
             ++ join_groups (groups_from p y (8 - y)).
Proof.
  intros Hp H4. unfold Net.IP_String. rewrite H4.
  cbn [Net.elems default from_option id]. rewrite Hp.
  cbn [Nat.eqb Net.IPv6len negb]. pose proof (zero_run_ok p) as Hrun.
  destruct (Net.longest_zero_run 8 p 0 (-1) (-1)) as [e0 e1].
  destruct (e1 - e0 <=? 2).
  - left. apply print_groups_plain.
  - destruct Hrun as [[= -> ->]|(x & y & [= -> ->] & Hxy & Hz)].
    + left. apply print_groups_plain.
    + right. exists x, y. split; [done|]. split; [done|].
      by apply print_groups_run.
Qed.

Lemma parseIPv6_IP_String (p : list byte) :
  length p = 16%nat -> Net.To4 (Some p) = None ->
  Net.parseIPv6 (Net.IP_String (Some p)) = Some p.
Proof.
  intros Hp H4.
  destruct (IP_String_v6 p Hp H4) as [->|(x & y & Hxy & Hz & ->)].
  - by apply parseIPv6_join_plain.
  - by apply parseIPv6_join_run.
Qed.

(** ** The text of an IPv6 address is not a dotted address *)

Lemma hex_digit_not_dot (c : byte) : is_hex_digit c = true -> c <> "."%char.
Proof. by intros H ->. Qed.

Lemma hex_text_no_dot (g : N) :
  (g < 65536)%N -> Forall (fun c => c <> "."%char) (hex_text g).
Proof.
  intros Hg.
  assert (forall k, Net.hex ((g / 16 ^ k) mod 16)%N <> "."%char) as Hd.
  { intros k. apply hex_digit_not_dot, hex_digit_value, N.mod_lt. lia. }
  destruct (hex_text_cases g Hg) as [[_ ->]|[[_ ->]|[[_ ->]|[_ ->]]]];
    repeat constructor; apply Hd.
Qed.

Lemma tail_groups_no_dot (gs : list N) :
  Forall (fun g => (g < 65536)%N) gs ->
  Forall (fun c => c <> "."%char) (tail_groups gs).
Proof.
  induction 1 as [|g gs Hg _ IH]; cbn [tail_groups]; [constructor|].
  constructor; [done|]. apply Forall_app. split; [by apply hex_text_no_dot|done].
Qed.

Lemma join_groups_no_dot (gs : list N) :
  Forall (fun g => (g < 65536)%N) gs ->
  Forall (fun c => c <> "."%char) (join_groups gs).
Proof.
  destruct 1 as [|g gs Hg Hgs]; cbn [join_groups]; [constructor|].
  apply Forall_app. split; [by apply hex_text_no_dot|by apply tail_groups_no_dot].
Qed.

Lemma IP_String_v6_no_dot (p : list byte) :
  length p = 16%nat -> Net.To4 (Some p) = None ->
  Forall (fun c => c <> "."%char) (Net.IP_String (Some p)).
Proof.
  intros Hp H4.
  destruct (IP_String_v6 p Hp H4) as [->|(x & y & Hxy & Hz & ->)].
  - apply join_groups_no_dot, groups_from_lt.
  - repeat (apply Forall_app; split);
      try (apply join_groups_no_dot, groups_from_lt).
    by repeat constructor.
Qed.

Lemma parseIPv4_no_dot (s : gostring) :
  Forall (fun c => c <> "."%char) s -> Net.parseIPv4 s = None.
Proof.
  intros Hs. unfold Net.parseIPv4.
  replace (Net.parseIPv4_loop Net.IPv4len s []) with (@None (gostring * list byte));
    [done|].
  change Net.IPv4len with 4%nat. cbn [Net.parseIPv4_loop].
  destruct s as [|c s]; [done|]. cbn [length Nat.ltb Nat.leb].
  destruct (Net.dtoi (c :: s)) as [[n k] ok].
  destruct (negb ok || (255 <? n)%N); [done|].
  destruct (drop k (c :: s)) as [|c' t] eqn:E; [done|].
  assert (c' <> "."%char) as Hc.
  { rewrite Forall_forall in Hs. apply Hs.
    apply (subseteq_drop k (c :: s)). rewrite E. by left. }
  cbn [app length Nat.ltb Nat.leb].
  apply byte_eqb_false in Hc. by rewrite Hc.
Qed.

(** ** Canonical IPv6 networks *)

Lemma IP_Mask_v6 (p m : list byte) :
  length p = 16%nat -> length m = 16%nat ->
  Net.IP_Mask (Some p) (Some m) = Some (zip_with Net.byte_and p m).
Proof.
  intros Hp Hm. unfold Net.IP_Mask.
  cbn [Net.elems default from_option id]. rewrite Hp, Hm.
  change (16 =? Net.IPv4len)%nat with false. rewrite andb_false_r.
  cbn [andb]. rewrite Hm. change (16 =? Net.IPv4len)%nat with false.
  cbn [andb]. rewrite Hp. reflexivity.
Qed.

Lemma network_v6_String (p : list byte) (n : N) :
  length p = 16%nat -> Net.To4 (Some p) = None -> (n <= 128)%N ->
  LibNet.String {| Net.IPNet_IP := Some p;
                   Net.IPNet_Mask := Some (Net.cidr_mask_bytes 16 n) |}
  = Net.IP_String (Some p) ++ "/"%char :: Net.uitoa n.
Proof.
  intros Hp H4 Hn. unfold LibNet.String, Net.IPNet_String, Net.networkNumberAndMask.
  cbn [Net.IPNet_IP Net.IPNet_Mask Net.elems default from_option id].
  rewrite H4, Hp, cidr_mask_bytes_length.
  cbn [length Nat.eqb Net.IPv4len Net.IPv6len]. rewrite Hp.
  change (16 =? Net.IPv4len)%nat with false. cbv iota.
  unfold Net.simpleMaskLength. rewrite simpleMaskLength_cidr_mask by (simpl; lia).
  destruct (Z.eqb_spec (0 + Z.of_N n) (-1)) as [|_]; [lia|].
  rewrite Z.add_0_l, N2Z.id. reflexivity.
Qed.

(** A canonical IPv6 network is canonical: its text parses to itself. *)
Lemma network_v6_canonical (c : LibNet.IPNet) : network_v6 c -> canonical c.
Proof.
  intros (p & n & Hp & H4 & Hn & Hip & Hmask & Hand).
  destruct c as [ip mask]. cbn [Net.IPNet_IP Net.IPNet_Mask] in *. subst.
  exists (Some p). rewrite network_v6_String by done.
  unfold Net.ParseCIDR.
  set (addr := Net.IP_String (Some p)).
  assert ("/"%char ∉ addr) as Hno.
  { pose proof (plain_IP_String (Some p)) as Hpl.
    rewrite Forall_forall in Hpl. intros Hin. by destruct (Hpl _ Hin). }
  change (str "/") with ["/"%char]. rewrite (Index_byte_first _ _ _ Hno).
  destruct (Z.ltb_spec (Z.of_nat (length addr)) 0); [lia|].
  rewrite Nat2Z.id, take_app_length.
  replace (drop (length addr + 1) (addr ++ "/"%char :: Net.uitoa n))
    with (Net.uitoa n).
  2:{ replace (addr ++ "/"%char :: Net.uitoa n)
        with ((addr ++ ["/"%char]) ++ Net.uitoa n) by by rewrite <- app_assoc.
      rewrite drop_app_length'; [done|]. rewrite length_app. simpl. lia. }
  unfold addr. rewrite parseIPv4_no_dot by by apply IP_String_v6_no_dot.
  rewrite parseIPv6_IP_String by done.
  rewrite <- (app_nil_r (Net.uitoa n)) at 1.
  rewrite dtoi_uitoa by (done || unfold Net.big; lia).
  cbv beta iota zeta. rewrite Nat.eqb_refl. cbn [negb orb].
  change (8 * N.of_nat Net.IPv6len)%N with 128%N.
  destruct (N.ltb_spec 128 n) as [|_]; [lia|].
  change (8 * Z.of_nat Net.IPv6len) with (8 * Z.of_nat 16).
  rewrite (CIDRMask_bytes 16) by (by right || simpl; lia).
  rewrite IP_Mask_v6 by (done || apply cidr_mask_bytes_length).
  by rewrite Hand.
Qed.

(** ** What [ParseCIDR] returns *)

Lemma parseIPv4_form (s : gostring) (p : list byte) :
  Net.parseIPv4 s = Some p -> exists a b c d, p = Net.IPv4 a b c d.
Proof.
  unfold Net.parseIPv4.
  destruct (Net.parseIPv4_loop Net.IPv4len s [])
    as [[[|? ?] [|a [|b [|c [|d [|? ?]]]]]]|]; try done.
  intros [= <-]. by exists a, b, c, d.
Qed.

(** The loop of [parseIPv6] stores an even number of bytes, 16 at most. *)
Lemma parseIPv6_loop_length (fuel : nat) :
  forall (s : gostring) (ip : list byte) (e : Z) s' ip' e',
    Net.parseIPv6_loop fuel s ip e = Some (s', ip', e') ->
    (exists k, length ip = 2 * k)%nat -> (length ip <= 16)%nat ->
    (exists k, length ip' = 2 * k)%nat /\ (length ip' <= 16)%nat.
Proof.
  induction fuel as [|fuel IH]; intros s ip e s' ip' e' H [k Hk] Hle;
    cbn [Net.parseIPv6_loop] in H.
  { injection H as <- <- <-. split; [by exists k|done]. }
  change Net.IPv6len with 16%nat in H. change Net.IPv4len with 4%nat in H.
  destruct (Nat.leb_spec 16 (length ip)) as [Hge|Hlt].
  { injection H as <- <- <-. split; [by exists k|done]. }
  destruct (Net.xtoi s) as [[n c] ok].
  destruct (negb ok || (65535 <? n)%N); [done|].
  destruct ((c <? length s)%nat && byte_eqb (Net.at_ s c) "."%char).
  - destruct ((e <? 0) && negb (length ip =? 16 - 4)%nat); [done|].
    destruct (Nat.ltb_spec 16 (length ip + 4)) as [|Hfit]; [done|].
    destruct (Net.parseIPv4 s) as [ip4|] eqn:E4; [|done].
    destruct (parseIPv4_form s ip4 E4) as (a & b & c0 & d & ->).
    injection H as <- <- <-. rewrite length_app. cbn [Net.IPv4 drop length app
      Net.v4InV6Prefix replicate].
    split; [exists (k + 2)%nat|]; lia.
  - assert ((exists k', length (ip ++ [n2b (N.shiftr n 8); n2b n]) = 2 * k')%nat
            /\ (length (ip ++ [n2b (N.shiftr n 8); n2b n]) <= 16)%nat)
      as [Hev Hle'].
    { rewrite length_app. cbn [length]. split; [exists (k + 1)%nat|]; lia. }
    cbv zeta in H.
    destruct (drop c s) as [|c0 [|c1 s'']].
    + by injection H as <- <- <-.
    + by destruct (negb _ || _).
    + destruct (negb _ || _); [done|].
      destruct (byte_eqb c1 ":"%char).
      * destruct (0 <=? e); [done|]. destruct s'' as [|c2 s3].
        -- by injection H as <- <- <-.
        -- by apply (IH _ _ _ _ _ _ H).
      * by apply (IH _ _ _ _ _ _ H).
Qed.

Lemma parseIPv6_length (s : gostring) (p : list byte) :
  Net.parseIPv6 s = Some p -> length p = 16%nat.
Proof.
  unfold Net.parseIPv6. cbv zeta.
  set (leading := match s with
                  | c0 :: c1 :: _ => byte_eqb c0 ":"%char && byte_eqb c1 ":"%char
                  | _ => false
                  end).
  destruct (leading && _).
  { intros H. assert (p = replicate Net.IPv6len Net.x00) as -> by congruence.
    apply length_replicate. }
  destruct (Net.parseIPv6_loop 9 _ [] _) as [[[s' ip] e]|] eqn:E; [|done].
  apply parseIPv6_loop_length in E as [_ Hle]; [|by exists 0%nat|cbn; lia].
  destruct (negb _); [done|]. change Net.IPv6len with 16%nat.
  destruct (Nat.ltb_spec (length ip) 16) as [Hlt|Hge].
  - destruct (e <? 0); [done|]. intros [= <-].
    rewrite !length_app, length_take, length_replicate, length_drop. lia.
  - destruct (0 <=? e); [done|]. intros [= <-]. lia.
Qed.

(** Masking twice is masking once. *)
Lemma byte_and_idem (a m : byte) :
  Net.byte_and (Net.byte_and a m) m = Net.byte_and a m.
Proof.
  unfold Net.byte_and at 1. f_equal.
  assert (b2n (Net.byte_and a m) = N.land (b2n a) (b2n m)) as ->.
  { unfold Net.byte_and, b2n, n2b. rewrite N_ascii_embedding.
    - apply N.mod_small. 
      pose proof (b2n_bound m). unfold b2n in *.
      assert (N.land (N_of_ascii a) (N_of_ascii m) <= N_of_ascii m)%N; [|lia].
      rewrite N.land_comm. apply N.ldiff_le, N.bits_inj_0. intros i.
      rewrite N.ldiff_spec, N.land_spec.
      by destruct (N.testbit _ i), (N.testbit _ i).
    - apply N.mod_lt. lia. }
  by rewrite <- N.land_assoc, N.land_diag.
Qed.

Lemma zip_byte_and_idem (p m : list byte) :
  zip_with Net.byte_and (zip_with Net.byte_and p m) m
  = zip_with Net.byte_and p m.
Proof.
  revert m. induction p as [|a p IH]; intros [|b m]; cbn [zip_with]; try done.
  by rewrite byte_and_idem, IH.
Qed.

(** The network [ParseCIDR] returns: the masked address of a dotted text
    with a 4-byte prefix mask, or a masked 16-byte address with a 16-byte
    prefix mask. *)
Lemma ParseCIDR_cases (s : gostring) (ip : Net.IP) (c : Net.IPNet) :
  Net.ParseCIDR s = Some (ip, c) ->
  let addr := take (Z.to_nat (Strings.Index s (str "/"))) s in
  (exists (a b c0 d : byte) (n : N),
      (n <= 32)%N
      /\ Net.parseIPv4 addr = Some (Net.IPv4 a b c0 d)
      /\ c = {| Net.IPNet_IP :=
                  Some (zip_with Net.byte_and [a; b; c0; d]
                                 (Net.cidr_mask_bytes 4 n));
                Net.IPNet_Mask := Some (Net.cidr_mask_bytes 4 n) |})
  \/ (exists (p : list byte) (n : N),
         (n <= 128)%N
         /\ Net.parseIPv4 addr = None
         /\ length p = 16%nat
         /\ c = {| Net.IPNet_IP :=
                     Some (zip_with Net.byte_and p (Net.cidr_mask_bytes 16 n));
                   Net.IPNet_Mask := Some (Net.cidr_mask_bytes 16 n) |}).
Proof.
  unfold Net.ParseCIDR. destruct (Strings.Index s (str "/") <? 0); [done|].
  cbv zeta. set (addr := take _ s). set (mask := drop _ s).
  destruct (Net.dtoi mask) as [[n j] ok].
  destruct (Net.parseIPv4 addr) as [ip4|] eqn:E4.
  - destruct (parseIPv4_form addr ip4 E4) as (a & b & c0 & d & ->).
    change (8 * N.of_nat Net.IPv4len)%N with 32%N.
    destruct (negb ok || negb (j =? length mask)%nat); [done|]. cbn [orb].
    destruct (N.ltb_spec 32 n) as [|Hn]; [done|].
    change (8 * Z.of_nat Net.IPv4len) with (8 * Z.of_nat 4).
    rewrite (CIDRMask_bytes 4) by (by left || simpl; lia).
    rewrite IP_Mask_v4 by apply cidr_mask_bytes_length.
    intros [= _ <-]. left. by exists a, b, c0, d, n.
  - destruct (Net.parseIPv6 addr) as [p|] eqn:E6; [|done].
    apply parseIPv6_length in E6.
    change (8 * N.of_nat Net.IPv6len)%N with 128%N.
    destruct (negb ok || negb (j =? length mask)%nat); [done|]. cbn [orb].
    destruct (N.ltb_spec 128 n) as [|Hn]; [done|].
    change (8 * Z.of_nat Net.IPv6len) with (8 * Z.of_nat 16).
    rewrite (CIDRMask_bytes 16) by (by right || simpl; lia).
    rewrite IP_Mask_v6 by (done || apply cidr_mask_bytes_length).
    intros [= _ <-]. right. by exists p, n.
Qed.

(** The text of a 16-byte address that is an IPv4 address is dotted, so
    it parses as an IPv4 address. *)
Lemma v4_in_v6_String (q x : list byte) (n : N) :
  length q = 16%nat -> Net.To4 (Some q) = Some x ->
  let s := LibNet.String {| Net.IPNet_IP := Some q;
                            Net.IPNet_Mask := Some (Net.cidr_mask_bytes 16 n) |} in
  Net.parseIPv4 (take (Z.to_nat (Strings.Index s (str "/"))) s) <> None.
Proof.
  intros Hq H4.
  assert (exists a b c d, x = [a; b; c; d]) as (a & b & c & d & ->).
  { unfold Net.To4 in H4. cbn [Net.elems default from_option id] in H4.
    rewrite Hq in H4. change (16 =? Net.IPv4len)%nat with false in H4.
    cbv iota in H4. destruct (_ && _); [|done]. injection H4 as <-.
    do 16 (destruct q as [|? q]; [done|]). destruct q; [|done].
    by eexists _, _, _, _. }
  cbv zeta. unfold LibNet.String, Net.IPNet_String, Net.networkNumberAndMask.
  cbn [Net.IPNet_IP Net.IPNet_Mask Net.elems default from_option id].
  rewrite H4, cidr_mask_bytes_length.
  cbn [length Nat.eqb Net.IPv4len Net.IPv6len].
  set (addr := Net.IP_String (Some [a; b; c; d])).
  assert ("/"%char ∉ addr) as Hno.
  { pose proof (plain_IP_String (Some [a; b; c; d])) as Hpl.
    rewrite Forall_forall in Hpl. intros Hin. by destruct (Hpl _ Hin). }
  assert (forall rest,
             Net.parseIPv4
               (take (Z.to_nat (Strings.Index (addr ++ str "/" ++ rest) (str "/")))
                     (addr ++ str "/" ++ rest)) <> None) as Hparse.
  { intros rest. change (str "/") with ["/"%char]. cbn [app].
    rewrite (Index_byte_first _ _ _ Hno), Nat2Z.id, take_app_length.
    unfold addr. change (Net.IP_String (Some [a; b; c; d]))
      with (Net.uitoa (b2n a) ++ str "." ++ Net.uitoa (b2n b) ++ str "." ++
            Net.uitoa (b2n c) ++ str "." ++ Net.uitoa (b2n d)).
    by rewrite parseIPv4_dotted. }
  destruct (_ =? -1); apply Hparse.
Qed.

(** A canonical CIDR is an IPv4 network or an IPv6 network. *)
Lemma canonical_network (c : LibNet.IPNet) :
  canonical c -> network_v4 c \/ network_v6 c.
Proof.
  intros [ip H]. pose proof (ParseCIDR_cases _ _ _ H) as Hc. cbv zeta in Hc.
  destruct Hc as [(a & b & c0 & d & n & Hn & _ & Hc)
                 |(p & n & Hn & H4 & Hp & Hc)].
  - left. pose proof (cidr_mask_bytes_length 4 n) as Hl.
    pose proof (zip_byte_and_idem [a; b; c0; d] (Net.cidr_mask_bytes 4 n)) as Hi.
    destruct (Net.cidr_mask_bytes 4 n) as [|m0 [|m1 [|m2 [|m3 [|? ?]]]]] eqn:Em;
      try done.
    cbn [zip_with] in Hc, Hi. rewrite Hc. eexists _, _, _, _, n.
    split; [done|]. split; [reflexivity|]. rewrite Em. by split.
  - right. exists (zip_with Net.byte_and p (Net.cidr_mask_bytes 16 n)), n.
    assert (length (zip_with Net.byte_and p (Net.cidr_mask_bytes 16 n)) = 16%nat)
      as Hq by (rewrite length_zip_with, cidr_mask_bytes_length; lia).
    split; [done|]. split.
    + destruct (Net.To4 _) as [x|] eqn:E; [|done]. exfalso.
      apply (v4_in_v6_String _ x n Hq E). cbv zeta. by rewrite <- Hc.
    + split; [done|]. rewrite Hc. cbn [Net.IPNet_IP Net.IPNet_Mask].
      split; [done|]. split; [done|]. apply zip_byte_and_idem.
Qed.

(** The CIDRs whose text parses to themselves are the IPv4 and the IPv6
    networks. *)
Lemma canonical_iff_network (c : LibNet.IPNet) :
  canonical c <-> network_v4 c \/ network_v6 c.
Proof.
  split; [apply canonical_network|].
  intros [H|H]; [by apply network_v4_canonical|by apply network_v6_canonical].
Qed.

(** ** Decoding an encoded key *)

Lemma block_path_of_encoded (v seg : gostring) :
  v = str "4" \/ v = str "6" ->
  seg <> [] -> "/"%char ∉ seg ->
  block_segment (str "/calico/ipam/v2/assignment/ipv" ++ v ++ str "/block/" ++ seg)
  = Some seg.
Proof.
  intros Hv Hne Hno. apply block_segment_spec. exists [], v.
  split; [done|]. split; [by left|]. split; [|done].
  destruct Hv as [-> | ->]; by repeat split.
Qed.

(** What the decoder makes of the path of a key whose CIDR is set: it
    parses the text of the CIDR. *)
Lemma decode_encoded (options : Model.BlockListOptions) (key : Model.BlockKey)
      (ip : list byte) :
  Net.IPNet_IP (Model.CIDR key) = Some ip ->
  Model.KeyFromDefaultPath options (fst (Model.defaultPath key)) =
  match Net.ParseCIDR (LibNet.String (Model.CIDR key)) with
  | None => Panicked
  | Some (_, cidr) => Returned (Some {| Model.CIDR := cidr |})
  end.
Proof.
  intros Hip. rewrite (defaultPath_set key ip Hip). cbn [fst].
  rewrite KeyFromDefaultPath_cases.
  destruct (IPNet_String_shape (Model.CIDR key)) as [E|(a & m & E & Ha & Hm)];
    rewrite E.
  - rewrite block_path_of_encoded; [done|apply Version_4_or_6|done|].
    vm_compute. intros H. by repeat (apply elem_of_cons in H as [H|H]; [done|]);
      apply elem_of_nil in H.
  - assert (("/"%char ∉ a) /\ ("-"%char ∉ a) /\ ("/"%char ∉ m))
      as (Ha1 & Ha2 & Hm1).
    { rewrite !Forall_forall in *. unfold plain in *. naive_solver. }
    rewrite replace_first_split by done.
    rewrite block_path_of_encoded; [|apply Version_4_or_6|by destruct a|].
    + by rewrite replace_first_split.
    + rewrite not_elem_of_app, not_elem_of_cons. naive_solver.
Qed.

(** C1, amended: for every block key whose CIDR is set, [defaultPath]
    returns a path without error, and [KeyFromDefaultPath] returns the key
    back from that path exactly when the CIDR is a network as [ParseCIDR]
    gives it: an IPv4 network (a 4-byte address and the 4-byte mask of a
    prefix length up to 32) or an IPv6 network (a 16-byte address that is
    not an IPv4 address and the 16-byte mask of a prefix length up to 128),
    with no bit of the address set outside the mask. *)
Theorem decode_encode_roundtrip
        (options : Model.BlockListOptions) (key : Model.BlockKey) :
  Net.IPNet_IP (Model.CIDR key) <> None ->
  snd (Model.defaultPath key) = None
  /\ (Model.KeyFromDefaultPath options (fst (Model.defaultPath key))
      = Returned (Some key)
      <-> network_v4 (Model.CIDR key) \/ network_v6 (Model.CIDR key)).
Proof.
  intros Hset. destruct (Net.IPNet_IP (Model.CIDR key)) as [ip|] eqn:Hip; [|done].
  split; [by rewrite (defaultPath_set key ip Hip)|].
  rewrite <- canonical_iff_network.
  rewrite (decode_encoded options key ip Hip). unfold canonical.
  destruct key as [c]. cbn [Model.CIDR].
  destruct (Net.ParseCIDR (LibNet.String c)) as [[ip' c']|]; split.
  - intros [= ->]. by exists ip'.
  - intros [ip'' [= _ ->]]. done.
  - done.
  - by intros [ip'' ?].
Qed.

Lemma decode_encode_roundtrip_witness :
  snd (Model.defaultPath key_10_0_0_0_30) = None
  /\ (Model.KeyFromDefaultPath any_version
        (fst (Model.defaultPath key_10_0_0_0_30))
      = Returned (Some key_10_0_0_0_30)
      <-> network_v4 (Model.CIDR key_10_0_0_0_30)
          \/ network_v6 (Model.CIDR key_10_0_0_0_30)).
Proof. apply decode_encode_roundtrip. discriminate. Defined.

(** Two IPv6 keys, their paths, and the keys read back from the paths. *)
Lemma decode_encode_fe80_64 :
  Model.defaultPath key_fe80_64
  = (str "/calico/ipam/v2/assignment/ipv6/block/fe80::-64", None)
  /\ Model.KeyFromDefaultPath any_version (fst (Model.defaultPath key_fe80_64))
     = Returned (Some key_fe80_64).
Proof. split; vm_compute; reflexivity. Qed.

Lemma decode_encode_2001_db8_96 :
  Model.defaultPath key_2001_db8_96
  = (str "/calico/ipam/v2/assignment/ipv6/block/2001:db8:0:0:1::-96", None)
  /\ Model.KeyFromDefaultPath any_version
       (fst (Model.defaultPath key_2001_db8_96))
     = Returned (Some key_2001_db8_96).
Proof. split; vm_compute; reflexivity. Qed.

(** The claim C1 as the spec has it fails: the key of [10.0.0.1/24] has its
    CIDR set, and its path decodes to the key of [10.0.0.0/24]. *)
Lemma decode_encode_loses_host_bits :
  Net.IPNet_IP (Model.CIDR key_10_0_0_1_24) <> None
  /\ Model.defaultPath key_10_0_0_1_24
     = (str "/calico/ipam/v2/assignment/ipv4/block/10.0.0.1-24", None)
  /\ Model.KeyFromDefaultPath any_version
       (fst (Model.defaultPath key_10_0_0_1_24))
     = Returned (Some key_10_0_0_0_24)
  /\ key_10_0_0_0_24 <> key_10_0_0_1_24.
Proof. repeat split; try done; vm_compute; reflexivity. Qed.

(** ** The partition of the ledger *)














(** The ledger in use: the table, the free list and the attributes after
    two allocations, a release with an ordinal that is free by then, and
    the compaction that drops the record of [h1]. *)
Lemma ledger_in_use_state :
  Ledger.allocations ledger_in_use = [None; None; Some 0; None]
  /\ Ledger.unallocated ledger_in_use = [3; 0; 1]
  /\ Ledger.attributes ledger_in_use
     = [ {| Model.AttrPrimary := Some (str "h2");
            Model.AttrSecondary := Some ∅ |} ]
  /\ snd (Ledger.Release
            (allocated (allocated ledger_10_0_0_0_30 2 (str "h1")) 1 (str "h2"))
            [0; 1; 1])
     = [Ledger.AlreadyUnallocated 1].
Proof. by repeat split. Qed.




(** The example of the spec: the ledger of [10.0.0.0/30] starts with four
    empty entries and the free list [0,1,2,3]; allocating two ordinals with
    the handle [h1] claims [0,1] and records one attribute. *)
Lemma Allocate_example :
  Ledger.allocations ledger_10_0_0_0_30 = [None; None; None; None]
  /\ Ledger.unallocated ledger_10_0_0_0_30 = [0; 1; 2; 3]
  /\ exists b',
      Ledger.Allocate ledger_10_0_0_0_30 2 (Some (str "h1")) ∅ (str "node")
      = inl (b', [0; 1], 0%nat)
      /\ Ledger.allocations b' = [Some 0; Some 0; None; None]
      /\ Ledger.unallocated b' = [2; 3]
      /\ Ledger.attributes b'
         = [ {| Model.AttrPrimary := Some (str "h1");
                Model.AttrSecondary := Some ∅ |} ].
Proof.
  split; [reflexivity|]. split; [reflexivity|].
  eexists. split; [reflexivity|]. by repeat split.
Qed.

(** ** The serialized allocation block *)

Lemma slice_shape {A : Type} (enc : A -> Json.value) (P : Json.value -> Prop)
      (s : option (list A)) :
  (forall a, P (enc a)) ->
  match s with
  | None => Json.slice enc s = Json.Null
  | Some _ => Json.is_array_of P (Json.slice enc s)
  end.
Proof.
  intros HP. destruct s as [l|]; [|done]. exists (map enc l).
  split; [done|]. apply Forall_forall. intros v Hv.
  apply list_elem_of_In, in_map_iff in Hv as (a & <- & _). apply HP.
Qed.

Lemma MarshalAllocationAttribute_record (a : Model.AllocationAttribute) :
  Json.is_attribute_record (Json.MarshalAllocationAttribute a).
Proof. reflexivity. Qed.

(** C8, amended: for every allocation block, whatever the encoding of its
    CIDR, the serialized block is an object with exactly the members [cidr],
    [hostAffinity], [strictAffinity], [allocations], [unallocated] and
    [attributes], in this order; [allocations] is an array of integers or
    nulls, [unallocated] an array of integers and [attributes] an array of
    objects with exactly the members [handle_id] and [secondary], but each
    of the three is [null] when the slice of the block is [nil]. *)
Theorem MarshalAllocationBlock_shape
        (MarshalIPNet : LibNet.IPNet -> Json.value)
        (b : Model.AllocationBlock) :
  exists cidr host allocations unallocated attributes,
    Json.MarshalAllocationBlock MarshalIPNet b =
    Json.Object
      [ (str "cidr", cidr);
        (str "hostAffinity", host);
        (str "strictAffinity", Json.Bool (Model.StrictAffinity b));
        (str "allocations", allocations);
        (str "unallocated", unallocated);
        (str "attributes", attributes) ]
    /\ (host = Json.Null \/ exists s, host = Json.String s)
    /\ match Model.Allocations b with
       | None => allocations = Json.Null
       | Some _ => Json.is_array_of Json.is_nullable_integer allocations
       end
    /\ match Model.Unallocated b with
       | None => unallocated = Json.Null
       | Some _ => Json.is_array_of Json.is_integer unallocated
       end
    /\ match Model.Attributes b with
       | None => attributes = Json.Null
       | Some _ => Json.is_array_of Json.is_attribute_record attributes
       end.
Proof.
  eexists _, _, _, _, _. split; [reflexivity|]. split; [|split; [|split]].
  - destruct (Model.HostAffinity b); [right|left]; eauto.
  - apply slice_shape. intros [n|]; [right; by exists n|by left].
  - apply slice_shape. intros n. by exists n.
  - apply slice_shape. apply MarshalAllocationAttribute_record.
Qed.

(** The claim C8 as the spec has it fails: the zero value of the block is
    serialized with [null], not arrays, for [allocations], [unallocated] and
    [attributes]. *)
Lemma MarshalAllocationBlock_nil_slices :
  Json.member (str "allocations")
              (Json.MarshalAllocationBlock cidr_as_text zero_block)
  = Some Json.Null
  /\ Json.member (str "unallocated")
                 (Json.MarshalAllocationBlock cidr_as_text zero_block)
     = Some Json.Null
  /\ Json.member (str "attributes")
                 (Json.MarshalAllocationBlock cidr_as_text zero_block)
     = Some Json.Null
  /\ ~ Json.is_array_of Json.is_nullable_integer Json.Null.
Proof.
  repeat split; try reflexivity. intros (l & H & _). discriminate H.
Qed.

(** ** More on the decoder *)

Lemma block_path_unique (path seg seg' : gostring) :
  block_path path seg -> block_path path seg' -> seg = seg'.
Proof.
  intros H H'. apply block_segment_spec in H, H'. congruence.
Qed.

(** X1: [KeyFromDefaultPath] returns a key exactly for the block paths
    whose segment, with its first dash turned into a slash, parses as a
    CIDR, and the key holds the network [ParseCIDR] returns; it panics
    exactly for the block paths whose segment does not parse. *)
Theorem KeyFromDefaultPath_outcomes
        (options : Model.BlockListOptions) (path : gostring) :
  (forall key,
      Model.KeyFromDefaultPath options path = Returned (Some key)
      <-> exists seg ip,
          block_path path seg
          /\ Net.ParseCIDR (replace_first "-"%char "/"%char seg)
             = Some (ip, Model.CIDR key))
  /\ (Model.KeyFromDefaultPath options path = Panicked
      <-> exists seg,
          block_path path seg
          /\ Net.ParseCIDR (replace_first "-"%char "/"%char seg) = None).
Proof.
  rewrite KeyFromDefaultPath_cases. split; [intros key|]; split.
  - destruct (block_segment path) as [seg|] eqn:Hs; [|done].
    destruct (Net.ParseCIDR _) as [[ip cidr]|] eqn:Hc; [|done].
    intros [= <-]. exists seg, ip. split; [by apply block_segment_spec|done].
  - intros (seg & ip & Hp & Hc). apply block_segment_spec in Hp.
    rewrite Hp, Hc. by destruct key.
  - destruct (block_segment path) as [seg|] eqn:Hs; [|done].
    destruct (Net.ParseCIDR _) as [[ip cidr]|] eqn:Hc; [done|].
    intros _. exists seg. split; [by apply block_segment_spec|done].
  - intros (seg & Hp & Hc). apply block_segment_spec in Hp. by rewrite Hp, Hc.
Qed.

(** X2: the decoder reads the segment only: two block paths with the same
    segment give the same result, whatever the options, the extra leading
    slash and the character after [ipv]. *)
Theorem KeyFromDefaultPath_same_segment
        (o1 o2 : Model.BlockListOptions) (p1 p2 seg : gostring) :
  block_path p1 seg -> block_path p2 seg ->
  Model.KeyFromDefaultPath o1 p1 = Model.KeyFromDefaultPath o2 p2.
Proof.
  intros H1 H2. rewrite !KeyFromDefaultPath_cases.
  apply block_segment_spec in H1, H2. by rewrite H1, H2.
Qed.

Lemma KeyFromDefaultPath_same_segment_witness :
  Model.KeyFromDefaultPath {| Model.IPVersion := 4 |}
    (str "/calico/ipam/v2/assignment/ipv4/block/10.0.0.0-30")
  = Model.KeyFromDefaultPath {| Model.IPVersion := 6 |}
      (str "//calico/ipam/v2/assignment/ipvX/block/10.0.0.0-30").
Proof.
  apply (KeyFromDefaultPath_same_segment _ _ _ _ (str "10.0.0.0-30"));
    apply block_segment_spec; vm_compute; reflexivity.
Defined.

Lemma block_path_last (path seg : gostring) :
  block_path path seg -> last path <> Some "/"%char.
Proof.
  intros (lead & v & -> & _ & _ & Hne & Hno) Hlast.
  rewrite !app_assoc in Hlast. rewrite last_app in Hlast.
  destruct (last seg) as [c|] eqn:E.
  - injection Hlast as ->. apply Hno. apply last_Some in E as [l ->].
    apply elem_of_app. right. by left.
  - apply last_None in E. done.
Qed.

Lemma defaultPathRoot_last (options : Model.BlockListOptions) :
  last (Model.defaultPathRoot options) = Some "/"%char.
Proof.
  unfold Model.defaultPathRoot. destruct (negb _); [|reflexivity].
  rewrite !app_assoc. change (str "/") with ["/"%char]. apply last_snoc.
Qed.

(** X3: the root of a listing is never a block path: [KeyFromDefaultPath]
    returns the [nil] key for every [defaultPathRoot]. *)
Theorem KeyFromDefaultPath_of_root (o o' : Model.BlockListOptions) :
  ~ is_block_path (Model.defaultPathRoot o')
  /\ Model.KeyFromDefaultPath o (Model.defaultPathRoot o') = Returned None.
Proof.
  assert (~ is_block_path (Model.defaultPathRoot o')) as Hno.
  { intros [seg H]. apply block_path_last in H.
    by rewrite defaultPathRoot_last in H. }
  split; [done|]. rewrite KeyFromDefaultPath_cases.
  destruct (block_segment _) as [seg|] eqn:Hs; [|done].
  destruct Hno. exists seg. by apply block_segment_spec.
Qed.

(** ** Block paths under the root of a listing *)

Lemma HasPrefix_app_same (p s t : gostring) :
  Strings.HasPrefix (p ++ s) (p ++ t) = Strings.HasPrefix s t.
Proof. induction p as [|a p IH]; simpl; [done|]. by rewrite byte_eqb_refl. Qed.

(** Two texts without [/], each followed by a [/]: one begins with the
    other only when they are the same. *)
Lemma HasPrefix_to_slash (a b r : gostring) :
  "/"%char ∉ a -> "/"%char ∉ b ->
  Strings.HasPrefix (a ++ "/"%char :: r) (b ++ ["/"%char]) = true <-> a = b.
Proof.
  revert a. induction b as [|y b IH]; intros [|x a] Ha Hb; cbn [app Strings.HasPrefix].
  - by rewrite byte_eqb_refl.
  - apply not_elem_of_cons in Ha as [Hx _].
    assert (byte_eqb x "/"%char = false) as -> by (apply byte_eqb_false; congruence).
    done.
  - apply not_elem_of_cons in Hb as [Hy _].
    assert (byte_eqb "/"%char y = false) as -> by by apply byte_eqb_false.
    done.
  - apply not_elem_of_cons in Ha as [_ Ha]. apply not_elem_of_cons in Hb as [_ Hb].
    rewrite andb_true_iff, byte_eqb_true, (IH a Ha Hb).
    split; [by intros [-> ->]|by intros [= -> ->]].
Qed.

Lemma fmt_d_no_slash (n : Z) : "/"%char ∉ fmt_d n.
Proof.
  assert (forall v, "/"%char ∉ Net.uitoa v) as Hu.
  { intros v Hin. pose proof (plain_uitoa v) as Hp.
    rewrite Forall_forall in Hp. by destruct (Hp _ Hin). }
  unfold fmt_d. destruct (n <? 0); [|apply Hu].
  change (str "-") with ["-"%char]. cbn [app].
  apply not_elem_of_cons. split; [done|apply Hu].
Qed.

Lemma fmt_d_inj (n m : Z) :
  - 2 ^ 63 <= n < 2 ^ 63 -> - 2 ^ 63 <= m < 2 ^ 63 ->
  fmt_d n = fmt_d m -> n = m.
Proof.
  intros Hn Hm E. apply fmt_d_decimal in Hn, Hm. congruence.
Qed.

(** X4: the path of a key whose CIDR is set begins with the root of a
    listing exactly when the listing is of any version ([IPVersion] 0) or
    of the version of the CIDR. *)
Theorem defaultPath_under_root
        (key : Model.BlockKey) (options : Model.BlockListOptions) :
  Net.IPNet_IP (Model.CIDR key) <> None ->
  - 2 ^ 63 <= Model.IPVersion options < 2 ^ 63 ->
  (Strings.HasPrefix (fst (Model.defaultPath key))
                     (Model.defaultPathRoot options) = true
   <-> Model.IPVersion options = 0
       \/ Model.IPVersion options = LibNet.Version (Model.CIDR key)).
Proof.
  intros Hset Hrange.
  destruct (Net.IPNet_IP (Model.CIDR key)) as [ip|] eqn:Hip; [|done].
  rewrite (defaultPath_set key ip Hip). cbn [fst].
  unfold Model.defaultPathRoot.
  change (str "/calico/ipam/v2/assignment/ipv")
    with (str "/calico/ipam/v2/assignment/" ++ str "ipv").
  rewrite <- !app_assoc.
  destruct (Z.eqb_spec (Model.IPVersion options) 0) as [E0|Hne]; cbn [negb].
  - split; [by left|]. intros _.
    rewrite <- (app_nil_r (str "/calico/ipam/v2/assignment/")) at 2.
    by rewrite HasPrefix_app_same.
  - rewrite !HasPrefix_app_same. change (str "/block/") with ("/"%char :: str "block/").
    change (str "/") with ["/"%char]. cbn [app].
    rewrite HasPrefix_to_slash by apply fmt_d_no_slash.
    split.
    + intros E. right. symmetry. apply fmt_d_inj; [|done|done].
      unfold LibNet.Version. destruct (Net.To4 _); lia.
    + intros [?| ->]; done.
Qed.

Lemma defaultPath_under_root_witness :
  Strings.HasPrefix (fst (Model.defaultPath key_10_0_0_0_30))
                    (Model.defaultPathRoot {| Model.IPVersion := 4 |}) = true
  <-> 4 = 0 \/ 4 = LibNet.Version (Model.CIDR key_10_0_0_0_30).
Proof.
  apply (defaultPath_under_root key_10_0_0_0_30 {| Model.IPVersion := 4 |}).
  - discriminate.
  - cbn. lia.
Defined.

(** ** Every encoded path is a block path *)

Lemma defaultPath_block_segment (key : Model.BlockKey) (ip : list byte) :
  Net.IPNet_IP (Model.CIDR key) = Some ip ->
  block_segment (fst (Model.defaultPath key))
  = Some (replace_first "/"%char "-"%char (LibNet.String (Model.CIDR key))).
Proof.
  intros Hip. rewrite (defaultPath_set key ip Hip). cbn [fst].
  destruct (IPNet_String_shape (Model.CIDR key)) as [E|(a & m & E & Ha & Hm)];
    rewrite E.
  - apply block_path_of_encoded; [apply Version_4_or_6|done|].
    vm_compute. intros H.
    by repeat (apply elem_of_cons in H as [H|H]; [done|]);
      apply elem_of_nil in H.
  - assert (("/"%char ∉ a) /\ ("/"%char ∉ m)) as (Ha1 & Hm1).
    { rewrite !Forall_forall in *. unfold plain in *. naive_solver. }
    rewrite replace_first_split by done.
    apply block_path_of_encoded; [apply Version_4_or_6|by destruct a|].
    rewrite not_elem_of_app, not_elem_of_cons. naive_solver.
Qed.

(** X5: the path of a key whose CIDR is set is a block path, with the text
    of the CIDR, its first slash dashed, for a segment: the decoder never
    answers [nil] for it. *)
Theorem defaultPath_is_block_path
        (options : Model.BlockListOptions) (key : Model.BlockKey) :
  Net.IPNet_IP (Model.CIDR key) <> None ->
  block_path (fst (Model.defaultPath key))
             (replace_first "/"%char "-"%char (LibNet.String (Model.CIDR key)))
  /\ Model.KeyFromDefaultPath options (fst (Model.defaultPath key))
     <> Returned None.
Proof.
  intros Hset.
  destruct (Net.IPNet_IP (Model.CIDR key)) as [ip|] eqn:Hip; [|done].
  pose proof (defaultPath_block_segment key ip Hip) as Hseg.
  split; [by apply block_segment_spec|].
  rewrite KeyFromDefaultPath_cases, Hseg.
  by destruct (Net.ParseCIDR _) as [[? ?]|].
Qed.

Lemma defaultPath_is_block_path_witness :
  block_path (fst (Model.defaultPath key_10_0_0_1_24))
             (replace_first "/"%char "-"%char
                            (LibNet.String (Model.CIDR key_10_0_0_1_24)))
  /\ Model.KeyFromDefaultPath any_version (fst (Model.defaultPath key_10_0_0_1_24))
     <> Returned None.
Proof. apply defaultPath_is_block_path. discriminate. Defined.

(** ** The roots of listings *)

(** X6: the root of the listing of any version covers the root of every
    listing, and the roots of two versions other than 0 cover one another
    only when the versions are the same. *)
Theorem defaultPathRoot_scopes (o1 o2 : Model.BlockListOptions) :
  - 2 ^ 63 <= Model.IPVersion o1 < 2 ^ 63 ->
  - 2 ^ 63 <= Model.IPVersion o2 < 2 ^ 63 ->
  (Model.IPVersion o2 = 0 ->
   Strings.HasPrefix (Model.defaultPathRoot o1) (Model.defaultPathRoot o2) = true)
  /\ (Model.IPVersion o1 <> 0 -> Model.IPVersion o2 <> 0 ->
      (Strings.HasPrefix (Model.defaultPathRoot o1) (Model.defaultPathRoot o2)
       = true
       <-> Model.IPVersion o1 = Model.IPVersion o2)).
Proof.
  intros H1 H2. unfold Model.defaultPathRoot. split.
  - intros ->. cbn [Z.eqb negb]. destruct (negb _).
    + rewrite <- (app_nil_r (str "/calico/ipam/v2/assignment/")) at 2.
      by rewrite HasPrefix_app_same.
    + rewrite <- (app_nil_r (str "/calico/ipam/v2/assignment/")) at 1.
      apply HasPrefix_app.
  - intros N1 N2.
    destruct (Z.eqb_spec (Model.IPVersion o1) 0) as [|_]; [done|].
    destruct (Z.eqb_spec (Model.IPVersion o2) 0) as [|_]; [done|].
    cbn [negb]. rewrite !HasPrefix_app_same.
    change (str "/") with ["/"%char].
    rewrite HasPrefix_to_slash by apply fmt_d_no_slash.
    split; [by apply fmt_d_inj|by intros ->].
Qed.

Lemma defaultPathRoot_scopes_witness :
  (0 = 0 ->
   Strings.HasPrefix (Model.defaultPathRoot {| Model.IPVersion := 4 |})
                     (Model.defaultPathRoot {| Model.IPVersion := 0 |}) = true)
  /\ (4 <> 0 -> 0 <> 0 ->
      (Strings.HasPrefix (Model.defaultPathRoot {| Model.IPVersion := 4 |})
                         (Model.defaultPathRoot {| Model.IPVersion := 0 |})
       = true
       <-> 4 = 0)).
Proof.
  apply (defaultPathRoot_scopes {| Model.IPVersion := 4 |}
                                {| Model.IPVersion := 0 |}); cbn; lia.
Defined.

(** ** The keys the decoder returns *)

Lemma ParseCIDR_masked (s : gostring) (ip : Net.IP) (c : Net.IPNet) :
  Net.ParseCIDR s = Some (ip, c) -> masked_network c.
Proof.
  intros H. pose proof (ParseCIDR_cases _ _ _ H) as Hc. cbv zeta in Hc.
  destruct Hc as [(a & b & c0 & d & n & Hn & _ & ->)|(p & n & Hn & _ & Hp & ->)].
  - pose proof (cidr_mask_bytes_length 4 n) as Hl.
    exists (zip_with Net.byte_and [a; b; c0; d] (Net.cidr_mask_bytes 4 n)), n.
    assert (length (zip_with Net.byte_and [a; b; c0; d]
                             (Net.cidr_mask_bytes 4 n)) = 4%nat) as ->
      by (rewrite length_zip_with, Hl; done).
    cbn [Net.IPNet_IP Net.IPNet_Mask]. split; [done|]. split; [done|].
    split; [by left|]. apply zip_byte_and_idem.
  - pose proof (cidr_mask_bytes_length 16 n) as Hl.
    exists (zip_with Net.byte_and p (Net.cidr_mask_bytes 16 n)), n.
    assert (length (zip_with Net.byte_and p (Net.cidr_mask_bytes 16 n))
            = 16%nat) as -> by (rewrite length_zip_with, Hl; lia).
    cbn [Net.IPNet_IP Net.IPNet_Mask]. split; [done|]. split; [done|].
    split; [by right|]. apply zip_byte_and_idem.
Qed.

(** X7: every key the decoder returns holds a masked network (4 or 16
    bytes of address, the prefix mask of that length, no bit of the address
    outside the mask), so its CIDR is set and [defaultPath] encodes it
    without error. *)
Theorem KeyFromDefaultPath_key_masked
        (options : Model.BlockListOptions) (path : gostring)
        (key : Model.BlockKey) :
  Model.KeyFromDefaultPath options path = Returned (Some key) ->
  masked_network (Model.CIDR key) /\ snd (Model.defaultPath key) = None.
Proof.
  rewrite KeyFromDefaultPath_cases.
  destruct (block_segment path) as [seg|]; [|done].
  destruct (Net.ParseCIDR _) as [[ip cidr]|] eqn:Hc; [|done].
  intros [= <-]. cbn [Model.CIDR].
  pose proof (ParseCIDR_masked _ _ _ Hc) as Hm. split; [done|].
  destruct Hm as (p & n & Hip & _). unfold Model.defaultPath.
  cbn [Model.CIDR]. by rewrite Hip.
Qed.

Lemma KeyFromDefaultPath_key_masked_witness :
  masked_network (Model.CIDR key_10_0_0_0_24)
  /\ snd (Model.defaultPath key_10_0_0_0_24) = None.
Proof.
  apply (KeyFromDefaultPath_key_masked any_version
           (str "/calico/ipam/v2/assignment/ipv4/block/10.0.0.1-24")).
  vm_compute. reflexivity.
Defined.

(** [dtoi] reads decimal digits only. *)
Lemma dtoi_from_reads (s : gostring) :
  forall (n : N) (i : nat) n' j ok,
    Net.dtoi_from n i s = (n', j, ok) ->
    (j <= i + length s)%nat
    /\ (j = (i + length s)%nat -> ok = true -> forallb Net.is_digit s = true)
    /\ (ok = true -> j <> 0%nat).
Proof.
  induction s as [|c s IH]; intros n i n' j ok; cbn [Net.dtoi_from length].
  - intros [= <- <- <-]. split; [lia|]. split; [done|].
    intros H. apply negb_true_iff, Nat.eqb_neq in H. done.
  - destruct (Net.is_digit c) eqn:Ec.
    + destruct (_ <=? _)%N.
      * intros [= <- <- <-]. split; [lia|]. split; [lia|done].
      * intros H. apply IH in H as (H1 & H2 & H3). split; [lia|].
        split; [|done]. intros Hj Hok. cbn [forallb]. rewrite Ec.
        apply H2; [lia|done].
    + intros [= <- <- <-]. split; [lia|]. split; [lia|].
      intros H. apply negb_true_iff, Nat.eqb_neq in H. done.
Qed.

Lemma ParseCIDR_text (a m : gostring) (ip : Net.IP) (c : Net.IPNet) :
  "/"%char ∉ a ->
  Net.ParseCIDR (a ++ "/"%char :: m) = Some (ip, c) ->
  m <> [] /\ forallb Net.is_digit m = true.
Proof.
  intros Ha. unfold Net.ParseCIDR. change (str "/") with ["/"%char].
  rewrite (Index_byte_first _ _ _ Ha).
  destruct (Z.ltb_spec (Z.of_nat (length a)) 0); [lia|].
  rewrite Nat2Z.id, take_app_length.
  replace (drop (length a + 1) (a ++ "/"%char :: m)) with m.
  2:{ replace (a ++ "/"%char :: m) with ((a ++ ["/"%char]) ++ m)
        by by rewrite <- app_assoc.
      rewrite drop_app_length'; [done|]. rewrite length_app. simpl. lia. }
  cbv zeta. destruct (Net.dtoi m) as [[n j] ok] eqn:Ed.
  apply dtoi_from_reads in Ed as (_ & Hall & Hne).
  assert (negb ok || negb (j =? length m)%nat = false -> 
          m <> [] /\ forallb Net.is_digit m = true) as Hgood.
  { intros [Hok Hj]%orb_false_iff. apply negb_false_iff in Hok, Hj.
    apply Nat.eqb_eq in Hj. split; [|by apply Hall].
    intros ->. by apply Hne. }
  destruct (Net.parseIPv4 a) as [ip4|].
  - destruct (negb ok || negb (j =? length m)%nat); [done|]. intros _.
    by apply Hgood.
  - destruct (Net.parseIPv6 a) as [ip6|]; [|done].
    destruct (negb ok || negb (j =? length m)%nat); [done|]. intros _.
    by apply Hgood.
Qed.

(** X8: the decoder returns a key only for a segment with a dash followed
    by decimal digits, and nothing else, up to the end: an address, a dash
    and a prefix length. A segment without a dash, with a second dash or
    with a mask in hexadecimal gives no key. *)
Theorem KeyFromDefaultPath_key_segment
        (options : Model.BlockListOptions) (path seg : gostring)
        (key : Model.BlockKey) :
  block_path path seg ->
  Model.KeyFromDefaultPath options path = Returned (Some key) ->
  exists a m,
    seg = a ++ "-"%char :: m
    /\ ("-"%char ∉ a)
    /\ m <> []
    /\ forallb Net.is_digit m = true.
Proof.
  intros Hp. rewrite KeyFromDefaultPath_cases.
  pose proof Hp as (_ & _ & _ & _ & _ & _ & Hno).
  apply block_segment_spec in Hp. rewrite Hp.
  destruct (Net.ParseCIDR _) as [[ip cidr]|] eqn:Hc; [|done]. intros _.
  destruct (decide ("-"%char ∈ seg)) as [Hin|Hnot].
  - apply list_elem_of_split_l in Hin as (a & m & -> & Ha).
    rewrite replace_first_split in Hc by done.
    apply ParseCIDR_text in Hc as [Hm Hd].
    + by exists a, m.
    + intros Hin. apply Hno, elem_of_app. by left.
  - rewrite replace_first_notin in Hc by done.
    unfold Net.ParseCIDR in Hc. change (str "/") with ["/"%char] in Hc.
    by rewrite (Index_byte_notin _ _ Hno) in Hc.
Qed.

Lemma KeyFromDefaultPath_key_segment_witness :
  exists a m,
    str "10.0.0.1-24" = a ++ "-"%char :: m
    /\ ("-"%char ∉ a)
    /\ m <> []
    /\ forallb Net.is_digit m = true.
Proof.
  apply (KeyFromDefaultPath_key_segment any_version
           (str "/calico/ipam/v2/assignment/ipv4/block/10.0.0.1-24")
           (str "10.0.0.1-24") key_10_0_0_0_24).
  - apply block_segment_spec. vm_compute. reflexivity.
  - vm_compute. reflexivity.
Defined.

(** ** Decoding the path of a key masks its address *)

Lemma drop_after_slash (a m : gostring) :
  drop (length a + 1) (a ++ "/"%char :: m) = m.
Proof.
  replace (a ++ "/"%char :: m) with ((a ++ ["/"%char]) ++ m)
    by by rewrite <- app_assoc.
  rewrite drop_app_length'; [done|]. rewrite length_app. simpl. lia.
Qed.

Lemma ParseCIDR_String_v4 (a b c d : byte) (n : N) :
  (n <= 32)%N ->
  Net.ParseCIDR (LibNet.String
                   {| Net.IPNet_IP := Some [a; b; c; d];
                      Net.IPNet_Mask := Some (Net.cidr_mask_bytes 4 n) |})
  = Some (Some (Net.IPv4 a b c d),
          {| Net.IPNet_IP :=
               Some (zip_with Net.byte_and [a; b; c; d]
                              (Net.cidr_mask_bytes 4 n));
             Net.IPNet_Mask := Some (Net.cidr_mask_bytes 4 n) |}).
Proof.
  intros Hn. rewrite network_v4_String by done. unfold Net.ParseCIDR.
  set (addr := Net.uitoa (b2n a) ++ _).
  assert ("/"%char ∉ addr) as Hno.
  { pose proof (plain_IP_String (Some [a; b; c; d])) as Hp.
    change (Net.IP_String (Some [a; b; c; d])) with addr in Hp.
    rewrite Forall_forall in Hp. intros Hin. by destruct (Hp _ Hin). }
  change (str "/") with ["/"%char]. rewrite (Index_byte_first _ _ _ Hno).
  destruct (Z.ltb_spec (Z.of_nat (length addr)) 0); [lia|].
  rewrite Nat2Z.id, take_app_length, drop_after_slash.
  unfold addr. rewrite parseIPv4_dotted.
  rewrite <- (app_nil_r (Net.uitoa n)) at 1.
  rewrite dtoi_uitoa by (done || unfold Net.big; lia).
  cbv beta iota zeta. rewrite Nat.eqb_refl. cbn [negb orb].
  change (8 * N.of_nat Net.IPv4len)%N with 32%N.
  destruct (N.ltb_spec 32 n) as [|_]; [lia|].
  change (8 * Z.of_nat Net.IPv4len) with (8 * Z.of_nat 4).
  rewrite (CIDRMask_bytes 4) by (by left || simpl; lia).
  by rewrite IP_Mask_v4 by apply cidr_mask_bytes_length.
Qed.

Lemma ParseCIDR_String_v6 (p : list byte) (n : N) :
  length p = 16%nat -> Net.To4 (Some p) = None -> (n <= 128)%N ->
  Net.ParseCIDR (LibNet.String
                   {| Net.IPNet_IP := Some p;
                      Net.IPNet_Mask := Some (Net.cidr_mask_bytes 16 n) |})
  = Some (Some p,
          {| Net.IPNet_IP :=
               Some (zip_with Net.byte_and p (Net.cidr_mask_bytes 16 n));
             Net.IPNet_Mask := Some (Net.cidr_mask_bytes 16 n) |}).
Proof.
  intros Hp H4 Hn. rewrite network_v6_String by done. unfold Net.ParseCIDR.
  set (addr := Net.IP_String (Some p)).
  assert ("/"%char ∉ addr) as Hno.
  { pose proof (plain_IP_String (Some p)) as Hpl.
    rewrite Forall_forall in Hpl. intros Hin. by destruct (Hpl _ Hin). }
  change (str "/") with ["/"%char]. rewrite (Index_byte_first _ _ _ Hno).
  destruct (Z.ltb_spec (Z.of_nat (length addr)) 0); [lia|].
  rewrite Nat2Z.id, take_app_length, drop_after_slash.
  unfold addr. rewrite parseIPv4_no_dot by by apply IP_String_v6_no_dot.
  rewrite parseIPv6_IP_String by done.
  rewrite <- (app_nil_r (Net.uitoa n)) at 1.
  rewrite dtoi_uitoa by (done || unfold Net.big; lia).
  cbv beta iota zeta. rewrite Nat.eqb_refl. cbn [negb orb].
  change (8 * N.of_nat Net.IPv6len)%N with 128%N.
  destruct (N.ltb_spec 128 n) as [|_]; [lia|].
  change (8 * Z.of_nat Net.IPv6len) with (8 * Z.of_nat 16).
  rewrite (CIDRMask_bytes 16) by (by right || simpl; lia).
  by rewrite IP_Mask_v6 by (done || apply cidr_mask_bytes_length).
Qed.

(** X9: the path of a key with an address of 4 bytes, or of 16 bytes that
    is not an IPv4 address, and the prefix mask of that length decodes to
    the key of the network: the bits of the address outside the mask are
    cleared, and nothing else changes. *)
Theorem decode_encode_masks
        (options : Model.BlockListOptions) (key : Model.BlockKey)
        (p : list byte) (n : N) :
  Net.IPNet_IP (Model.CIDR key) = Some p ->
  Net.IPNet_Mask (Model.CIDR key) = Some (Net.cidr_mask_bytes (length p) n) ->
  (length p = 4%nat /\ (n <= 32)%N)
  \/ (length p = 16%nat /\ Net.To4 (Some p) = None /\ (n <= 128)%N) ->
  Model.KeyFromDefaultPath options (fst (Model.defaultPath key))
  = Returned (Some (masked_key p n)).
Proof.
  intros Hip Hmask Hlen. rewrite (decode_encoded options key p Hip).
  destruct key as [[ip mask]]. cbn [Model.CIDR Net.IPNet_IP Net.IPNet_Mask] in *.
  subst ip mask. unfold masked_key.
  destruct Hlen as [[Hl Hn]|(Hl & H4 & Hn)]; rewrite Hl.
  - destruct p as [|a [|b [|c [|d [|? ?]]]]]; try done.
    by rewrite ParseCIDR_String_v4.
  - by rewrite ParseCIDR_String_v6.
Qed.

Lemma decode_encode_masks_witness :
  Model.KeyFromDefaultPath any_version (fst (Model.defaultPath key_10_0_0_1_24))
  = Returned (Some (masked_key [n2b 10; n2b 0; n2b 0; n2b 1] 24)).
Proof.
  apply (decode_encode_masks any_version key_10_0_0_1_24
           [n2b 10; n2b 0; n2b 0; n2b 1] 24).
  - reflexivity.
  - reflexivity.
  - left. split; [reflexivity|lia].
Defined.

(** ** Keys of different networks have different paths *)

Lemma decode_encoded_network (options : Model.BlockListOptions)
      (key : Model.BlockKey) :
  network_v4 (Model.CIDR key) \/ network_v6 (Model.CIDR key) ->
  Model.KeyFromDefaultPath options (fst (Model.defaultPath key))
  = Returned (Some key).
Proof.
  intros Hnet.
  assert (exists ip, Net.IPNet_IP (Model.CIDR key) = Some ip) as [ip Hip].
  { destruct Hnet as [(a & b & c & d & n & _ & H & _)|(p & n & _ & _ & _ & H & _)];
      eauto. }
  rewrite (decode_encoded options key ip Hip).
  apply canonical_iff_network in Hnet as [ip' ->]. by destruct key.
Qed.

(** X10: two keys of IPv4 or IPv6 networks with the same path are the same
    key. *)
Theorem defaultPath_injective (k1 k2 : Model.BlockKey) :
  network_v4 (Model.CIDR k1) \/ network_v6 (Model.CIDR k1) ->
  network_v4 (Model.CIDR k2) \/ network_v6 (Model.CIDR k2) ->
  fst (Model.defaultPath k1) = fst (Model.defaultPath k2) ->
  k1 = k2.
Proof.
  intros H1 H2 E.
  pose proof (decode_encoded_network any_version k1 H1) as D1.
  pose proof (decode_encoded_network any_version k2 H2) as D2.
  rewrite E, D2 in D1. by injection D1.
Qed.

Lemma defaultPath_injective_witness :
  key_10_0_0_0_24 = masked_key [n2b 10; n2b 0; n2b 0; n2b 1] 24.
Proof.
  assert (network_v4 (Model.CIDR key_10_0_0_0_24)) as Hnet.
  { exists (n2b 10), (n2b 0), (n2b 0), (n2b 0), 24%N.
    split; [lia|]. by repeat split. }
  apply defaultPath_injective.
  - by left.
  - left. exact Hnet.
  - reflexivity.
Defined.

(** ** IPv4 networks in their long forms *)

Lemma cidr_mask_bytes_drop (k : nat) :
  forall (l : nat) (n : N),
    drop k (Net.cidr_mask_bytes (k + l) (8 * N.of_nat k + n))
    = Net.cidr_mask_bytes l n.
Proof.
  induction k as [|k IH]; intros l n.
  - cbn [Nat.add drop]. f_equal; lia.
  - cbn [Nat.add Net.cidr_mask_bytes].
    destruct (N.leb_spec 8 (8 * N.of_nat (S k) + n)) as [_|]; [|lia].
    cbn [drop]. rewrite <- (IH l n). do 2 f_equal. lia.
Qed.

Lemma To4_IPv4 (a b c d : byte) :
  Net.To4 (Some (Net.IPv4 a b c d)) = Some [a; b; c; d].
Proof. reflexivity. Qed.

(** The text of an IPv4 network is the same in all its forms. *)
Lemma ipv4_in_any_form_String (c : LibNet.IPNet) (a b c0 d : byte) (n : N) :
  ipv4_in_any_form c a b c0 d n ->
  LibNet.String c
  = LibNet.String {| Net.IPNet_IP := Some [a; b; c0; d];
                     Net.IPNet_Mask := Some (Net.cidr_mask_bytes 4 n) |}.
Proof.
  intros (Hn & Hip & Hmask). destruct c as [ip mask].
  cbn [Net.IPNet_IP Net.IPNet_Mask] in *.
  unfold LibNet.String, Net.IPNet_String, Net.networkNumberAndMask.
  cbn [Net.IPNet_IP Net.IPNet_Mask].
  assert (Net.To4 ip = Some [a; b; c0; d]) as ->
    by (destruct Hip as [-> | ->]; reflexivity).
  change (Net.To4 (Some [a; b; c0; d])) with (Some [a; b; c0; d]).
  destruct Hmask as [-> | ->]; cbn [Net.elems default from_option id];
    rewrite !cidr_mask_bytes_length; [done|].
  cbn [length Nat.eqb Net.IPv4len Net.IPv6len].
  change 96%N with (8 * N.of_nat 12)%N.
  change 16%nat with (12 + 4)%nat.
  by rewrite (cidr_mask_bytes_drop 12 4 n).
Qed.

(** X11: a key that holds an IPv4 network in any form, the address in 4
    bytes or in 16 and the prefix mask in 4 bytes or in 16, has the path of
    the form with 4 bytes, and that path decodes to the key of the network
    in 4 bytes, with the address masked. *)
Theorem decode_encode_ipv4_forms
        (options : Model.BlockListOptions) (key : Model.BlockKey)
        (a b c d : byte) (n : N) :
  ipv4_in_any_form (Model.CIDR key) a b c d n ->
  Model.defaultPath key
  = Model.defaultPath
      {| Model.CIDR := {| Net.IPNet_IP := Some [a; b; c; d];
                          Net.IPNet_Mask := Some (Net.cidr_mask_bytes 4 n) |} |}
  /\ Model.KeyFromDefaultPath options (fst (Model.defaultPath key))
     = Returned (Some (masked_key [a; b; c; d] n)).
Proof.
  intros Hform.
  assert (Model.defaultPath key
          = Model.defaultPath
              {| Model.CIDR :=
                   {| Net.IPNet_IP := Some [a; b; c; d];
                      Net.IPNet_Mask := Some (Net.cidr_mask_bytes 4 n) |} |})
    as Hpath.
  { pose proof (ipv4_in_any_form_String _ _ _ _ _ _ Hform) as Hs.
    destruct Hform as (_ & Hip & _). unfold Model.defaultPath.
    cbn [Model.CIDR Net.IPNet_IP]. rewrite Hs. unfold LibNet.Version.
    by destruct Hip as [-> | ->]. }
  split; [done|]. rewrite Hpath.
  rewrite (decode_encoded options
             {| Model.CIDR :=
                  {| Net.IPNet_IP := Some [a; b; c; d];
                     Net.IPNet_Mask := Some (Net.cidr_mask_bytes 4 n) |} |}
             [a; b; c; d] eq_refl).
  cbn [Model.CIDR].
  rewrite ParseCIDR_String_v4 by by destruct Hform. reflexivity.
Qed.

Lemma decode_encode_ipv4_forms_witness :
  Model.defaultPath key_10_0_0_1_24_long
  = Model.defaultPath
      {| Model.CIDR :=
           {| Net.IPNet_IP := Some [n2b 10; n2b 0; n2b 0; n2b 1];
              Net.IPNet_Mask := Some (Net.cidr_mask_bytes 4 24) |} |}
  /\ Model.KeyFromDefaultPath any_version
       (fst (Model.defaultPath key_10_0_0_1_24_long))
     = Returned (Some (masked_key [n2b 10; n2b 0; n2b 0; n2b 1] 24)).
Proof.
  apply (decode_encode_ipv4_forms any_version key_10_0_0_1_24_long
           (n2b 10) (n2b 0) (n2b 0) (n2b 1) 24).
  split; [lia|]. split; [by right|by right].
Defined.

(** ** Keys with an address of a wrong length *)

(** X12: [defaultPath] does not check the CIDR it encodes beyond its
    address being set. For an address that has neither 4 nor 16 bytes it
    returns, without error, a path that ends in [/block/<nil>]; the path is
    a block path, and [KeyFromDefaultPath] panics on it. *)
Theorem defaultPath_wrong_length
        (options : Model.BlockListOptions) (key : Model.BlockKey)
        (p : list byte) :
  Net.IPNet_IP (Model.CIDR key) = Some p ->
  length p <> 4%nat -> length p <> 16%nat ->
  snd (Model.defaultPath key) = None
  /\ block_path (fst (Model.defaultPath key)) (str "<nil>")
  /\ Model.KeyFromDefaultPath options (fst (Model.defaultPath key)) = Panicked.
Proof.
  intros Hip H4 H16.
  assert (LibNet.String (Model.CIDR key) = str "<nil>") as Hs.
  { unfold LibNet.String, Net.IPNet_String, Net.networkNumberAndMask, Net.To4.
    rewrite Hip. cbn [Net.elems default from_option id].
    apply Nat.eqb_neq in H4, H16.
    change Net.IPv4len with 4%nat. change Net.IPv6len with 16%nat.
    by rewrite H4, H16. }
  rewrite (decode_encoded options key p Hip).
  pose proof (defaultPath_block_segment key p Hip) as Hseg.
  rewrite (defaultPath_set key p Hip) in *. cbn [fst snd] in *.
  rewrite Hs in *. split; [done|]. split; [by apply block_segment_spec|].
  reflexivity.
Qed.

Lemma defaultPath_wrong_length_witness :
  snd (Model.defaultPath key_three_bytes) = None
  /\ block_path (fst (Model.defaultPath key_three_bytes)) (str "<nil>")
  /\ Model.KeyFromDefaultPath any_version
       (fst (Model.defaultPath key_three_bytes)) = Panicked.
Proof.
  apply (defaultPath_wrong_length any_version key_three_bytes
           [n2b 10; n2b 0; n2b 0]); [reflexivity|cbn; lia|cbn; lia].
Defined.

(** ** The variables of a template of confd *)

Section Etcd_properties.
Variable etcd_error : Type.
Variable etcd_Get : nat -> gostring -> list Confd.Response + etcd_error.
Variable filepath_Join : gostring -> gostring -> gostring.
Variable settings : Confd.Settings.

Lemma slash_to_underscore_no_slash (s : gostring) :
  "/"%char ∉ Confd.slash_to_underscore s.
Proof.
  unfold Confd.slash_to_underscore. intros Hin.
  apply list_elem_of_fmap in Hin as (c & E & _).
  destruct (byte_eqb c "/"%char) eqn:Ec; [done|].
  apply byte_eqb_false in Ec. congruence.
Qed.

(** The loops, as one pass over the responses read. *)
Lemma store_values_foldl (values : list Confd.Response) :
  forall vars,
    Confd.store_values settings values vars
    = foldl (fun m v => <[var_name (Confd.EtcdPrefix settings) (Confd.Key v)
                          := Json.String (Confd.Value v)]> m) vars values.
Proof. induction values as [|v values IH]; intros vars; [done|apply IH]. Qed.

Lemma get_keys_foldl (keys : list gostring) :
  forall i vars,
    fst (Confd.get_keys etcd_error etcd_Get filepath_Join settings i keys vars)
    = foldl (fun m v => <[var_name (Confd.EtcdPrefix settings) (Confd.Key v)
                          := Json.String (Confd.Value v)]> m) vars
            (responses_read etcd_Get filepath_Join (Confd.EtcdPrefix settings) i keys).
Proof.
  induction keys as [|key keys IH]; intros i vars;
    cbn [Confd.get_keys responses_read]; [done|].
  destruct (etcd_Get i _) as [values|err]; [|done].
  by rewrite IH, foldl_app, store_values_foldl.
Qed.

Lemma vars_of_GetValues (t : Confd.Template) :
  vars_of (fst (Confd.GetValuesFromEctd etcd_error etcd_Get filepath_Join settings t))
  = foldl (fun m v => <[var_name (Confd.EtcdPrefix settings) (Confd.Key v)
                        := Json.String (Confd.Value v)]> m) ∅
          (responses_read etcd_Get filepath_Join (Confd.EtcdPrefix settings)
                          0%nat (Confd.Keys t)).
Proof.
  unfold Confd.GetValuesFromEctd. rewrite <- get_keys_foldl.
  by destruct (Confd.get_keys _ _ _ _ _ _ _).
Qed.

(** A map filled from a list of responses holds, under a name, the value
    of the last response of that name. *)
Lemma foldl_insert_lookup (prefix : gostring) (l : list Confd.Response) :
  forall (m : gmap gostring Json.value) (k : gostring) (x : Json.value),
    foldl (fun m v => <[var_name prefix (Confd.Key v)
                        := Json.String (Confd.Value v)]> m) m l !! k = Some x
    <-> (exists l1 v l2,
            l = l1 ++ v :: l2
            /\ var_name prefix (Confd.Key v) = k
            /\ x = Json.String (Confd.Value v)
            /\ Forall (fun v' => var_name prefix (Confd.Key v') <> k) l2)
        \/ (m !! k = Some x
            /\ Forall (fun v' => var_name prefix (Confd.Key v') <> k) l).
Proof.
  induction l as [|v l IH]; intros m k x; cbn [foldl].
  - split; [by right|]. intros [(l1 & v & l2 & E & _)|[H _]]; [|done].
    by destruct l1.
  - rewrite IH. split.
    + intros [(l1 & v' & l2 & -> & Hk & Hx & Hall)|[Hm Hall]].
      * left. exists (v :: l1), v', l2. by rewrite app_comm_cons.
      * destruct (decide (var_name prefix (Confd.Key v) = k)) as [E|Hne].
        -- left. exists [], v, l. rewrite E, lookup_insert_eq in Hm.
           injection Hm as <-. done.
        -- right. rewrite lookup_insert_ne in Hm by done.
           split; [done|by constructor].
    + intros [(l1 & v' & l2 & E & Hk & Hx & Hall)|[Hm Hall]].
      * destruct l1 as [|v1 l1]; cbn [app] in E; injection E as <- ->.
        -- right. rewrite Hk, lookup_insert_eq. by subst x.
        -- left. by exists l1, v', l2.
      * apply Forall_cons in Hall as [Hne Hall]. right.
        by rewrite lookup_insert_ne.
Qed.

(** X13: after [GetValuesFromEctd] the map of variables is not [nil] and
    holds the responses read and nothing else, whatever it held before: a
    name has the value of the last response read that has this name, the
    key of the response without the prefix and with [_] for every [/]. *)
Theorem GetValuesFromEctd_last_wins
        (t : Confd.Template) (k : gostring) (x : Json.value) :
  Confd.Vars (fst (Confd.GetValuesFromEctd etcd_error etcd_Get filepath_Join settings t)) <> None
  /\ (vars_of (fst (Confd.GetValuesFromEctd etcd_error etcd_Get filepath_Join settings t)) !! k = Some x
      <-> exists l1 v l2,
          responses_read etcd_Get filepath_Join (Confd.EtcdPrefix settings)
                         0%nat (Confd.Keys t) = l1 ++ v :: l2
          /\ var_name (Confd.EtcdPrefix settings) (Confd.Key v) = k
          /\ x = Json.String (Confd.Value v)
          /\ Forall (fun v' =>
                       var_name (Confd.EtcdPrefix settings) (Confd.Key v') <> k)
                    l2).
Proof.
  split.
  - unfold Confd.GetValuesFromEctd. by destruct (Confd.get_keys _ _ _ _ _ _ _).
  - rewrite vars_of_GetValues, foldl_insert_lookup. split; [|by left].
    intros [H|[H _]]; [done|]. by rewrite lookup_empty in H.
Qed.

(** X14: after [GetValuesFromEctd], with or without an error, no variable
    of the template has a [/] in its name. *)
Theorem GetValuesFromEctd_names
        (t : Confd.Template) (k : gostring) (x : Json.value) :
  vars_of (fst (Confd.GetValuesFromEctd etcd_error etcd_Get filepath_Join settings t)) !! k = Some x -> "/"%char ∉ k.
Proof.
  rewrite vars_of_GetValues, foldl_insert_lookup.
  intros [(l1 & v & l2 & _ & <- & _)|[H _]].
  - apply slash_to_underscore_no_slash.
  - by rewrite lookup_empty in H.
Qed.

(** X15: [GetValuesFromEctd] returns an error exactly when a request to
    etcd fails, and the error is that of the first request that fails: the
    requests go in the order of the keys and end there. *)
Theorem GetValuesFromEctd_error (t : Confd.Template) (e : etcd_error) :
  (snd (Confd.GetValuesFromEctd etcd_error etcd_Get filepath_Join settings t) = Some e
   <-> exists (j : nat) (key : gostring),
       Confd.Keys t !! j = Some key
       /\ etcd_Get j (filepath_Join (Confd.EtcdPrefix settings) key) = inr e
       /\ forall (i : nat) (key' : gostring),
           (i < j)%nat -> Confd.Keys t !! i = Some key' ->
           exists values,
             etcd_Get i (filepath_Join (Confd.EtcdPrefix settings) key')
             = inl values).
Proof.
  assert (forall keys i vars,
             snd (Confd.get_keys etcd_error etcd_Get filepath_Join settings
                                 i keys vars) = Some e
             <-> exists (j : nat) (key : gostring),
                 keys !! j = Some key
                 /\ etcd_Get (i + j) (filepath_Join (Confd.EtcdPrefix settings) key)
                    = inr e
                 /\ forall (j' : nat) (key' : gostring),
                     (j' < j)%nat -> keys !! j' = Some key' ->
                     exists values,
                       etcd_Get (i + j')
                                (filepath_Join (Confd.EtcdPrefix settings) key')
                       = inl values) as Hloop.
  { induction keys as [|key keys IH]; intros i vars; cbn [Confd.get_keys].
    - split; [done|]. by intros (j & key & H & _).
    - destruct (etcd_Get i (filepath_Join (Confd.EtcdPrefix settings) key))
        as [values|err] eqn:E.
      + rewrite IH. split.
        * intros (j & key' & Hj & He & Hbefore). exists (S j), key'.
          split; [done|]. split; [by rewrite Nat.add_succ_r|].
          intros [|j'] key'' Hlt Hk.
          -- injection Hk as <-. rewrite Nat.add_0_r. eauto.
          -- rewrite Nat.add_succ_r. apply Hbefore; [lia|done].
        * intros (j & key' & Hj & He & Hbefore). destruct j as [|j].
          -- injection Hj as <-. rewrite Nat.add_0_r in He. congruence.
          -- exists j, key'. split; [done|].
             split; [by rewrite Nat.add_succ_r in He|].
             intros j' key'' Hlt Hk.
             specialize (Hbefore (S j') key'' ltac:(lia) Hk).
             by rewrite Nat.add_succ_r in Hbefore.
      + cbn [snd]. split.
        * intros [= ->]. exists 0%nat, key. split; [done|].
          split; [by rewrite Nat.add_0_r|]. intros j' ?. lia.
        * intros (j & key' & Hj & He & Hbefore). destruct j as [|j].
          -- injection Hj as <-. rewrite Nat.add_0_r in He. congruence.
          -- destruct (Hbefore 0%nat key ltac:(lia) eq_refl) as [values Hv].
             rewrite Nat.add_0_r in Hv. congruence. }
  unfold Confd.GetValuesFromEctd.
  specialize (Hloop (Confd.Keys t) 0%nat ∅).
  by destruct (Confd.get_keys _ _ _ _ _ _ _).
Qed.

End Etcd_properties.

Lemma GetValuesFromEctd_names_witness :
  "/"%char ∉ str "app_db_host".
Proof.
  apply (GetValuesFromEctd_names unit etcd_two_keys join_with_slash
           settings_default template_two_keys (str "app_db_host")
           (Json.String (str "db1"))).
  vm_compute. reflexivity.
Defined.
